(** * osaudit: the snapshot diff and classification engine

    A shallow embedding of the Go package [internal/diff] (files
    [classify.go], [diff.go] and [ndjson.go]) and the properties of its
    specification, settled against the code.

    Conventions.
    - A Go [any] holding a decoded JSON value is a [value]; a [Row]
      ([map[string]any]) is a [gmap string value].  A nil map and an empty
      map are read, measured and ranged over in the same way, and the
      package never writes to a map it received, so both are the empty
      [gmap]; a [Row] that is compared with [nil] is an [option Row].
    - Go's [int] is the 64-bit two's complement integer of the amd64 and
      arm64 targets the tool is released for: a [Z] with the wrap-around
      written out where the code does arithmetic.
    - Go's [float64] is the kernel's binary64 [float].
    - [for k, v := range m] visits a map in an order the language leaves
      open.  Every such loop goes through the [range] oracle of a
      [GoRuntime], which may return any permutation.
    - [fmt.Sprint] of a value of the wrong type is the [Sprint] of a
      [GoPrinter].
    - [fmt.Println] appends to the standard output, the state of the [IO]
      monad.
    - A run-time panic is the [Panic] of an [outcome].  The functions
      with an operation that can panic are read a second time in the
      module [Checked], where a map the code assigns to is an [option]
      that is [None] while the map is nil. *)

From Stdlib Require Import ZArith Lia Ascii String DecimalString DecimalZ DecimalPos.
From Stdlib Require Import Floats.PrimFloat Floats.FloatOps Floats.SpecFloat.
From Stdlib Require Import Floats.FloatAxioms.
From stdpp Require Import base option gmap strings list fin_maps fin_sets sorting.

#[local] Set Warnings "-register-all".
#[local] Open Scope Z_scope.

(** ** Machine integers and floats *)

Module GoNum.

Definition int_min : Z := - 2 ^ 63.
Definition int_max : Z := 2 ^ 63 - 1.

Definition in_int (z : Z) : bool := (int_min <=? z) && (z <=? int_max).

(** Two's complement wrap-around of a 64-bit [int]. *)
Definition wrap_int (z : Z) : Z := (z + 2 ^ 63) mod 2 ^ 64 - 2 ^ 63.

(** The exact value of a finite float, truncated toward zero. *)
Definition float_trunc (x : float) : option Z :=
  match Prim2SF x with
  | S754_zero _ => Some 0
  | S754_finite s m e =>
      let a := if 0 <=? e then Z.pos m * 2 ^ e else Z.pos m / 2 ^ (- e) in
      Some (if s then - a else a)
  | S754_infinity _ | S754_nan => None
  end.

(** [int(x)] for a [float64] [x]: truncation toward zero.  Outside the
    range of [int] (and for NaN) the language leaves the result to the
    implementation; amd64's CVTTSD2SI yields the smallest integer. *)
Definition int_of_float (x : float) : Z :=
  match float_trunc x with
  | Some z => if in_int z then z else int_min
  | None => int_min
  end.

(** [float64(n)] for an [int] [n]: the nearest binary64, ties to even. *)
Definition float_of_int (n : Z) : float :=
  SF2Prim (binary_normalize prec emax n 0 false).

End GoNum.

(** ** The parts of Go's standard library the package calls *)

Module GoLib.

Import GoNum.

(** [strconv.Itoa], and [%d] of [fmt]. *)
Definition Itoa (z : Z) : string := NilEmpty.string_of_int (Z.to_int z).

(** [strings.HasPrefix s prefix]. *)
Definition HasPrefix (s pre : string) : bool := String.prefix pre s.

Fixpoint Join (parts : list string) (sep : string) : string :=
  match parts with
  | [] => ""
  | [x] => x
  | x :: xs => x +:+ sep +:+ Join xs sep
  end.

Definition string_rev (s : string) : string :=
  string_of_list_ascii (rev (list_ascii_of_string s)).

(** [strings.TrimSuffix s suffix]. *)
Definition TrimSuffix (s suffix : string) : string :=
  if String.prefix (string_rev suffix) (string_rev s)
  then String.substring 0 (String.length s - String.length suffix)%nat s
  else s.

(** *** White space

    [unicode.IsSpace], which is also the table [fmt] scans with: the
    ASCII characters tab, line feed, vertical tab, form feed, carriage
    return and space, and U+0085, U+00A0, U+1680, U+2000..U+200A,
    U+2028, U+2029, U+202F, U+205F and U+3000 in their UTF-8 form. *)

Definition byte_of (c : ascii) : Z := Z.of_nat (nat_of_ascii c).

(** The length in bytes of the white-space rune the bytes start with,
    0 when they start with none. *)
Definition space_rune_len (b : list Z) : nat :=
  match b with
  | 0xC2 :: 0x85 :: _ | 0xC2 :: 0xA0 :: _ => 2%nat
  | 0xE1 :: 0x9A :: 0x80 :: _ => 3%nat
  | 0xE2 :: 0x80 :: c :: _ =>
      if ((0x80 <=? c) && (c <=? 0x8A)) || (c =? 0xA8) || (c =? 0xA9) || (c =? 0xAF)
      then 3%nat else 0%nat
  | 0xE2 :: 0x81 :: 0x9F :: _ => 3%nat
  | 0xE3 :: 0x80 :: 0x80 :: _ => 3%nat
  | c :: _ => if ((9 <=? c) && (c <=? 13)) || (c =? 32) then 1%nat else 0%nat
  | [] => 0%nat
  end.

(** The same read from the end of the bytes, given in reverse. *)
Definition space_rune_len_rev (b : list Z) : nat :=
  match b with
  | 0x85 :: 0xC2 :: _ | 0xA0 :: 0xC2 :: _ => 2%nat
  | 0x80 :: 0x9A :: 0xE1 :: _ => 3%nat
  | 0x9F :: 0x81 :: 0xE2 :: _ => 3%nat
  | 0x80 :: 0x80 :: 0xE3 :: _ => 3%nat
  | c :: 0x80 :: 0xE2 :: _ =>
      if ((0x80 <=? c) && (c <=? 0x8A)) || (c =? 0xA8) || (c =? 0xA9) || (c =? 0xAF)
      then 3%nat
      else if ((9 <=? c) && (c <=? 13)) || (c =? 32) then 1%nat else 0%nat
  | c :: _ => if ((9 <=? c) && (c <=? 13)) || (c =? 32) then 1%nat else 0%nat
  | [] => 0%nat
  end.

Fixpoint trim_with (len : list Z → nat) (fuel : nat) (b : list Z) : list Z :=
  match fuel with
  | O => b
  | S fuel' =>
      match len b with
      | O => b
      | n => trim_with len fuel' (drop n b)
      end
  end.

Definition bytes_of_string (s : string) : list Z :=
  byte_of <$> list_ascii_of_string s.

Definition string_of_bytes (b : list Z) : string :=
  string_of_list_ascii ((λ z, ascii_of_nat (Z.to_nat z)) <$> b).

(** [strings.TrimSpace]. *)
Definition TrimSpace (s : string) : string :=
  let b := bytes_of_string s in
  let b1 := trim_with space_rune_len (length b) b in
  let b2 := trim_with space_rune_len_rev (length b1) (rev b1) in
  string_of_bytes (rev b2).

(** *** [fmt.Sscanf(s, "%d", &n)]

    The scanner skips leading white space, failing on a line feed
    (Sscanf does not take a new line for a space), accepts one optional
    sign, then needs at least one decimal digit and takes all that
    follow; what comes after the digits is left unread.  The token must
    fit the 64-bit [int]. *)

Definition is_digit (c : ascii) : bool :=
  let n := byte_of c in (48 <=? n) && (n <=? 57).

Fixpoint skip_space (fuel : nat) (s : string) : option string :=
  match fuel with
  | O => Some s
  | S fuel' =>
      match s with
      | String c _ =>
          if byte_of c =? 10 then None
          else match space_rune_len (bytes_of_string s) with
               | O => Some s
               | n => skip_space fuel' (string_of_list_ascii (drop n (list_ascii_of_string s)))
               end
      | EmptyString => Some s
      end
  end.

Fixpoint scan_digits (s : string) (acc : Z) : Z :=
  match s with
  | String c s' => if is_digit c then scan_digits s' (10 * acc + (byte_of c - 48)) else acc
  | EmptyString => acc
  end.

Definition scan_number (s : string) : option Z :=
  match s with
  | String c _ => if is_digit c then Some (scan_digits s 0) else None
  | EmptyString => None
  end.

Definition Sscanf_d (s : string) : option Z :=
  s1 ← skip_space (String.length s) s;
  r ← match s1 with
       | String "+" s2 => scan_number s2
       | String "-" s2 => Z.opp <$> scan_number s2
       | _ => scan_number s1
       end;
  if in_int r then Some r else None.

(** *** Sorting

    [sort.Ints], [sort.Strings] and [sort.Slice] put a slice in the
    order of a comparison.  They are not stable, which no caller can
    see: each sorts by a total order in which only equal elements
    compare equal, so the sorted slice is unique. *)

Definition sort_Ints (l : list Z) : list Z := merge_sort Z.le l.
Definition sort_Strings (l : list string) : list string := merge_sort String.le l.

Definition not_after {A} (less : A → A → bool) (a b : A) : Prop := less b a = false.

#[local] Instance not_after_dec {A} (less : A → A → bool) a b :
  Decision (not_after less a b).
Proof. unfold not_after. apply _. Defined.

(** [sort.Slice(l, less)]. *)
Definition sort_Slice {A} (less : A → A → bool) (l : list A) : list A :=
  merge_sort (not_after less) l.

(** *** [%.Nf] of a [float64]

    [strconv] prints the decimal nearest to the exact binary value, ties
    to even. *)

Definition round_half_even (n d : Z) : Z :=
  let q := n / d in
  let r := n mod d in
  if 2 * r <? d then q
  else if d <? 2 * r then q + 1
  else if Z.even q then q else q + 1.

(** The value [m * 2^e * 10^digits] rounded to an integer. *)
Definition scaled_round (m : positive) (e : Z) (digits : nat) : Z :=
  let s := 10 ^ Z.of_nat digits in
  if 0 <=? e then Z.pos m * 2 ^ e * s
  else round_half_even (Z.pos m * s) (2 ^ (- e)).

Fixpoint zeros (n : nat) : string :=
  match n with O => "" | S n' => "0" +:+ zeros n' end.

Definition pad_left (width : nat) (s : string) : string :=
  zeros (width - String.length s) +:+ s.

Definition fixed_digits (digits : nat) (n : Z) : string :=
  let s := 10 ^ Z.of_nat digits in
  Itoa (n / s) +:+ "." +:+ pad_left digits (Itoa (n mod s)).

(** [fmt.Sprintf("%.Nf", x)], and [%+.Nf] when [plus] is set. *)
Definition fmt_f (digits : nat) (plus : bool) (x : float) : string :=
  match Prim2SF x with
  | S754_nan => if plus then "+NaN" else "NaN"
  | S754_infinity s => if s then "-Inf" else "+Inf"
  | S754_zero s =>
      (if s then "-" else if plus then "+" else "") +:+ fixed_digits digits 0
  | S754_finite s m e =>
      (if s then "-" else if plus then "+" else "")
        +:+ fixed_digits digits (scaled_round m e digits)
  end.

(** *** [time.UnixMilli(ms).UTC().Format("2006-01-02 15:04:05")] *)

(** The proleptic Gregorian date of a day counted from 1970-01-01. *)
Definition civil_from_days (days : Z) : Z * Z * Z :=
  let z := days + 719468 in
  let era := z / 146097 in
  let doe := z - era * 146097 in
  let yoe := (doe - doe / 1460 + doe / 36524 - doe / 146096) / 365 in
  let doy := doe - (365 * yoe + yoe / 4 - yoe / 100) in
  let mp := (5 * doy + 2) / 153 in
  let d := doy - (153 * mp + 2) / 5 + 1 in
  let m := if mp <? 10 then mp + 3 else mp - 9 in
  let y := yoe + era * 400 + (if m <=? 2 then 1 else 0) in
  (y, m, d).

Definition pad_int (width : nat) (z : Z) : string :=
  (if z <? 0 then "-" else "") +:+ pad_left width (Itoa (Z.abs z)).

Definition format_unix_milli (ms : Z) : string :=
  let sec := ms / 1000 in
  let '(y, m, d) := civil_from_days (sec / 86400) in
  let s := sec mod 86400 in
  pad_int 4 y +:+ "-" +:+ pad_int 2 m +:+ "-" +:+ pad_int 2 d +:+ " "
    +:+ pad_int 2 (s / 3600) +:+ ":" +:+ pad_int 2 (s mod 3600 / 60)
    +:+ ":" +:+ pad_int 2 (s mod 60).

End GoLib.

(** ** Data model *)

(** A Go [any].  [encoding/json] decodes into nil, bool, float64, string,
    [[]any] and [map[string]any]; rows built in Go may also hold [int]
    and [int64], which the package's type switches look for. *)
Inductive value : Type :=
| VNil
| VBool (b : bool)
| VFloat (x : float)
| VInt (n : Z)
| VInt64 (n : Z)
| VString (s : string)
| VList (l : list value)
| VMap (m : gmap string value).

(** [type Row map[string]any] *)
Abbreviation Row := (gmap string value).

(** [row[key]]: the zero value of [any], nil, for a key that is absent. *)
Definition get (row : Row) (key : string) : value := default VNil (row !! key).

(** What the language leaves to the runtime: the order in which [range]
    visits a map, any permutation of its entries. *)
Class GoRuntime := {
  range : ∀ {A : Type}, list A → list A;
  range_perm : ∀ {A : Type} (l : list A), range l ≡ₚ l;
}.

(** A runtime that visits every map in the order of its keys' encoding,
    and one that visits it backwards. *)
Definition forward_runtime : GoRuntime :=
  {| range := λ A l, l;
     range_perm := λ A l, reflexivity l |}.

Definition backward_runtime : GoRuntime :=
  {| range := λ A l, reverse l;
     range_perm := λ A l, reverse_Permutation l |}.

(** [fmt.Sprint] of a value that is no number and not nil, which the
    package prints for a time stamp of the wrong type.  The text Go gives
    a string is the string itself; what it gives the other values is not
    modelled. *)
Class GoPrinter := {
  Sprint : value → string;
  Sprint_string : ∀ s, Sprint (VString s) = s;
}.

Definition string_printer : GoPrinter :=
  {| Sprint := λ v, match v with VString s => s | _ => "" end;
     Sprint_string := λ s, eq_refl |}.

(** [for k, v := range m] and [for k := range m]. *)
Definition range_map `{GoRuntime} `{Countable K} {A} (m : gmap K A) : list (K * A) :=
  range (map_to_list m).

Definition range_keys `{GoRuntime} `{Countable K} {A} (m : gmap K A) : list K :=
  fst <$> range_map m.

Definition range_set `{GoRuntime} `{Countable K} (s : gset K) : list K :=
  range (elements s).

(** ** Standard output *)

Definition IO (A : Type) : Type := string → A * string.

#[global] Instance IO_ret : MRet IO := λ A x out, (x, out).
#[global] Instance IO_bind : MBind IO :=
  λ A B f m out, let '(x, out') := m out in f x out'.

(** [fmt.Println(s)], and [fmt.Printf] of a text already formatted. *)
Definition nl : string := String (ascii_of_nat 10) "".
Definition Println (s : string) : IO unit := λ out, (tt, out +:+ s +:+ nl).
Definition Print (s : string) : IO unit := λ out, (tt, out +:+ s).

(** A loop that prints: [for _, x := range l { body }] over a slice. *)
Fixpoint for_each {A} (l : list A) (body : A → IO unit) : IO unit :=
  match l with
  | [] => mret tt
  | x :: l' => body x ;; for_each l' body
  end.

(** What a function prints and returns when the output starts empty. *)
Definition run_IO {A} (m : IO A) : A * string := m "".

(** ** classify.go *)

Section Classify.

Import GoNum GoLib.
Context `{GoRuntime}.

Definition probeSeverityPrefix : list (string * string) :=
  [ ("config.", "high");
    ("network.defaults_", "high");
    ("network.socketfilterfw_", "high");
    ("identity.dscl_", "medium");
    ("identity.dseditgroup_", "medium");
    ("network.ifconfig_", "medium");
    ("network.lsof_", "medium");
    ("network.scutil_", "medium");
    ("execution.launchctl_", "medium");
    ("execution.ps_", "low");
    ("persistence.", "medium") ].

Definition probeSeverityExact : gmap string string :=
  {[ "network.socketfilterfw_stealth" := "high" ]}.

Definition probeExpectedExitCodes : gmap string (gset Z) :=
  list_to_map
    [ ("config.fdesetup_status", {[ 15; 1 ]});
      ("config.defaults_firewall_globalstate", {[ 1 ]});
      ("config.defaults_screen_lock_delay", {[ 1 ]});
      ("network.defaults_firewall_globalstate", {[ 1 ]});
      ("identity.dscl_list_users", {[ 70; 1 ]});
      ("identity.dseditgroup_checkmember", {[ 1 ]}) ].

Definition probeTopic : gmap string string :=
  list_to_map
    [ ("config.", "Security");
      ("network.", "Network");
      ("identity.", "Identity");
      ("storage.", "Storage");
      ("execution.", "Execution");
      ("persistence.", "Persistence") ].

Definition TopicOrder : list string :=
  [ "Security"; "Network"; "Identity"; "Storage"; "Execution"; "Persistence"; "Other" ].

Definition SeverityOrder : gmap string Z :=
  list_to_map [ ("high", 0); ("medium", 1); ("low", 2) ].

(** The first entry of a prefix table, in the order given, whose prefix
    starts the probe. *)
Fixpoint first_prefix (table : list (string * string)) (probe : string)
  : option string :=
  match table with
  | [] => None
  | (pre, x) :: table' =>
      if HasPrefix probe pre then Some x else first_prefix table' probe
  end.

Definition ProbeSeverity (probe : string) : string :=
  match probeSeverityExact !! probe with
  | Some sev => sev
  | None =>
      match first_prefix probeSeverityPrefix probe with
      | Some sev => sev
      | None => "low"
      end
  end.

Definition ProbeTopic (probe : string) : string :=
  match first_prefix (range_map probeTopic) probe with
  | Some topic => topic
  | None => "Other"
  end.

(** The keys of an exit-code map that scan as an integer: the loop that
    fills [codes] in [ExpectedState]. *)
Definition scanned_codes (keys : list string) : gset Z :=
  foldl (λ codes k, match Sscanf_d k with
                    | Some c => {[ c ]} ∪ codes
                    | None => codes
                    end) ∅ keys.

(** The loop over [codes]: (allInExpected, hasOverlap). *)
Definition overlap (expected : gset Z) (codes : list Z) : bool * bool :=
  foldl (λ '(allInExpected, hasOverlap) c,
           if decide (c ∈ expected) then (allInExpected, true)
           else (false, hasOverlap)) (true, false) codes.

Definition ExpectedState (probe : string) (exitCodes : Row) : string :=
  let expected := default ∅ (probeExpectedExitCodes !! probe) in
  if decide (size expected = 0%nat) then "unexpected" else
  let codes := scanned_codes (range_keys exitCodes) in
  if decide (size codes = 0%nat) then "unexpected" else
  let '(allInExpected, hasOverlap) := overlap expected (range_set codes) in
  if allInExpected then "expected"
  else if hasOverlap then "mixed"
  else "unexpected".

Definition ExpectedSuffix (probe : string) (exitCodes : Row) : string :=
  let state := ExpectedState probe exitCodes in
  if String.eqb state "expected" then " (expected)"
  else if String.eqb state "mixed" then " (mixed)"
  else "".

End Classify.

(** ** diff.go *)

Record probeEntry := {
  status : string;
  probe : string;
  baseIt : option Row;
  currIt : option Row;
}.

Section Diff.

Import GoNum GoLib.
Context `{GoRuntime} `{GoPrinter}.

Definition spanSingleShot : string := "single-shot".
Definition spanTightBurst : string := "tight burst".

(** [row[key]] on a [Row] that may be nil. *)
Definition getf (row : option Row) (key : string) : value :=
  match row with
  | Some r => get r key
  | None => VNil
  end.

Definition toFloat64 (v : value) : float :=
  match v with
  | VFloat x => x
  | VInt x => float_of_int x
  | VInt64 x => float_of_int x
  | _ => 0%float
  end.

Definition toInt (v : value) : Z :=
  match v with
  | VFloat x => int_of_float x
  | VInt x => x
  | VInt64 x => x
  | _ => 0
  end.

Definition toBool (v : value) : bool :=
  match v with
  | VBool x => x
  | VFloat x => negb (PrimFloat.eqb x 0)
  | VInt x => negb (x =? 0)
  | _ => false
  end.

Definition getMap (row : option Row) (key : string) : Row :=
  match getf row key with
  | VMap m => m
  | _ => ∅
  end.

Definition getSlice (row : option Row) (key : string) : list value :=
  match getf row key with
  | VList s => s
  | _ => []
  end.

(** The loop of [fmtBytes] over the units. *)
Fixpoint fmtBytes_units (units : list string) (v : float) : string :=
  match units with
  | [] => fmt_f 1 false v +:+ "P"
  | u :: units' =>
      if PrimFloat.ltb v 1024 then
        if String.eqb u "B" then Itoa (int_of_float v) +:+ u
        else fmt_f 1 false v +:+ u
      else fmtBytes_units units' (v / 1024)%float
  end.

Definition fmtBytes_float (v : float) : string :=
  fmtBytes_units [ "B"; "K"; "M"; "G"; "T" ] (PrimFloat.abs v).

Definition fmtBytes (n : value) : string :=
  match n with
  | VFloat x => fmtBytes_float x
  | VInt x => fmtBytes_float (float_of_int x)
  | VInt64 x => fmtBytes_float (float_of_int x)
  | _ => "N/A"
  end.

Definition fmtTsMs_float (ms : float) : string :=
  if PrimFloat.eqb ms 0 then "N/A"
  else format_unix_milli (int_of_float ms).

Definition fmtTsMs (tsMs : value) : string :=
  match tsMs with
  | VNil => "N/A"
  | VFloat x => fmtTsMs_float x
  | VInt x => fmtTsMs_float (float_of_int x)
  | VInt64 x => fmtTsMs_float (float_of_int x)
  | v => Sprint v
  end.

Definition SpanLabel (count : Z) (durMs : value) : string :=
  if count =? 1 then spanSingleShot
  else if PrimFloat.eqb (toFloat64 durMs) 0 then spanTightBurst
  else "span".

Definition SpanFormat (count : Z) (durMs rate firstTs lastTs : value)
    (fmtTs : value → string) : string :=
  let label := SpanLabel count durMs in
  if String.eqb label spanSingleShot then spanSingleShot
  else if String.eqb label spanTightBurst then spanTightBurst
  else
    let span := fmtTs firstTs +:+ " → " +:+ fmtTs lastTs in
    let durSec := (toFloat64 durMs / 1000)%float in
    let r := toFloat64 rate in
    if PrimFloat.leb 1 durSec && PrimFloat.ltb 0 r
    then span +:+ " (" +:+ fmt_f 2 false r +:+ "/s)"
    else span.

Definition exitCodesDelta (baseEC currEC : Row) : gmap string Z :=
  let allCodes : gset string :=
    foldl (λ acc k, {[ k ]} ∪ acc)
      (foldl (λ acc k, {[ k ]} ∪ acc) ∅ (range_keys baseEC))
      (range_keys currEC) in
  foldl (λ delta c,
           let curr := toInt (get currEC c) in
           let base := toInt (get baseEC c) in
           <[ c := wrap_int (curr - base) ]> delta)
    ∅ (range_set allCodes).

Definition normExitCodes (ec : Row) : gmap Z Z :=
  foldl (λ out '(k, v),
           match Sscanf_d k with
           | Some kk => <[ kk := toInt v ]> out
           | None => out
           end) ∅ (range_map ec).

Definition mapsEqual (a b : gmap Z Z) : bool :=
  if negb (size a =? size b)%nat then false
  else forallb (λ '(k, v), default 0 (b !! k) =? v) (range_map a).

Definition probeFailureIsChanged (probe : string) (baseIt currIt : option Row) : bool :=
  match baseIt, currIt with
  | Some _, Some _ =>
      if negb (toInt (getf baseIt "count") =? toInt (getf currIt "count")) then true
      else
        let baseEC := getMap baseIt "exit_codes" in
        let currEC := getMap currIt "exit_codes" in
        if negb (mapsEqual (normExitCodes baseEC) (normExitCodes currEC)) then true
        else
          let baseState := ExpectedState probe baseEC in
          let currState := ExpectedState probe currEC in
          negb (String.eqb baseState currState)
  | _, _ => true
  end.

Definition statusOrder : gmap string Z :=
  list_to_map [ ("new", 0); ("resolved", 1); ("changed", 2) ].

Definition probeSortKey (probe status : string) : Z * Z * string :=
  let sev := default 2 (SeverityOrder !! ProbeSeverity probe) in
  let so := default 3 (statusOrder !! status) in
  (sev, so, probe).

(** The comparison [sortProbes] hands to [sort.Slice]. *)
Definition probe_less (status : string) (p q : string) : bool :=
  let '(si, soi, pi) := probeSortKey p status in
  let '(sj, soj, pj) := probeSortKey q status in
  if negb (si =? sj) then si <? sj
  else if negb (soi =? soj) then soi <? soj
  else String.ltb pi pj.

Definition sortProbes (probes : list string) (status : string) : list string :=
  sort_Slice (probe_less status) probes.

(** The loop that indexes an [items] list by its [probe] field. *)
Definition index_items (items : list value) : gmap string Row :=
  foldl (λ probes it,
           match it with
           | VMap row =>
               match get row "probe" with
               | VString p => <[ p := row ]> probes
               | _ => probes
               end
           | _ => probes
           end) ∅ items.

Definition buildProbeFailureEntries (basePF currPF : option Row) : list probeEntry :=
  let baseItems := getSlice basePF "items" in
  let currItems := getSlice currPF "items" in
  let baseProbes := index_items baseItems in
  let currProbes := index_items currItems in
  let newProbes :=
    filter (λ p, baseProbes !! p = None) (range_keys currProbes) in
  let resolvedProbes :=
    filter (λ p, currProbes !! p = None) (range_keys baseProbes) in
  let changedProbes :=
    filter (λ p, is_Some (currProbes !! p)
                 ∧ probeFailureIsChanged p (baseProbes !! p) (currProbes !! p) = true)
      (range_keys baseProbes) in
  let newProbes := sortProbes newProbes "new" in
  let resolvedProbes := sortProbes resolvedProbes "resolved" in
  let changedProbes := sortProbes changedProbes "changed" in
  ((λ p, Build_probeEntry "new" p None (currProbes !! p)) <$> newProbes)
    ++ ((λ p, Build_probeEntry "resolved" p (baseProbes !! p) None) <$> resolvedProbes)
    ++ ((λ p, Build_probeEntry "changed" p (baseProbes !! p) (currProbes !! p))
          <$> changedProbes).

(** The keys of a map that scan as an integer, in the order visited. *)
Definition scanned_keys (keys : list string) : list Z :=
  omap Sscanf_d keys.

Definition formatExitCodes (ec : Row) : string :=
  if (size ec =? 0)%nat then ""
  else
    let keys := sort_Ints (scanned_keys (range_keys ec)) in
    let parts :=
      (λ k, Itoa k +:+ ":" +:+ Itoa (toInt (get ec (Itoa k)))) <$> keys in
    Join parts ",".

Definition formatExitCodesDelta (delta : gmap string Z) : string :=
  let keys := sort_Ints (scanned_keys (range_keys delta)) in
  let parts :=
    omap (λ k, let v := default 0 (delta !! Itoa k) in
               if negb (v =? 0)
               then Some (Itoa k +:+ ":" +:+ (if 0 <? v then "+" else "") +:+ Itoa v)
               else None) keys in
  Join parts ", ".

Definition formatProbeEntryNew (probe : string) (currIt : option Row) : string :=
  let c := toInt (getf currIt "count") in
  let ec := getMap currIt "exit_codes" in
  let spanStr :=
    SpanFormat c (getf currIt "duration_ms") (getf currIt "failure_rate")
      (getf currIt "first_ts_ms") (getf currIt "last_ts_ms") fmtTsMs in
  let expSuffix := ExpectedSuffix probe ec in
  "  + " +:+ probe +:+ " failed " +:+ Itoa c +:+ "× (" +:+ spanStr
    +:+ "), exit_codes: {" +:+ formatExitCodes ec +:+ "}" +:+ expSuffix.

Definition formatProbeEntryResolved (probe : string) (baseIt : option Row) : string :=
  let c := toInt (getf baseIt "count") in
  let ec := getMap baseIt "exit_codes" in
  let expSuffix := ExpectedSuffix probe ec in
  "  - " +:+ probe +:+ " resolved (was " +:+ Itoa c +:+ "×, exit_codes: {"
    +:+ formatExitCodes ec +:+ "})" +:+ expSuffix.

Definition formatProbeEntryChanged (probe : string) (baseIt currIt : option Row)
  : string :=
  let bc := toInt (getf baseIt "count") in
  let cc := toInt (getf currIt "count") in
  let ecDelta :=
    exitCodesDelta (getMap baseIt "exit_codes") (getMap currIt "exit_codes") in
  let deltaStr := formatExitCodesDelta ecDelta in
  let expSuffix := ExpectedSuffix probe (getMap currIt "exit_codes") in
  if negb (String.eqb deltaStr "") then
    "  ~ " +:+ probe +:+ " " +:+ Itoa bc +:+ "×→" +:+ Itoa cc +:+ "×, exit_codes: "
      +:+ deltaStr +:+ expSuffix
  else
    "  ~ " +:+ probe +:+ " " +:+ Itoa bc +:+ "×→" +:+ Itoa cc +:+ "×" +:+ expSuffix.

(** *** The emitters *)

(** One line of the storage delta: field, baseline, current, delta and
    percentage. *)
Record storageDelta := {
  sd_field : string;
  sd_b : value;
  sd_c : value;
  sd_delta : float;
  sd_pct : float;
}.

Definition storageFields : list string :=
  [ "home_bytes"; "downloads_bytes"; "desktop_bytes"; "trash_bytes" ].

(** The body of the loop over [storageFields]: the entry it appends, if
    any. *)
Definition storage_entry (baseSum currSum : Row) (f : string) : option storageDelta :=
  let b := get baseSum f in
  let c := get currSum f in
  match b, c with
  | VNil, _ | _, VNil => None
  | _, _ =>
      let bf := toFloat64 b in
      let cf := toFloat64 c in
      let delta := (cf - bf)%float in
      if PrimFloat.eqb delta 0 then None
      else
        let pct := if negb (PrimFloat.eqb bf 0) then (delta / bf * 100)%float
                   else 0%float in
        Some (Build_storageDelta (TrimSuffix f "_bytes") b c delta pct)
  end.

Definition storage_line (d : storageDelta) : string :=
  let sign := if PrimFloat.leb 0 (sd_delta d) then "+" else "" in
  "  " +:+ sd_field d +:+ ": " +:+ fmtBytes (sd_b d) +:+ " → " +:+ fmtBytes (sd_c d)
    +:+ " (" +:+ sign +:+ fmtBytes (VFloat (sd_delta d)) +:+ ", "
    +:+ fmt_f 1 true (sd_pct d) +:+ "%)".

Definition emitStorageDelta (baseSum currSum : option Row) : IO bool :=
  match baseSum, currSum with
  | Some baseSum, Some currSum =>
      let deltas := omap (storage_entry baseSum currSum) storageFields in
      if (length deltas =? 0)%nat then mret false
      else
        Println "## Storage delta" ;;
        for_each deltas (λ d, Println (storage_line d)) ;;
        Println "" ;;
        mret true
  | _, _ => mret false
  end.

(** An integer delta of the count and Homebrew emitters. *)
Record countDelta := {
  cd_field : string;
  cd_b : Z;
  cd_c : Z;
  cd_delta : Z;
}.

Definition count_entry (baseCounts currCounts : Row) (f : string) : option countDelta :=
  let b := toInt (get baseCounts f) in
  let c := toInt (get currCounts f) in
  if negb (wrap_int (c - b) =? 0)
  then Some (Build_countDelta f b c (wrap_int (c - b)))
  else None.

Definition count_line (d : countDelta) : string :=
  let sign := if 0 <=? cd_delta d then "+" else "" in
  "  " +:+ cd_field d +:+ ": " +:+ Itoa (cd_b d) +:+ " → " +:+ Itoa (cd_c d)
    +:+ " (" +:+ sign +:+ Itoa (cd_delta d) +:+ ")".

Definition countFields : list string :=
  [ "large_files"; "node_modules"; "broken_symlinks"; "git_repos"; "venv_cache" ].

Definition emitCountDelta (baseCounts currCounts : option Row) : IO bool :=
  match baseCounts, currCounts with
  | Some baseCounts, Some currCounts =>
      let deltas := omap (count_entry baseCounts currCounts) countFields in
      if (length deltas =? 0)%nat then mret false
      else
        Println "## Count changes" ;;
        for_each deltas (λ d, Println (count_line d)) ;;
        Println "" ;;
        mret true
  | _, _ => mret false
  end.

Definition secFields : list string := [ "filevault"; "sip"; "gatekeeper"; "firewall" ].

Definition sec_entry (baseSec currSec : Row) (f : string)
  : option (string * bool * bool) :=
  let b := get baseSec f in
  let c := get currSec f in
  match b, c with
  | VNil, _ | _, VNil => None
  | _, _ =>
      let bb := toBool b in
      let cc := toBool c in
      if negb (Bool.eqb bb cc) then Some (f, bb, cc) else None
  end.

Definition sec_line (ch : string * bool * bool) : string :=
  let '(field, b, c) := ch in
  "  " +:+ field +:+ ": " +:+ (if b then "on" else "off") +:+ " → "
    +:+ (if c then "on" else "off").

Definition emitSecurityConfigDelta (baseSec currSec : option Row) : IO bool :=
  match baseSec, currSec with
  | Some baseSec, Some currSec =>
      let changes := omap (sec_entry baseSec currSec) secFields in
      if (length changes =? 0)%nat then mret false
      else
        Println "## Security config changes" ;;
        for_each changes (λ ch, Println (sec_line ch)) ;;
        Println "" ;;
        mret true
  | _, _ => mret false
  end.

Definition emitHomebrewDelta (baseBrew currBrew : option Row) : IO bool :=
  match baseBrew, currBrew with
  | Some baseBrew, Some currBrew =>
      let deltas := omap (count_entry baseBrew currBrew) [ "formulae"; "casks" ] in
      if (length deltas =? 0)%nat then mret false
      else
        Println "## Homebrew delta" ;;
        for_each deltas (λ d, Println (count_line d)) ;;
        Println "" ;;
        mret true
  | _, _ => mret false
  end.

Definition emitNewWarnings (codes : list string) : IO bool :=
  if (length codes =? 0)%nat then mret false
  else
    let codes := sort_Strings codes in
    Println "## New warnings" ;;
    for_each codes (λ c, Println ("  - " +:+ c)) ;;
    Println "" ;;
    mret true.

Fixpoint topic_index (order : list string) (i : Z) (topic : string) : Z :=
  match order with
  | [] => 99
  | t :: order' => if String.eqb t topic then i else topic_index order' (i + 1) topic
  end.

Definition topicSortKey (topic : string) : Z := topic_index TopicOrder 0 topic.

(** The comparison that orders the topics. *)
Definition topic_less (a b : string) : bool :=
  let ki := topicSortKey a in
  let kj := topicSortKey b in
  if negb (ki =? kj) then ki <? kj else String.ltb a b.

Definition format_entry (e : probeEntry) : string :=
  if String.eqb (status e) "new" then formatProbeEntryNew (probe e) (currIt e)
  else if String.eqb (status e) "resolved" then formatProbeEntryResolved (probe e) (baseIt e)
  else formatProbeEntryChanged (probe e) (baseIt e) (currIt e).

(** [byTopic[topic] = append(byTopic[topic], e)] over the entries. *)
Definition group_by_topic (entries : list probeEntry) : gmap string (list probeEntry) :=
  foldl (λ byTopic e,
           let topic := ProbeTopic (probe e) in
           <[ topic := default [] (byTopic !! topic) ++ [e] ]> byTopic)
    ∅ entries.

Definition emitProbeFailuresDelta (basePF currPF : option Row) : IO bool :=
  let entries := buildProbeFailureEntries basePF currPF in
  Println "## Probe failures delta" ;;
  if (length entries =? 0)%nat then
    Println "  No changes detected" ;;
    Println "" ;;
    mret false
  else
    let byTopic := group_by_topic entries in
    let topics := sort_Slice topic_less (range_keys byTopic) in
    for_each topics (λ topic,
      let items := default [] (byTopic !! topic) in
      Print (nl +:+ "### " +:+ topic +:+ nl) ;;
      for_each items (λ e, Println (format_entry e))) ;;
    Println "" ;;
    mret true.

(** *** ndjson.go: the warning codes and the type index *)

(** A row of the stream.  A line holding JSON null decodes to a nil
    map, which every reader below takes for an empty one. *)
Definition CollectWarningCodes (rows : list Row) : gset string :=
  foldl (λ codes row,
           match get row "type" with
           | VString "warning" =>
               match get row "code" with
               | VString c => {[ c ]} ∪ codes
               | _ => if decide (is_Some (row !! "soft_failures"))
                      then {[ "soft_failures" ]} ∪ codes
                      else codes
               end
           | _ => codes
           end) ∅ rows.

Definition GroupByType (rows : list Row) : gmap string Row :=
  foldl (λ byType row,
           match get row "type" with
           | VString t => if negb (String.eqb t "") then <[ t := row ]> byType else byType
           | _ => byType
           end) ∅ rows.

(** *** Run *)

Definition Run (baselineRows currentRows : list Row) : IO bool :=
  let baseByType := GroupByType baselineRows in
  let currByType := GroupByType currentRows in
  let hasDeltas := false in
  d ← emitStorageDelta (baseByType !! "summary") (currByType !! "summary");
  let hasDeltas := d || hasDeltas in
  d ← emitCountDelta (baseByType !! "counts") (currByType !! "counts");
  let hasDeltas := d || hasDeltas in
  d ← emitSecurityConfigDelta (baseByType !! "security_config")
        (currByType !! "security_config");
  let hasDeltas := d || hasDeltas in
  d ← emitHomebrewDelta (baseByType !! "homebrew_summary")
        (currByType !! "homebrew_summary");
  let hasDeltas := d || hasDeltas in
  let baseWarnings := CollectWarningCodes baselineRows in
  let currWarnings := CollectWarningCodes currentRows in
  let newWarnings :=
    filter (λ c, c ∉ baseWarnings) (range_set currWarnings) in
  d ← emitNewWarnings newWarnings;
  let hasDeltas := d || hasDeltas in
  d ← emitProbeFailuresDelta (baseByType !! "probe_failures_summary")
        (currByType !! "probe_failures_summary");
  let hasDeltas := d || hasDeltas in
  (if negb hasDeltas
   then Println "No changes detected between baseline and current."
   else mret tt) ;;
  mret hasDeltas.

End Diff.

(** ** ndjson.go: the reader *)

Section Reader.

Import GoNum GoLib.

(** What [os.Open] and the reads that follow deliver for a path: the
    error of [Open], or the bytes read and the error that ended the
    reading when it was not the end of the file. *)
Inductive source :=
| OpenFails (err : string)
| Opened (data : string) (readErr : option string).

(** [os.Open], and [json.Unmarshal] of a line into a [map[string]any]:
    the decoded row, or the text of the error. *)
Variable Open : string → source.
Variable Unmarshal : string → Row + string.

Definition maxLineSize : Z := 1024 * 1024.

Definition ErrTooLong : string := "bufio.Scanner: token too long".

(** [bufio.ScanLines]: the input is cut at each line feed; what follows
    the last one is a line when it is not empty. *)
Fixpoint raw_lines (cur : list ascii) (data : list ascii) : list (list ascii) :=
  match data with
  | [] => match cur with [] => [] | _ => [rev cur] end
  | c :: data' =>
      if Ascii.eqb c (ascii_of_nat 10) then rev cur :: raw_lines [] data'
      else raw_lines (c :: cur) data'
  end.

Definition physical_lines (data : string) : list (list ascii) :=
  raw_lines [] (list_ascii_of_string data).

(** A line with its terminator must fit the scanner's buffer of [max]
    bytes. *)
Definition too_long (max : Z) (line : list ascii) : bool :=
  max <=? Z.of_nat (length line).

(** [dropCR], applied to each token. *)
Definition dropCR (line : list ascii) : list ascii :=
  match rev line with
  | c :: r => if Ascii.eqb c (ascii_of_nat 13) then rev r else line
  | [] => line
  end.

(** [scanner.Text()] of a line that fits. *)
Definition token (line : list ascii) : string := string_of_list_ascii (dropCR line).

(** [strings.Index(msg, "\n")] and the cut at it. *)
Fixpoint first_line (msg : string) : string :=
  match msg with
  | EmptyString => ""
  | String c msg' =>
      if Ascii.eqb c (ascii_of_nat 10) then "" else String c (first_line msg')
  end.

(** The loop [for lineNo := 1; scanner.Scan(); lineNo++] and what follows
    it, over the lines still to scan.  The result is Go's pair of the
    rows and the error, nil being the empty slice and [None]. *)
Fixpoint read_loop (path : string) (readErr : option string)
    (lines : list (list ascii)) (lineNo : Z) (rows : list Row)
  : list Row * option string :=
  match lines with
  | [] =>
      match readErr with
      | Some err => ([], Some ("read " +:+ path +:+ ": " +:+ err))
      | None => (rows, None)
      end
  | l :: lines' =>
      if too_long maxLineSize l
      then ([], Some ("read " +:+ path +:+ ": " +:+ ErrTooLong))
      else
        let line := TrimSpace (token l) in
        if String.eqb line "" then read_loop path readErr lines' (lineNo + 1) rows
        else
          match Unmarshal line with
          | inr msg =>
              ([], Some ("invalid JSON at line " +:+ Itoa lineNo +:+ ": "
                           +:+ first_line msg))
          | inl obj => read_loop path readErr lines' (lineNo + 1) (rows ++ [obj])
          end
  end.

Definition ReadNDJSON (path : string) : list Row * option string :=
  match Open path with
  | OpenFails err => ([], Some ("open " +:+ path +:+ ": " +:+ err))
  | Opened data readErr => read_loop path readErr (physical_lines data) 1 []
  end.

End Reader.

(** ** Panics

    A second reading of [Run] and of the functions under it, in which the
    operations that Go stops with a run-time panic have that outcome: the
    assignment to an entry of a nil map, and the index of a slice outside
    its bounds.  These are the only operations of the package that can
    panic.  Its type assertions all have the two-result form or are type
    switches, which yield the zero value where the one-result form would
    panic; no integer is divided; a map that can be nil is only read,
    measured or ranged over, which is legal on a nil map and gives what
    the empty map gives; an [any] is only compared with nil; no function
    value is nil.  The functions that hold no assignment to a map entry
    and no index are the ones of the reading above. *)

Inductive outcome (A : Type) : Type :=
| Done (a : A)
| Panic (msg : string).

Arguments Done {A} a.
Arguments Panic {A} msg.

Module Checked.

Import GoNum GoLib.

#[global] Instance outcome_ret : MRet outcome := λ A a, Done a.
#[global] Instance outcome_bind : MBind outcome :=
  λ A B f m, match m with
             | Done a => f a
             | Panic msg => Panic msg
             end.

(** A function that prints and can panic: what it has printed when it
    panics stays printed. *)
Definition Exec (A : Type) : Type := string → outcome A * string.

#[global] Instance Exec_ret : MRet Exec := λ A a out, (Done a, out).
#[global] Instance Exec_bind : MBind Exec :=
  λ A B f m out, match m out with
                 | (Done a, out') => f a out'
                 | (Panic msg, out') => (Panic msg, out')
                 end.

(** A part that prints and cannot panic, and a part that can panic and
    does not print. *)
Definition of_IO {A} (m : IO A) : Exec A :=
  λ out, let '(a, out') := m out in (Done a, out').

Definition of_outcome {A} (o : outcome A) : Exec A := λ out, (o, out).

(** *** Maps and slices *)

(** A variable of a map type the code assigns to: nil, or a map. *)
Definition make_map `{Countable K} {V} : option (gmap K V) := Some ∅.

(** What reading, [len] and [range] see of it. *)
Definition entries `{Countable K} {V} (m : option (gmap K V)) : gmap K V :=
  default ∅ m.

(** [m[k] = v] *)
Definition map_store `{Countable K} {V} (m : option (gmap K V)) (k : K) (v : V)
  : outcome (option (gmap K V)) :=
  match m with
  | Some g => Done (Some (<[ k := v ]> g))
  | None => Panic "assignment to entry in nil map"
  end.

(** The same for a [map[K]struct{}], a set of keys. *)
Definition make_set `{Countable K} : option (gset K) := Some ∅.

Definition members `{Countable K} (s : option (gset K)) : gset K := default ∅ s.

Definition set_store `{Countable K} (s : option (gset K)) (k : K)
  : outcome (option (gset K)) :=
  match s with
  | Some g => Done (Some ({[ k ]} ∪ g))
  | None => Panic "assignment to entry in nil map"
  end.

(** [x[i]] *)
Definition slice_at {A} (x : list A) (i : Z) : outcome A :=
  match (if 0 <=? i then x !! Z.to_nat i else None) with
  | Some a => Done a
  | None => Panic "index out of range"
  end.

(** A loop over a slice, or over what [range] yields of a map, that
    carries the variables it assigns to. *)
Fixpoint for_range {A S} (l : list A) (s : S) (body : S → A → outcome S) : outcome S :=
  match l with
  | [] => Done s
  | x :: l' => s' ← body s x; for_range l' s' body
  end.

Fixpoint for_each {A} (l : list A) (body : A → Exec unit) : Exec unit :=
  match l with
  | [] => mret tt
  | x :: l' => body x ;; for_each l' body
  end.

(** *** [sort.Slice]

    The library sorts through two functions of indices, the caller's
    [less] and its own swap, on the slice as it stands.  Short slices it
    sorts by insertion, as below; on longer ones it makes other
    comparisons and swaps, also of two indices of the slice. *)

Definition swap {A} (x : list A) (i j : nat) : list A :=
  match x !! i, x !! j with
  | Some a, Some b => <[ i := b ]> (<[ j := a ]> x)
  | _, _ => x
  end.

(** [for j := i; j > 0 && less(j, j-1); j-- { swap(j, j-1) }] *)
Fixpoint sink {A} (less : list A → Z → Z → outcome bool) (x : list A) (j : nat)
  : outcome (list A) :=
  match j with
  | O => Done x
  | S j' =>
      b ← less x (Z.of_nat j) (Z.of_nat j');
      if (b : bool) then sink less (swap x j j') j' else Done x
  end.

(** [for i := 1; i < len(x); i++] *)
Definition sort_Slice {A} (x : list A) (less : list A → Z → Z → outcome bool)
  : outcome (list A) :=
  for_range (seq 1 (length x - 1)%nat) x (sink less).

Section Functions.

Context `{GoRuntime} `{GoPrinter}.

(** *** classify.go *)

Definition ExpectedState (probe : string) (exitCodes : option Row) : outcome string :=
  let expected := default ∅ (probeExpectedExitCodes !! probe) in
  if decide (size expected = 0%nat) then Done "unexpected" else
  codes ← for_range (range_keys (entries exitCodes)) make_set
             (λ codes k, match Sscanf_d k with
                         | Some c => set_store codes c
                         | None => Done codes
                         end);
  if decide (size (members codes) = 0%nat) then Done "unexpected" else
  let '(allInExpected, hasOverlap) := overlap expected (range_set (members codes)) in
  Done (if allInExpected then "expected"
        else if hasOverlap then "mixed"
        else "unexpected").

Definition ExpectedSuffix (probe : string) (exitCodes : option Row) : outcome string :=
  state ← ExpectedState probe exitCodes;
  Done (if String.eqb state "expected" then " (expected)"
        else if String.eqb state "mixed" then " (mixed)"
        else "").

(** *** diff.go *)

(** [getMap]: the map under the key, nil when the row is nil or holds
    no map there. *)
Definition getMap (row : option Row) (key : string) : option Row :=
  match getf row key with
  | VMap m => Some m
  | _ => None
  end.

Definition exitCodesDelta (baseEC currEC : option Row) : outcome (option (gmap string Z)) :=
  allCodes ← for_range (range_keys (entries baseEC)) make_set set_store;
  allCodes ← for_range (range_keys (entries currEC)) allCodes set_store;
  for_range (range_set (members allCodes)) make_map
    (λ delta c,
       let curr := toInt (get (entries currEC) c) in
       let base := toInt (get (entries baseEC) c) in
       let d := wrap_int (curr - base) in
       map_store delta c d).

Definition normExitCodes (ec : option Row) : outcome (option (gmap Z Z)) :=
  match ec with
  | None => Done None
  | Some ec =>
      for_range (range_map ec) make_map
        (λ out '(k, v), match Sscanf_d k with
                        | Some kk => map_store out kk (toInt v)
                        | None => Done out
                        end)
  end.

Definition probeFailureIsChanged (probe : string) (baseIt currIt : option Row)
  : outcome bool :=
  match baseIt, currIt with
  | Some _, Some _ =>
      if negb (toInt (getf baseIt "count") =? toInt (getf currIt "count")) then Done true
      else
        let baseEC := getMap baseIt "exit_codes" in
        let currEC := getMap currIt "exit_codes" in
        a ← normExitCodes baseEC;
        b ← normExitCodes currEC;
        if negb (mapsEqual (entries a) (entries b)) then Done true
        else
          baseState ← ExpectedState probe baseEC;
          currState ← ExpectedState probe currEC;
          Done (negb (String.eqb baseState currState))
  | _, _ => Done true
  end.

(** The closure [sortProbes] hands to [sort.Slice]: it indexes the slice
    it sorts. *)
Definition probes_less (status : string) (probes : list string) (i j : Z)
  : outcome bool :=
  p ← slice_at probes i;
  q ← slice_at probes j;
  let '(si, soi, pi) := probeSortKey p status in
  let '(sj, soj, pj) := probeSortKey q status in
  Done (if negb (si =? sj) then si <? sj
        else if negb (soi =? soj) then soi <? soj
        else String.ltb pi pj).

Definition sortProbes (probes : list string) (status : string) : outcome (list string) :=
  sort_Slice probes (probes_less status).

Definition index_items (items : list value) : outcome (option (gmap string Row)) :=
  for_range items make_map
    (λ probes it,
       match it with
       | VMap row =>
           match get row "probe" with
           | VString p => map_store probes p row
           | _ => Done probes
           end
       | _ => Done probes
       end).

Definition buildProbeFailureEntries (basePF currPF : option Row)
  : outcome (list probeEntry) :=
  let baseItems := getSlice basePF "items" in
  let currItems := getSlice currPF "items" in
  baseProbes ← index_items baseItems;
  currProbes ← index_items currItems;
  let newProbes :=
    filter (λ p, entries baseProbes !! p = None) (range_keys (entries currProbes)) in
  let resolvedProbes :=
    filter (λ p, entries currProbes !! p = None) (range_keys (entries baseProbes)) in
  changedProbes ←
    for_range (range_keys (entries baseProbes)) []
      (λ changedProbes p,
         if decide (is_Some (entries currProbes !! p)) then
           changed ← probeFailureIsChanged p (entries baseProbes !! p)
                       (entries currProbes !! p);
           Done (if (changed : bool) then changedProbes ++ [p] else changedProbes)
         else Done changedProbes);
  newProbes ← sortProbes newProbes "new";
  resolvedProbes ← sortProbes resolvedProbes "resolved";
  changedProbes ← sortProbes changedProbes "changed";
  Done (((λ p, Build_probeEntry "new" p None (entries currProbes !! p)) <$> newProbes)
          ++ ((λ p, Build_probeEntry "resolved" p (entries baseProbes !! p) None)
                <$> resolvedProbes)
          ++ ((λ p, Build_probeEntry "changed" p (entries baseProbes !! p)
                      (entries currProbes !! p)) <$> changedProbes)).

Definition formatProbeEntryNew (probe : string) (currIt : option Row) : outcome string :=
  let c := toInt (getf currIt "count") in
  let ec := getMap currIt "exit_codes" in
  let spanStr :=
    SpanFormat c (getf currIt "duration_ms") (getf currIt "failure_rate")
      (getf currIt "first_ts_ms") (getf currIt "last_ts_ms") fmtTsMs in
  expSuffix ← ExpectedSuffix probe ec;
  Done ("  + " +:+ probe +:+ " failed " +:+ Itoa c +:+ "× (" +:+ spanStr
          +:+ "), exit_codes: {" +:+ formatExitCodes (entries ec) +:+ "}" +:+ expSuffix).

Definition formatProbeEntryResolved (probe : string) (baseIt : option Row)
  : outcome string :=
  let c := toInt (getf baseIt "count") in
  let ec := getMap baseIt "exit_codes" in
  expSuffix ← ExpectedSuffix probe ec;
  Done ("  - " +:+ probe +:+ " resolved (was " +:+ Itoa c +:+ "×, exit_codes: {"
          +:+ formatExitCodes (entries ec) +:+ "})" +:+ expSuffix).

Definition formatProbeEntryChanged (probe : string) (baseIt currIt : option Row)
  : outcome string :=
  let bc := toInt (getf baseIt "count") in
  let cc := toInt (getf currIt "count") in
  ecDelta ← exitCodesDelta (getMap baseIt "exit_codes") (getMap currIt "exit_codes");
  let deltaStr := formatExitCodesDelta (entries ecDelta) in
  expSuffix ← ExpectedSuffix probe (getMap currIt "exit_codes");
  Done (if negb (String.eqb deltaStr "") then
          "  ~ " +:+ probe +:+ " " +:+ Itoa bc +:+ "×→" +:+ Itoa cc +:+ "×, exit_codes: "
            +:+ deltaStr +:+ expSuffix
        else
          "  ~ " +:+ probe +:+ " " +:+ Itoa bc +:+ "×→" +:+ Itoa cc +:+ "×" +:+ expSuffix).

(** The closure that orders the topics. *)
Definition topics_less (topics : list string) (i j : Z) : outcome bool :=
  a ← slice_at topics i;
  b ← slice_at topics j;
  let ki := topicSortKey a in
  let kj := topicSortKey b in
  if negb (ki =? kj) then Done (ki <? kj)
  else
    a ← slice_at topics i;
    b ← slice_at topics j;
    Done (String.ltb a b).

Definition format_entry (e : probeEntry) : outcome string :=
  if String.eqb (status e) "new" then formatProbeEntryNew (probe e) (currIt e)
  else if String.eqb (status e) "resolved" then formatProbeEntryResolved (probe e) (baseIt e)
  else formatProbeEntryChanged (probe e) (baseIt e) (currIt e).

Definition emitProbeFailuresDelta (basePF currPF : option Row) : Exec bool :=
  entries_ ← of_outcome (buildProbeFailureEntries basePF currPF);
  of_IO (Println "## Probe failures delta") ;;
  if (length entries_ =? 0)%nat then
    of_IO (Println "  No changes detected") ;;
    of_IO (Println "") ;;
    mret false
  else
    byTopic ← of_outcome
      (for_range entries_ make_map
         (λ byTopic e,
            let topic := ProbeTopic (probe e) in
            map_store byTopic topic (default [] (entries byTopic !! topic) ++ [e])));
    let topics := range_keys (entries byTopic) in
    topics ← of_outcome (sort_Slice topics topics_less);
    for_each topics (λ topic,
      let items := default [] (entries byTopic !! topic) in
      of_IO (Print (nl +:+ "### " +:+ topic +:+ nl)) ;;
      for_each items (λ e,
        line ← of_outcome (format_entry e);
        of_IO (Println line))) ;;
    of_IO (Println "") ;;
    mret true.

(** *** ndjson.go *)

Definition CollectWarningCodes (rows : list Row) : outcome (option (gset string)) :=
  for_range rows make_set
    (λ codes row,
       match get row "type" with
       | VString "warning" =>
           match get row "code" with
           | VString c => set_store codes c
           | _ => if decide (is_Some (row !! "soft_failures"))
                  then set_store codes "soft_failures"
                  else Done codes
           end
       | _ => Done codes
       end).

Definition GroupByType (rows : list Row) : outcome (option (gmap string Row)) :=
  for_range rows make_map
    (λ byType row,
       match get row "type" with
       | VString t => if negb (String.eqb t "") then map_store byType t row
                      else Done byType
       | _ => Done byType
       end).

(** *** Run *)

Definition Run (baselineRows currentRows : list Row) : Exec bool :=
  baseByType ← of_outcome (GroupByType baselineRows);
  currByType ← of_outcome (GroupByType currentRows);
  let hasDeltas := false in
  d ← of_IO (emitStorageDelta (entries baseByType !! "summary")
               (entries currByType !! "summary"));
  let hasDeltas := d || hasDeltas in
  d ← of_IO (emitCountDelta (entries baseByType !! "counts")
               (entries currByType !! "counts"));
  let hasDeltas := d || hasDeltas in
  d ← of_IO (emitSecurityConfigDelta (entries baseByType !! "security_config")
               (entries currByType !! "security_config"));
  let hasDeltas := d || hasDeltas in
  d ← of_IO (emitHomebrewDelta (entries baseByType !! "homebrew_summary")
               (entries currByType !! "homebrew_summary"));
  let hasDeltas := d || hasDeltas in
  baseWarnings ← of_outcome (CollectWarningCodes baselineRows);
  currWarnings ← of_outcome (CollectWarningCodes currentRows);
  let newWarnings :=
    filter (λ c, c ∉ members baseWarnings) (range_set (members currWarnings)) in
  d ← of_IO (emitNewWarnings newWarnings);
  let hasDeltas := d || hasDeltas in
  d ← emitProbeFailuresDelta (entries baseByType !! "probe_failures_summary")
        (entries currByType !! "probe_failures_summary");
  let hasDeltas := d || hasDeltas in
  (if negb hasDeltas
   then of_IO (Println "No changes detected between baseline and current.")
   else mret tt) ;;
  mret hasDeltas.

End Functions.

End Checked.

(** A function that can panic runs as one that cannot: it does not
    panic, and returns and prints what the other does. *)
Definition runs_as {A} (m : Checked.Exec A) (p : IO A) : Prop :=
  ∀ out, m out = (Done (p out).1, (p out).2).

(** The place an insertion finds for [a] in a list in descending order. *)
Fixpoint ins {A} (lt : A → A → bool) (a : A) (r : list A) : list A :=
  match r with
  | [] => [a]
  | b :: r' => if lt a b then b :: ins lt a r' else a :: r
  end.

(** The insertions of the elements of [post] into [r], in ascending
    order at the end. *)
Fixpoint insertions {A} (lt : A → A → bool) (r post : list A) : list A :=
  match post with
  | [] => rev r
  | a :: post' => insertions lt (ins lt a r) post'
  end.

(** ** The specification's vocabulary

    Definitions that follow the words of the specification, to be compared
    with what the code computes. *)

Section SpecWords.

Import GoNum GoLib.

(** E: the expected-code set of a probe, empty when the probe is not in
    the table. *)
Definition expected_set (probe : string) : gset Z :=
  default ∅ (probeExpectedExitCodes !! probe).

(** C as the specification words it: the exit codes with a non-zero
    occurrence in the map. *)
Definition nonzero_codes (ec : Row) : gset Z :=
  list_to_set
    (omap (λ '(k, v), if toInt v =? 0 then None else Sscanf_d k) (map_to_list ec)).

(** C as the code takes it: the exit codes that are keys of the map. *)
Definition key_codes (ec : Row) : gset Z :=
  list_to_set (omap Sscanf_d (map_to_list ec).*1).

(** The classification of C against E. *)
Definition three_way (E C : gset Z) : string :=
  if decide (C = ∅) then "unexpected"
  else if decide (C ⊆ E) then "expected"
  else if decide (C ∩ E ≠ ∅) then "mixed"
  else "unexpected".

(** The span of a new probe: the two time stamps, and the rate that may
    follow them. *)
Definition timestamp_span `{GoPrinter} (firstTs lastTs : value) : string :=
  fmtTsMs firstTs +:+ " → " +:+ fmtTsMs lastTs.

Definition rate_suffix (rate : value) : string :=
  " (" +:+ fmt_f 2 false (toFloat64 rate) +:+ "/s)".

(** The span as the specification words it: "tight burst" asks for a
    count above one. *)
Definition span_as_specified `{GoPrinter} (count : Z)
    (durMs rate firstTs lastTs : value) : string :=
  if count =? 1 then "single-shot"
  else if (1 <? count) && PrimFloat.eqb (toFloat64 durMs) 0 then "tight burst"
  else timestamp_span firstTs lastTs
       +:+ (if PrimFloat.leb 1000 (toFloat64 durMs) && PrimFloat.ltb 0 (toFloat64 rate)
            then rate_suffix rate else "").

(** The span with "tight burst" for every count other than one. *)
Definition span_as_coded `{GoPrinter} (count : Z)
    (durMs rate firstTs lastTs : value) : string :=
  if count =? 1 then "single-shot"
  else if PrimFloat.eqb (toFloat64 durMs) 0 then "tight burst"
  else timestamp_span firstTs lastTs
       +:+ (if PrimFloat.leb 1000 (toFloat64 durMs) && PrimFloat.ltb 0 (toFloat64 rate)
            then rate_suffix rate else "").

(** The occurrences of an exit code in a normalized map, a code that is
    missing counting 0. *)
Definition occurrences (m : gmap Z Z) (code : Z) : Z := default 0 (m !! code).

(** Two normalized distributions differ when some exit code occurs a
    different number of times. *)
Definition distributions_differ (a b : gmap Z Z) : Prop :=
  ∃ code, occurrences a code ≠ occurrences b code.

(** When the specification calls a probe of both snapshots changed: its
    count differs, or its normalized exit-code distributions differ, or
    its expected state differs. *)
Definition changed_as_specified `{GoRuntime} (probe : string) (baseIt currIt : Row)
  : Prop :=
  toInt (get baseIt "count") ≠ toInt (get currIt "count")
  ∨ distributions_differ (normExitCodes (getMap (Some baseIt) "exit_codes"))
      (normExitCodes (getMap (Some currIt) "exit_codes"))
  ∨ ExpectedState probe (getMap (Some baseIt) "exit_codes")
    ≠ ExpectedState probe (getMap (Some currIt) "exit_codes").

(** Every exit code of the map has occurred: no key that scans as a code
    counts 0. *)
Definition counts_nonzero (ec : Row) : bool :=
  forallb (λ '(k, v), match GoLib.Sscanf_d k with
                      | Some _ => negb (toInt v =? 0)
                      | None => true
                      end) (map_to_list ec).

(** A probe-failure item, and the summary record that carries items, as
    the collectors write them. *)
Definition probe_item (probe : string) (count : Z) (exit_codes : Row) : Row :=
  list_to_map [ ("probe", VString probe);
                ("count", VFloat (GoNum.float_of_int count));
                ("exit_codes", VMap exit_codes) ].

Definition probe_summary (items : list Row) : Row :=
  list_to_map [ ("type", VString "probe_failures_summary");
                ("items", VList (VMap <$> items)) ].

(** Two snapshots in the manner of the README: a probe that fails more
    often than before, three new ones, one that is resolved. *)
Definition sample_baseline : list Row :=
  [ {[ "type" := VString "meta" ]};
    probe_summary
      [ probe_item "identity.dscl_list_users" 1 {[ "70" := VFloat 1 ]};
        probe_item "network.lsof_listen" 2 {[ "1" := VFloat 2 ]} ] ].

Definition sample_current : list Row :=
  [ {[ "type" := VString "meta" ]};
    probe_summary
      [ probe_item "identity.dscl_list_users" 3 {[ "70" := VFloat 3 ]};
        probe_item "config.fdesetup_status" 2
          (list_to_map [ ("1", VFloat 1); ("255", VFloat 1) ]);
        probe_item "network.ifconfig_list" 1 {[ "1" := VFloat 1 ]};
        probe_item "network.ifconfig_iface" 5 {[ "1" := VFloat 5 ]} ] ].

(** A stream of five lines for the examples of the reader: a record, an
    empty line, a line of white space ended by a carriage return, a line
    that is no record, and a record without a line feed after it.  The
    decoder of the examples stands in for [json.Unmarshal]: it takes a
    line in braces for a record, kept under "raw", and refuses any other
    with a message of two lines. *)
Definition sample_stream : string :=
  "{a}" +:+ nl +:+ nl +:+ "  " +:+ String (ascii_of_nat 13) nl +:+ " oops " +:+ nl +:+ "{b}".

Definition sample_decoder (line : string) : Row + string :=
  if String.prefix "{" line then inl {[ "raw" := VString line ]}
  else inr ("invalid character 'o' looking for beginning of value" +:+ nl +:+ "at offset 0").

Definition sample_files (path : string) : source :=
  if String.eqb path "bad.ndjson" then Opened sample_stream None
  else if String.eqb path "good.ndjson" then Opened ("{a}" +:+ nl +:+ nl +:+ " {b} " +:+ nl) None
  else OpenFails "no such file or directory".

(** The sort key of an entry, and the order of the entries of one topic
    that the specification describes. *)
Definition entry_key (e : probeEntry) : Z * Z * string :=
  probeSortKey (probe e) (status e).

Definition key_le (a b : Z * Z * string) : Prop :=
  let '(sa, ta, pa) := a in
  let '(sb, tb, pb) := b in
  sa < sb ∨ (sa = sb ∧ (ta < tb ∨ (ta = tb ∧ String.le pa pb))).

(** The order the code gives the entries of a topic: the status first,
    then the severity, then the probe. *)
Definition status_major_le (a b : Z * Z * string) : Prop :=
  let '(sa, ta, pa) := a in
  let '(sb, tb, pb) := b in
  ta < tb ∨ (ta = tb ∧ (sa < sb ∨ (sa = sb ∧ String.le pa pb))).

(** A value that the numeric coercions read as a number. *)
Definition is_number (v : value) : bool :=
  match v with
  | VFloat _ | VInt _ | VInt64 _ => true
  | _ => false
  end.

(** An entry of an [items] list that is a map with a string under
    "probe". *)
Definition is_probe_item (it : value) : bool :=
  match it with
  | VMap row => match get row "probe" with VString _ => true | _ => false end
  | _ => false
  end.

(** A row whose "type" is a string that is not empty. *)
Definition has_type (row : Row) : bool :=
  match get row "type" with
  | VString t => negb (String.eqb t "")
  | _ => false
  end.

End SpecWords.

(** The lines of a stream, as the specification speaks of them. *)
Section ReaderWords.

Import GoLib.
Variable Unmarshal : string → Row + string.

(** A line that is empty once the white space around it is trimmed. *)
Definition blank (l : list ascii) : bool := String.eqb (TrimSpace (token l)) "".

(** A line within the maximum size of a single line. *)
Definition fits (l : list ascii) : bool := negb (too_long maxLineSize l).

(** What a line that is not blank decodes to. *)
Definition decode (l : list ascii) : Row + string := Unmarshal (TrimSpace (token l)).

(** The record of a line: none for a blank line. *)
Definition record_of (l : list ascii) : option Row :=
  if blank l then None
  else match decode l with inl row => Some row | inr _ => None end.

(** A line that does not stop the reading: it fits, and is blank or
    decodes. *)
Definition readable (l : list ascii) : bool :=
  fits l && (blank l || match decode l with inl _ => true | inr _ => false end).

(** The records of the lines that have one, in the order of the lines. *)
Definition records (lines : list (list ascii)) : list Row := omap record_of lines.

End ReaderWords.

(** ** Orders and iteration orders *)

(** Two computations that print and return the same from every state of
    the output. *)
Definition io_eq {A} (m1 m2 : IO A) : Prop := ∀ out, m1 out = m2 out.

(** The order of [sortProbes] and of the topics: by a rank first, then by
    the string itself. *)
Definition lex_less (rank : string → Z) (a b : string) : bool :=
  if negb (rank a =? rank b) then rank a <? rank b else String.ltb a b.

(** The exit codes of a map can be told apart: two keys that scan as the
    same integer carry the same count. *)
Definition codes_agree (ec : Row) : bool :=
  forallb (λ '(k1, v1),
     forallb (λ '(k2, v2),
        match GoLib.Sscanf_d k1, GoLib.Sscanf_d k2 with
        | Some c1, Some c2 => negb (c1 =? c2) || (toInt v1 =? toInt v2)
        | _, _ => true
        end) (map_to_list ec)) (map_to_list ec).

(** The body of the loop of [normExitCodes], on a pair. *)
Definition norm_step (out : gmap Z Z) (kv : string * value) : gmap Z Z :=
  match GoLib.Sscanf_d kv.1 with
  | Some kk => <[ kk := toInt kv.2 ]> out
  | None => out
  end.

(** The same of every item of a list of items, and of every row of a
    stream. *)
Definition items_agree (items : list value) : bool :=
  forallb (λ it, match it with
                 | VMap item => codes_agree (getMap (Some item) "exit_codes")
                 | _ => true
                 end) items.

Definition rows_agree (rows : list Row) : bool :=
  forallb (λ row, items_agree (getSlice (Some row) "items")) rows.

(** ** Binary64 arithmetic

    The operands of the comparison [durSec >= 1], unfolded to their
    mantissa and exponent, and the second half of the rounding that
    follows a division: the renormalisation of a rounded mantissa. *)

Definition sf_one : spec_float := S754_finite false 4503599627370496 (-52).
Definition sf_thousand : spec_float := S754_finite false 8796093022208000 (-43).
Definition thousand_m : Z := 8796093022208000.

Abbreviation fexp64 := (fexp prec emax).

Definition round_finish (sx : bool) (m e : Z) : spec_float :=
  let '(mrs, e') := shr_fexp prec emax m e loc_Exact in
  match shr_m mrs with
  | Z0 => S754_zero sx
  | Zpos p => if e' <=? emax - prec then S754_finite sx p e' else S754_infinity sx
  | Zneg _ => S754_nan
  end.

(** ** Further vocabulary

    What the properties of the rest of the package are stated with. *)

(** A row whose "type" is the string [t]. *)
Definition type_is (t : string) (row : Row) : bool :=
  match get row "type" with
  | VString s => String.eqb s t
  | _ => false
  end.

(** An entry of an [items] list that is a map with the string [p] under
    "probe", and the map of such an entry. *)
Definition probe_is (p : string) (it : value) : bool :=
  match it with
  | VMap row => match get row "probe" with VString q => String.eqb q p | _ => false end
  | _ => false
  end.

Definition row_of (it : value) : option Row :=
  match it with VMap row => Some row | _ => None end.

(** The types of the records that [Run] reads. *)
Definition consumed_types : list string :=
  [ "summary"; "counts"; "security_config"; "homebrew_summary"; "warning";
    "probe_failures_summary" ].

Definition consumed (row : Row) : bool :=
  existsb (λ t, type_is t row) consumed_types.

(** The warning code of a row: the string under "code" of a row of type
    "warning", or "soft_failures" for a warning without such a string
    that has the key "soft_failures". *)
Definition warning_code (row : Row) : option string :=
  if type_is "warning" row then
    match get row "code" with
    | VString c => Some c
    | _ => if decide (is_Some (row !! "soft_failures")) then Some "soft_failures" else None
    end
  else None.

(** A float that is a number: not NaN, not an infinity. *)
Definition finite_float (x : float) : bool :=
  match Prim2SF x with
  | S754_zero _ | S754_finite _ _ _ => true
  | S754_infinity _ | S754_nan => false
  end.

(** The storage fields of a row hold finite numbers, as every number
    that [encoding/json] decodes is. *)
Definition storage_finite (row : Row) : bool :=
  forallb (λ f, finite_float (toFloat64 (get row f))) storageFields.

(** The text of a list of lines, each ended by a line feed. *)
Definition lines_of (lines : list string) : string :=
  foldr (λ s acc, s +:+ nl +:+ acc) "" lines.

(** A computation that prints nothing exactly when it returns false. *)
Definition quiet (m : IO bool) : Prop :=
  ∀ out, (m out).1 = false ↔ (m out).2 = out.

(** No code of a normalized map counts 0. *)
Definition no_zero_count (a : gmap Z Z) : bool :=
  forallb (λ kv, negb (kv.2 =? 0)) (map_to_list a).

(** The byte counts below one unit of 1024, with either sign. *)
Definition small_sizes : list Z := seqZ (-1023) 2047.

(** An exit-code map with decimal keys: every key is the decimal text
    (as [strconv.Itoa] writes it) of the integer it scans as. *)
Definition decimal_keys (ec : Row) : bool :=
  forallb (λ k, match GoLib.Sscanf_d k with
                | Some n => String.eqb (GoLib.Itoa n) k
                | None => false
                end) (map_to_list ec).*1.

(** The text of the topics of a list of entries: for each topic of
    [TopicOrder] that has an entry, an empty line, the header of the
    topic and the lines of its entries, in the order of the entries. *)
Definition topic_sections `{GoRuntime} `{GoPrinter} (entries : list probeEntry) : string :=
  foldr (λ topic acc,
           nl +:+ "### " +:+ topic +:+ nl
             +:+ lines_of (format_entry <$>
                             filter (λ e, ProbeTopic (probe e) = topic) entries)
             +:+ acc) ""
    (filter (λ topic, Exists (λ e, ProbeTopic (probe e) = topic) entries) TopicOrder).

(** The stream with each line feed turned into a carriage return and a
    line feed, as a file written on Windows has them. *)
Fixpoint crlf (data : string) : string :=
  match data with
  | EmptyString => EmptyString
  | String c rest =>
      if Ascii.eqb c (ascii_of_nat 10)
      then String (ascii_of_nat 13) (String c (crlf rest))
      else String c (crlf rest)
  end.

(** No line of the stream is one byte short of the scanner's limit. *)
Definition off_limit (data : string) : bool :=
  forallb (λ l, negb (Z.of_nat (length l) =? maxLineSize - 1)) (physical_lines data).

(** The exact difference of two finite floats on the grid of the smaller
    exponent, as [SFsub] forms it before rounding. *)
Definition aligned (s : bool) (m : positive) (e ez : Z) : Z :=
  cond_Zopp s (Z.pos m * 2 ^ (e - ez)).

(** Whether the storage field [f] is in both rows with two numbers that
    differ. *)
Definition storage_differs (base curr : Row) (f : string) : bool :=
  match get base f, get curr f with
  | VNil, _ | _, VNil => false
  | b, c => negb (PrimFloat.eqb (toFloat64 b) (toFloat64 c))
  end.

(** The line of the storage field [f]: the field without its suffix, the
    two sizes, then the size of the difference, with a plus sign when the
    current size is at least the baseline, and the difference in percent
    of the baseline. *)
Definition storage_text (base curr : Row) (f : string) : string :=
  let b := get base f in
  let c := get curr f in
  let bf := toFloat64 b in
  let cf := toFloat64 c in
  "  " +:+ GoLib.TrimSuffix f "_bytes" +:+ ": " +:+ fmtBytes b +:+ " → " +:+ fmtBytes c
    +:+ " (" +:+ (if PrimFloat.leb bf cf then "+" else "")
    +:+ fmtBytes (VFloat (cf - bf)) +:+ ", "
    +:+ GoLib.fmt_f 1 true (if negb (PrimFloat.eqb bf 0) then (cf - bf) / bf * 100
                            else 0)%float
    +:+ "%)".

(** A float that is not zero and has the sign [s]. *)
Definition signed (s : bool) (r : spec_float) : Prop :=
  match r with
  | S754_finite s' _ _ | S754_infinity s' => s' = s
  | _ => False
  end.

(** The counts of the fields are below 2^62 in absolute value, so that
    their differences fit the 64-bit [int]. *)
Definition small_counts (fields : list string) (row : Row) : bool :=
  forallb (λ f, Z.abs (toInt (get row f)) <? 2 ^ 62) fields.

(** Whether the counts of the field [f] differ, a missing count being 0. *)
Definition count_differs (base curr : Row) (f : string) : bool :=
  negb (toInt (get base f) =? toInt (get curr f)).

(** The line of the count field [f]: the two counts and their
    difference, with a plus sign when the count has not shrunk. *)
Definition count_text (base curr : Row) (f : string) : string :=
  let b := toInt (get base f) in
  let c := toInt (get curr f) in
  "  " +:+ f +:+ ": " +:+ GoLib.Itoa b +:+ " → " +:+ GoLib.Itoa c
    +:+ " (" +:+ (if b <=? c then "+" else "") +:+ GoLib.Itoa (c - b) +:+ ")".

(** The section of the fields whose counts differ under a header. *)
Definition count_report (header : string) (fields : list string) (base curr : Row)
  : bool * string :=
  match filter (λ f, count_differs base curr f = true) fields with
  | [] => (false, "")
  | changed =>
      (true, header +:+ nl +:+ lines_of (count_text base curr <$> changed) +:+ nl)
  end.

(** * Properties *)

(** ** The iteration order *)

Section RangeFacts.

Context `{GoRuntime}.

Lemma range_nil {A} : range ([] : list A) = [].
Proof. apply Permutation_nil_r, range_perm. Qed.

Lemma range_singleton {A} (x : A) : range [x] = [x].
Proof. apply Permutation_singleton_r, range_perm. Qed.

Lemma range_map_perm `{Countable K} {A} (m : gmap K A) :
  range_map m ≡ₚ map_to_list m.
Proof. apply range_perm. Qed.

Lemma range_keys_perm `{Countable K} {A} (m : gmap K A) :
  range_keys m ≡ₚ (map_to_list m).*1.
Proof. unfold range_keys. by rewrite range_map_perm. Qed.

Lemma range_set_perm `{Countable K} (s : gset K) : range_set s ≡ₚ elements s.
Proof. apply range_perm. Qed.

Lemma elem_of_range_keys `{Countable K} {A} (m : gmap K A) k :
  k ∈ range_keys m ↔ is_Some (m !! k).
Proof.
  rewrite range_keys_perm, list_elem_of_fmap. split.
  - intros [[k' v] [-> Hin]]. apply elem_of_map_to_list in Hin. eauto.
  - intros [v Hv]. exists (k, v). split; [done|]. by apply elem_of_map_to_list.
Qed.

Lemma elem_of_range_set `{Countable K} (s : gset K) k : k ∈ range_set s ↔ k ∈ s.
Proof. by rewrite range_set_perm, elem_of_elements. Qed.

End RangeFacts.

(** ** Severity *)

Section SeverityFacts.

Import GoLib.

Lemma first_prefix_app_miss before after probe :
  Forall (λ e, HasPrefix probe e.1 = false) before →
  first_prefix (before ++ after) probe = first_prefix after probe.
Proof.
  induction 1 as [|[pre x] before Hx _ IH]; simpl in *; [done|].
  by rewrite Hx.
Qed.

Lemma first_prefix_hit before pre x after probe :
  Forall (λ e, HasPrefix probe e.1 = false) before →
  HasPrefix probe pre = true →
  first_prefix (before ++ (pre, x) :: after) probe = Some x.
Proof.
  intros Hmiss Hhit. rewrite first_prefix_app_miss by done.
  simpl. by rewrite Hhit.
Qed.

Lemma first_prefix_none table probe :
  Forall (λ e, HasPrefix probe e.1 = false) table →
  first_prefix table probe = None.
Proof.
  intros Hmiss. rewrite <- (app_nil_r table).
  by rewrite first_prefix_app_miss.
Qed.

(** C5: [ProbeSeverity] returns the entry of the exact table when the
    probe has one, whatever prefixes match it; otherwise the severity of
    the first prefix of [probeSeverityPrefix], in the order declared,
    that starts the probe, later matching prefixes notwithstanding;
    otherwise "low". *)
Theorem ProbeSeverity_precedence (probe : string) :
  (∀ sev, probeSeverityExact !! probe = Some sev → ProbeSeverity probe = sev)
  ∧ (probeSeverityExact !! probe = None →
     (∀ before pre sev after,
         probeSeverityPrefix = before ++ (pre, sev) :: after →
         Forall (λ e, HasPrefix probe e.1 = false) before →
         HasPrefix probe pre = true →
         ProbeSeverity probe = sev)
     ∧ (Forall (λ e, HasPrefix probe e.1 = false) probeSeverityPrefix →
        ProbeSeverity probe = "low")).
Proof.
  unfold ProbeSeverity. split.
  - intros sev ->. done.
  - intros ->. split.
    + intros before pre sev after -> Hmiss Hhit.
      by rewrite first_prefix_hit.
    + intros Hmiss. by rewrite first_prefix_none.
Qed.

(** The three cases on the table as declared: an exact entry next to a
    matching prefix, two matching prefixes, and none. *)
Example ProbeSeverity_exact_over_prefix :
  HasPrefix "network.socketfilterfw_stealth" "network.socketfilterfw_" = true
  ∧ ProbeSeverity "network.socketfilterfw_stealth" = "high".
Proof. split; reflexivity. Qed.

Example ProbeSeverity_samples :
  ProbeSeverity "execution.ps_aux" = "low"
  ∧ ProbeSeverity "persistence.launchd_list" = "medium"
  ∧ ProbeSeverity "storage.du_home" = "low".
Proof. repeat split; reflexivity. Qed.

End SeverityFacts.

(** ** The expected state *)

Section ExpectedStateFacts.

Import GoNum GoLib.
Context `{GoRuntime}.

Lemma scanned_codes_acc (keys : list string) (acc : gset Z) :
  foldl (λ codes k, match Sscanf_d k with
                    | Some c => {[ c ]} ∪ codes
                    | None => codes
                    end) acc keys
  = list_to_set (omap Sscanf_d keys) ∪ acc.
Proof.
  revert acc. induction keys as [|k keys IH]; intros acc; simpl.
  - set_solver.
  - rewrite IH. destruct (Sscanf_d k); simpl; set_solver.
Qed.

Lemma scanned_codes_spec (keys : list string) :
  scanned_codes keys = list_to_set (omap Sscanf_d keys).
Proof. unfold scanned_codes. rewrite scanned_codes_acc. set_solver. Qed.

Lemma scanned_codes_range (ec : Row) :
  scanned_codes (range_keys ec) = key_codes ec.
Proof.
  rewrite scanned_codes_spec. unfold key_codes.
  apply set_eq. intros c. rewrite !elem_of_list_to_set, !list_elem_of_omap.
  by setoid_rewrite (range_keys_perm ec).
Qed.

Lemma overlap_acc (E : gset Z) (l : list Z) (a h : bool) :
  foldl (λ '(allInExpected, hasOverlap) c,
           if decide (c ∈ E) then (allInExpected, true)
           else (false, hasOverlap)) (a, h) l
  = (a && forallb (λ c, bool_decide (c ∈ E)) l,
     h || existsb (λ c, bool_decide (c ∈ E)) l).
Proof.
  revert a h. induction l as [|c l IH]; intros a h; simpl.
  - by rewrite andb_true_r, orb_false_r.
  - destruct (decide (c ∈ E)) as [Hc|Hc]; rewrite IH.
    + rewrite (bool_decide_eq_true_2 _ Hc). simpl. by rewrite orb_true_r.
    + rewrite (bool_decide_eq_false_2 _ Hc). simpl. by rewrite andb_false_r.
Qed.

Lemma overlap_all (E C : gset Z) :
  (overlap E (range_set C)).1 = bool_decide (C ⊆ E).
Proof.
  unfold overlap. rewrite overlap_acc. simpl.
  apply eq_true_iff_eq. rewrite bool_decide_eq_true, forallb_forall. split.
  - intros Hall c Hc.
    assert (In c (range_set C)) as Hin
      by (apply list_elem_of_In; by apply elem_of_range_set).
    apply Hall in Hin. by apply bool_decide_eq_true in Hin.
  - intros Hsub c Hc. apply list_elem_of_In, elem_of_range_set in Hc.
    apply bool_decide_eq_true. by apply Hsub.
Qed.

Lemma overlap_some (E C : gset Z) :
  (overlap E (range_set C)).2 = bool_decide (C ∩ E ≠ ∅).
Proof.
  unfold overlap. rewrite overlap_acc. simpl.
  apply eq_true_iff_eq. rewrite bool_decide_eq_true, existsb_exists. split.
  - intros (c & Hc & Hin). apply bool_decide_eq_true in Hin.
    apply list_elem_of_In, elem_of_range_set in Hc. set_solver.
  - intros Hne. apply set_choose_L in Hne as [c Hc].
    exists c. split.
    + apply list_elem_of_In, elem_of_range_set. set_solver.
    + apply bool_decide_eq_true. set_solver.
Qed.

(** [ExpectedState] is the classification of the keys against the
    expected set. *)
Lemma ExpectedState_three_way (probe : string) (exitCodes : Row) :
  ExpectedState probe exitCodes
  = three_way (expected_set probe) (key_codes exitCodes).
Proof.
  unfold ExpectedState, three_way. fold (expected_set probe).
  rewrite scanned_codes_range.
  set (E := expected_set probe). set (C := key_codes exitCodes).
  destruct (decide (size E = 0%nat)) as [HE|HE].
  - apply size_empty_iff, leibniz_equiv in HE. rewrite HE.
    repeat case_decide; try done; set_solver.
  - destruct (decide (size C = 0%nat)) as [HC|HC].
    + apply size_empty_iff, leibniz_equiv in HC.
      by rewrite decide_True.
    + rewrite decide_False by (intros ->; by rewrite size_empty in HC).
      pose proof (overlap_all E C) as Hall.
      pose proof (overlap_some E C) as Hsome.
      destruct (overlap E (range_set C)) as [a h]. simpl in *. subst a h.
      repeat case_bool_decide; repeat case_decide; done.
Qed.

(** C2, as amended: with E the expected-code set of the probe (empty when
    the probe is not in the table) and C the set of exit codes that are
    keys of the map, whatever count each key carries, [ExpectedState] is
    "unexpected" when C is empty, "expected" when C is not empty and
    within E, "mixed" when C meets E without being within it, and
    "unexpected" otherwise. *)
Theorem ExpectedState_by_keys (probe : string) (exitCodes : Row) :
  let E := expected_set probe in
  let C := key_codes exitCodes in
  (probeExpectedExitCodes !! probe = None → E = ∅)
  ∧ (C = ∅ → ExpectedState probe exitCodes = "unexpected")
  ∧ (C ≠ ∅ → C ⊆ E → ExpectedState probe exitCodes = "expected")
  ∧ (C ∩ E ≠ ∅ → ¬ C ⊆ E → ExpectedState probe exitCodes = "mixed")
  ∧ (C ≠ ∅ → C ∩ E = ∅ → ExpectedState probe exitCodes = "unexpected").
Proof.
  intros E C. rewrite ExpectedState_three_way. fold E C. unfold three_way.
  split; [|split; [|split; [|split]]].
  - unfold E, expected_set. by intros ->.
  - intros ->. by rewrite decide_True.
  - intros Hne Hsub. by rewrite decide_False, decide_True.
  - intros Hmeet Hsub.
    rewrite decide_False by (intros ->; set_solver).
    by rewrite decide_False, decide_True.
  - intros Hne Hdisj. rewrite decide_False by done.
    rewrite (decide_False (P := C ⊆ E)).
    + by rewrite decide_False by (by intros []).
    + intros Hsub. apply Hne. set_solver.
Qed.

End ExpectedStateFacts.

(** C2, as the specification words it, fails on a key whose count is
    zero: for the firewall probe, whose expected set is {1}, the map
    {"1": 0} holds no code with a non-zero occurrence, so the words give
    "unexpected", and the code answers "expected". *)
Lemma ExpectedState_ignores_counts :
  ¬ (∀ (rt : GoRuntime) (probe : string) (exitCodes : Row),
       ExpectedState probe exitCodes
       = three_way (expected_set probe) (nonzero_codes exitCodes)).
Proof.
  intros Hclaim.
  specialize (Hclaim forward_runtime "config.defaults_firewall_globalstate"
                {[ "1" := VFloat 0 ]}).
  vm_compute in Hclaim. discriminate.
Qed.

(** ** Dividing a float64 by 1000

    [durSec >= 1] after [durSec := durMs / 1000] is [durMs >= 1000]: the
    rounding of the quotient never carries a duration below 1000 up to 1,
    nor one at or above 1000 down below it.  The proof follows the
    division of the mantissas and the two shifts of the rounding. *)

Section FloatFacts.

Lemma Prim2SF_one : Prim2SF 1 = sf_one. Proof. vm_compute. reflexivity. Qed.
Lemma Prim2SF_thousand : Prim2SF 1000 = sf_thousand. Proof. vm_compute. reflexivity. Qed.

Lemma digits2_pos_size p : digits2_pos p = Pos.size p.
Proof. induction p; simpl; congruence. Qed.

Lemma digits2_bounds p : 2 ^ (Z.pos (digits2_pos p) - 1) <= Z.pos p < 2 ^ Z.pos (digits2_pos p).
Proof.
  rewrite digits2_pos_size. split.
  - pose proof (Pos.size_le p) as H.
    assert (Z.pos (2 ^ Pos.size p) <= Z.pos p~0) by exact H.
    rewrite Pos2Z.inj_pow in H0.
    replace (Z.pos (Pos.size p)) with ((Z.pos (Pos.size p) - 1) + 1) in H0 by lia.
    rewrite Z.pow_add_r in H0 by lia. lia.
  - pose proof (Pos.size_gt p) as H.
    assert (Z.pos p < Z.pos (2 ^ Pos.size p)) by exact H.
    rewrite Pos2Z.inj_pow in H0. exact H0.
Qed.

Lemma Zdigits2_le (q k : Z) : 0 <= q -> 0 <= k -> q < 2 ^ k -> Zdigits2 q <= k.
Proof.
  intros Hq Hk Hlt. destruct q as [|p|p]; simpl; [lia | | lia].
  pose proof (digits2_bounds p) as [Hlo _].
  destruct (Z_le_gt_dec (Z.pos (digits2_pos p)) k) as [|Hgt]; [assumption|].
  assert (2 ^ k <= 2 ^ (Z.pos (digits2_pos p) - 1)) by (apply Z.pow_le_mono_r; lia).
  lia.
Qed.

Lemma Zdigits2_ge (q k : Z) : 0 <= k -> 2 ^ k <= q -> k + 1 <= Zdigits2 q.
Proof.
  intros Hk Hle. assert (0 < 2 ^ k) by (apply Z.pow_pos_nonneg; lia).
  destruct q as [|p|p]; simpl; [lia | | lia].
  pose proof (digits2_bounds p) as [_ Hhi].
  destruct (Z_le_gt_dec (k + 1) (Z.pos (digits2_pos p))) as [|Hgt]; [assumption|].
  assert (2 ^ Z.pos (digits2_pos p) <= 2 ^ k) by (apply Z.pow_le_mono_r; lia).
  lia.
Qed.

Lemma Zdigits2_eq (q k : Z) : 0 <= k -> 2 ^ k <= q < 2 ^ (k + 1) -> Zdigits2 q = k + 1.
Proof.
  intros Hk [Hlo Hhi].
  pose proof (Zdigits2_ge q k Hk Hlo).
  assert (0 <= q) by (assert (0 < 2 ^ k) by (apply Z.pow_pos_nonneg; lia); lia).
  pose proof (Zdigits2_le q (k + 1) H0 ltac:(lia) Hhi). lia.
Qed.

Lemma fexp64_eq (k : Z) : fexp64 k = Z.max (k - 53) (-1074).
Proof. reflexivity. Qed.

Lemma shr_fexp_noshift (m e : Z) (l : location) :
  fexp64 (Zdigits2 m + e) <= e ->
  shr_fexp prec emax m e l = (shr_record_of_loc m l, e).
Proof.
  intros Hle. unfold shr_fexp, shr.
  destruct (fexp64 (Zdigits2 m + e) - e) eqn:Hn; try reflexivity. lia.
Qed.

Lemma shr_fexp_one (m e : Z) (l : location) :
  fexp64 (Zdigits2 m + e) = e + 1 ->
  shr_fexp prec emax m e l = (shr_1 (shr_record_of_loc m l), e + 1).
Proof.
  intros Heq. unfold shr_fexp, shr.
  replace (fexp64 (Zdigits2 m + e) - e) with 1 by lia. reflexivity.
Qed.

Lemma shr_m_of_loc (m : Z) (l : location) : shr_m (shr_record_of_loc m l) = m.
Proof. destruct l as [|[]]; reflexivity. Qed.

Lemma shr_m_shr_1 (r : shr_record) :
  0 <= shr_m r -> 2 * shr_m (shr_1 r) <= shr_m r <= 2 * shr_m (shr_1 r) + 1.
Proof.
  destruct r as [m b s]. simpl. intros Hm.
  destruct m as [|[p|p|]|p]; simpl; lia.
Qed.

Lemma round_nearest_even_bounds (m : Z) (l : location) :
  m <= round_nearest_even m l <= m + 1.
Proof. destruct l as [|[]]; simpl; try destruct (Z.even m); lia. Qed.

Lemma binary_round_aux_finish (sx : bool) (mx ex : Z) (lx : location) :
  binary_round_aux prec emax sx mx ex lx =
  let '(mrs, e) := shr_fexp prec emax mx ex lx in
  round_finish sx (round_nearest_even (shr_m mrs) (loc_of_shr_record mrs)) e.
Proof. reflexivity. Qed.

Lemma round_finish_negative (m e : Z) : SFleb sf_one (round_finish true m e) = false.
Proof.
  unfold round_finish. destruct (shr_fexp prec emax m e loc_Exact) as [mrs e'].
  destruct (shr_m mrs); try reflexivity. destruct (e' <=? emax - prec); reflexivity.
Qed.

Lemma SFleb_finite (a p : positive) (ea e : Z) :
  SFleb (S754_finite false a ea) (S754_finite false p e) =
  (ea <? e) || ((e =? ea) && (Z.pos a <=? Z.pos p)).
Proof.
  unfold SFleb, SFcompare.
  change (Pos.compare_cont Eq a p) with (Z.compare (Z.pos a) (Z.pos p)).
  destruct (Z.compare_spec ea e) as [Heq|Hlt|Hgt].
  - destruct (Z.ltb_spec ea e); [lia|]. destruct (Z.eqb_spec e ea); [|lia].
    destruct (Z.compare_spec (Z.pos a) (Z.pos p)) as [H1|H1|H1];
      destruct (Z.leb_spec (Z.pos a) (Z.pos p)); try reflexivity; lia.
  - destruct (Z.ltb_spec ea e); [reflexivity | lia].
  - destruct (Z.ltb_spec ea e); [lia|]. destruct (Z.eqb_spec e ea); [lia | reflexivity].
Qed.

Lemma SFleb_one_finite (p : positive) (e : Z) :
  SFleb sf_one (S754_finite false p e) =
  (-52 <? e) || ((e =? -52) && (4503599627370496 <=? Z.pos p)).
Proof. apply SFleb_finite. Qed.

Lemma round_finish_ge_one (m e : Z) :
  2 ^ 52 <= m <= 2 ^ 53 -> -52 <= e ->
  SFleb sf_one (round_finish false m e) = true.
Proof.
  intros [Hlo Hhi] He. unfold round_finish.
  destruct (Z.eq_dec m (2 ^ 53)) as [->|Hne].
  - rewrite shr_fexp_one by (rewrite fexp64_eq; change (Zdigits2 (2 ^ 53)) with 54; lia).
    change (shr_m (shr_1 (shr_record_of_loc (2 ^ 53) loc_Exact))) with (Z.pos 4503599627370496).
    cbv iota. destruct (e + 1 <=? emax - prec); [|reflexivity].
    rewrite SFleb_one_finite. destruct (Z.ltb_spec (-52) (e + 1)); [reflexivity | lia].
  - assert (Hd : Zdigits2 m = 53) by (apply (Zdigits2_eq m 52); lia).
    rewrite shr_fexp_noshift by (rewrite fexp64_eq, Hd; lia).
    rewrite shr_m_of_loc. destruct m as [|p|p]; try lia.
    destruct (e <=? emax - prec); [|reflexivity].
    rewrite SFleb_one_finite.
    destruct (Z.ltb_spec (-52) e); [reflexivity|].
    destruct (Z.eqb_spec e (-52)); [|lia].
    destruct (Z.leb_spec 4503599627370496 (Z.pos p)); [reflexivity | lia].
Qed.

Lemma round_finish_lt_one (m e : Z) :
  0 <= m <= 2 ^ 53 -> -1074 <= e <= -53 -> (m = 2 ^ 53 -> e <= -54) ->
  SFleb sf_one (round_finish false m e) = false.
Proof.
  intros [Hlo Hhi] He Hcarry. unfold round_finish.
  destruct (Z.eq_dec m (2 ^ 53)) as [->|Hne].
  - rewrite shr_fexp_one by (rewrite fexp64_eq; change (Zdigits2 (2 ^ 53)) with 54; lia).
    change (shr_m (shr_1 (shr_record_of_loc (2 ^ 53) loc_Exact))) with (Z.pos 4503599627370496).
    cbv iota. specialize (Hcarry eq_refl).
    change (emax - prec) with 971. destruct (Z.leb_spec (e + 1) 971); [|lia].
    rewrite SFleb_one_finite.
    destruct (Z.ltb_spec (-52) (e + 1)); [lia|].
    destruct (Z.eqb_spec (e + 1) (-52)); [lia | reflexivity].
  - assert (Hd : Zdigits2 m <= 53) by (apply Zdigits2_le; lia).
    rewrite shr_fexp_noshift by (rewrite fexp64_eq; lia).
    rewrite shr_m_of_loc. destruct m as [|p|p]; try lia; [reflexivity|].
    change (emax - prec) with 971. destruct (Z.leb_spec e 971); [|lia].
    rewrite SFleb_one_finite.
    destruct (Z.ltb_spec (-52) e); [lia|].
    destruct (Z.eqb_spec e (-52)); [lia | reflexivity].
Qed.

Lemma binary_round_aux_noshift (sx : bool) (q e : Z) (l : location) :
  fexp64 (Zdigits2 q + e) <= e ->
  exists m1, q <= m1 <= q + 1 /\
    binary_round_aux prec emax sx q e l = round_finish sx m1 e.
Proof.
  intros Hle. rewrite binary_round_aux_finish, shr_fexp_noshift by assumption.
  eexists. split; [|reflexivity].
  rewrite shr_m_of_loc. apply round_nearest_even_bounds.
Qed.

Lemma binary_round_aux_one (sx : bool) (q e : Z) (l : location) :
  0 <= q -> fexp64 (Zdigits2 q + e) = e + 1 ->
  exists h m1, 2 * h <= q <= 2 * h + 1 /\ h <= m1 <= h + 1 /\
    binary_round_aux prec emax sx q e l = round_finish sx m1 (e + 1).
Proof.
  intros Hq Heq. rewrite binary_round_aux_finish, shr_fexp_one by assumption.
  eexists _, _. split; [|split; [|reflexivity]].
  - pose proof (shr_m_shr_1 (shr_record_of_loc q l)) as H.
    rewrite shr_m_of_loc in H. apply H, Hq.
  - apply round_nearest_even_bounds.
Qed.

Lemma SFdiv_core_thousand (m : positive) (e : Z) :
  let e' := Z.min (fexp64 (Zdigits2 (Z.pos m) + e - 10)) (e + 43) in
  0 < e + 43 - e' ->
  exists l, SFdiv_core_binary prec emax (Z.pos m) e thousand_m (-43) =
            (Z.pos m * 2 ^ (e + 43 - e') / thousand_m, e', l).
Proof.
  intros e' Hs. unfold SFdiv_core_binary.
  change (Zdigits2 thousand_m) with 53.
  replace (Zdigits2 (Z.pos m) + e - (53 + -43)) with (Zdigits2 (Z.pos m) + e - 10) by lia.
  replace (e - -43) with (e + 43) by lia. fold e'.
  destruct (e + 43 - e') as [|s|s] eqn:Es; try lia.
  rewrite Z.shiftl_mul_pow2 by lia.
  unfold Z.div. destruct (Z.div_eucl (Z.pos m * 2 ^ Z.pos s) thousand_m) as [q r].
  eexists. reflexivity.
Qed.

Lemma SFdiv_thousand_finite (m : positive) (e : Z) :
  bounded prec emax m e = true ->
  SFleb sf_one (SFdiv prec emax (S754_finite false m e) sf_thousand) =
  SFleb sf_thousand (S754_finite false m e).
Proof.
  intros Hb. unfold bounded, canonical_mantissa in Hb.
  apply andb_prop in Hb as [Hc He].
  apply Z.eqb_eq in Hc. apply Z.leb_le in He. change (emax - prec) with 971 in He.
  rewrite fexp64_eq in Hc.
  pose proof (digits2_bounds m) as [Hlo Hhi].
  set (D := Z.pos (digits2_pos m)) in *.
  assert (HD : 1 <= D) by (unfold D; lia).
  assert (Hm53 : Z.pos m < 2 ^ 53).
  { assert (2 ^ D <= 2 ^ 53) by (apply Z.pow_le_mono_r; lia). lia. }
  unfold SFdiv, sf_thousand.
  destruct (SFdiv_core_thousand m e) as [l Hcore].
  { change (Zdigits2 (Z.pos m)) with D. rewrite fexp64_eq. lia. }
  change (Zdigits2 (Z.pos m)) with D in Hcore.
  change (Z.pos 8796093022208000) with thousand_m.
  rewrite Hcore. clear Hcore. cbv [xorb].
  rewrite fexp64_eq.
  set (e' := Z.min (Z.max (D + e - 10 - 53) (-1074)) (e + 43)).
  rewrite SFleb_finite. change (Z.pos 8796093022208000) with thousand_m.
  assert (Htm : thousand_m = 8796093022208000) by reflexivity.
  destruct (Z_lt_le_dec (D + e) (-1011)) as [Hsub|Hnorm].
  - (* the quotient is subnormal *)
    assert (He' : e' = -1074) by (unfold e'; lia).
    set (s := e + 43 - e').
    assert (Hs : 43 <= s <= 52) by (unfold s; lia).
    set (q := Z.pos m * 2 ^ s / thousand_m).
    assert (Hq : 0 <= q < 2 ^ 53).
    { split; [apply Z.div_pos; [apply Z.mul_nonneg_nonneg|]; lia|].
      apply Z.div_lt_upper_bound; [lia|].
      assert (2 ^ s <= 2 ^ 52) by (apply Z.pow_le_mono_r; lia).
      assert (Z.pos m * 2 ^ s <= Z.pos m * 2 ^ 52)
        by (apply Z.mul_le_mono_nonneg_l; lia).
      lia. }
    assert (Hdq : Zdigits2 q <= 53) by (apply Zdigits2_le; lia).
    destruct (binary_round_aux_noshift false q e' l) as (m1 & Hm1 & ->).
    { rewrite fexp64_eq. lia. }
    rewrite round_finish_lt_one by lia.
    destruct (Z.ltb_spec (-43) e); [lia|].
    destruct (Z.eqb_spec e (-43)); [lia | reflexivity].
  - (* normal dividend, normal quotient *)
    assert (HD53 : D = 53) by lia.
    rewrite HD53 in Hlo. change (2 ^ (53 - 1)) with (2 ^ 52) in Hlo.
    assert (He' : e' = e - 10) by (unfold e'; lia).
    replace (e + 43 - e') with 53 by lia.
    set (q := Z.pos m * 2 ^ 53 / thousand_m).
    assert (Hq1 : thousand_m * q <= Z.pos m * 2 ^ 53)
      by (apply Z.mul_div_le; lia).
    assert (Hq2 : Z.pos m * 2 ^ 53 < thousand_m * Z.succ q)
      by (apply Z.mul_succ_div_gt; lia).
    assert (Hq : 2 ^ 52 <= q < 2 ^ 54 - 2) by lia.
    destruct (Z_lt_le_dec q (2 ^ 53)) as [Hq53|Hq53].
    + assert (Hdq : Zdigits2 q = 53) by (apply (Zdigits2_eq q 52); lia).
      destruct (binary_round_aux_noshift false q e' l) as (m1 & Hm1 & ->).
      { rewrite fexp64_eq, Hdq. lia. }
      destruct (Z_le_gt_dec (-42) e) as [Hbig|Hsmall].
      * rewrite round_finish_ge_one by lia.
        destruct (Z.ltb_spec (-43) e); [reflexivity | lia].
      * rewrite round_finish_lt_one by lia.
        destruct (Z.ltb_spec (-43) e); [lia|].
        destruct (Z.eqb_spec e (-43)); [|reflexivity].
        destruct (Z.leb_spec thousand_m (Z.pos m)); [lia | reflexivity].
    + assert (Hdq : Zdigits2 q = 54) by (apply (Zdigits2_eq q 53); lia).
      destruct (binary_round_aux_one false q e' l) as (h & m1 & Hh & Hm1 & ->).
      { lia. } { rewrite fexp64_eq, Hdq. lia. }
      destruct (Z_le_gt_dec (-43) e) as [Hbig|Hsmall].
      * rewrite round_finish_ge_one by lia.
        destruct (Z.ltb_spec (-43) e); [reflexivity|].
        destruct (Z.eqb_spec e (-43)); [|lia].
        destruct (Z.leb_spec thousand_m (Z.pos m)); [reflexivity | lia].
      * rewrite round_finish_lt_one by lia.
        destruct (Z.ltb_spec (-43) e); [lia|].
        destruct (Z.eqb_spec e (-43)); [lia | reflexivity].
Qed.

Lemma SFdiv_thousand_negative (m : positive) (e : Z) :
  SFleb sf_one (SFdiv prec emax (S754_finite true m e) sf_thousand) = false.
Proof.
  unfold SFdiv, sf_thousand.
  destruct (SFdiv_core_binary prec emax (Z.pos m) e 8796093022208000 (-43)) as [[q e'] l].
  cbv [xorb]. rewrite binary_round_aux_finish.
  destruct (shr_fexp prec emax q e' l) as [mrs e1]. apply round_finish_negative.
Qed.

Lemma SFdiv_thousand_ge_one (x : spec_float) :
  valid_binary x = true ->
  SFleb sf_one (SFdiv prec emax x sf_thousand) = SFleb sf_thousand x.
Proof.
  destruct x as [s|s| |s m e]; intros Hv.
  - destruct s; reflexivity.
  - destruct s; reflexivity.
  - reflexivity.
  - destruct s.
    + rewrite SFdiv_thousand_negative. reflexivity.
    + apply SFdiv_thousand_finite, Hv.
Qed.

Lemma div_thousand_ge_one (d : float) :
  PrimFloat.leb 1 (d / 1000) = PrimFloat.leb 1000 d.
Proof.
  rewrite !leb_spec, div_spec, Prim2SF_one, Prim2SF_thousand.
  apply SFdiv_thousand_ge_one, Prim2SF_valid.
Qed.

End FloatFacts.

(** ** The span of a new probe *)

Section SpanFacts.

Import GoNum GoLib.
Context `{GoPrinter}.

Lemma append_assoc (a b c : string) : (a +:+ b) +:+ c = a +:+ (b +:+ c).
Proof.
  induction a as [|x a IH]; [done|].
  change (String x ((a +:+ b) +:+ c) = String x (a +:+ (b +:+ c))).
  by rewrite IH.
Qed.

Lemma append_nil_r (a : string) : a +:+ "" = a.
Proof.
  induction a as [|x a IH]; [done|].
  change (String x (a +:+ "") = String x a). by rewrite IH.
Qed.

(** Time stamps: nil and zero are "N/A", any other number is the UTC
    date and time of that many milliseconds. *)
Lemma fmtTsMs_number (v : value) (x : float) :
  v = VFloat x ∨ (∃ n, (v = VInt n ∨ v = VInt64 n) ∧ x = float_of_int n) →
  fmtTsMs v = if PrimFloat.eqb x 0 then "N/A" else format_unix_milli (int_of_float x).
Proof. intros [->|(n & [->| ->] & ->)]; reflexivity. Qed.

Lemma fmtTsMs_zero : fmtTsMs VNil = "N/A" ∧ fmtTsMs (VFloat 0) = "N/A" ∧ fmtTsMs (VInt 0) = "N/A".
Proof. repeat split; reflexivity. Qed.

(** C4, as amended: the span of a new probe is "single-shot" when the
    count is 1, whatever the duration; "tight burst" when the count is
    anything else (zero and below included) and the duration is 0;
    otherwise the first and last time stamps, nil or 0 printed as "N/A"
    and any other number as its UTC date and time, followed by the rate
    with two decimals exactly when the duration is at least 1000 ms and
    the rate is above 0. *)
Theorem SpanFormat_cases (count : Z) (durMs rate firstTs lastTs : value) :
  SpanFormat count durMs rate firstTs lastTs fmtTsMs
  = span_as_coded count durMs rate firstTs lastTs
  ∧ fmtTsMs VNil = "N/A"
  ∧ (∀ x, fmtTsMs (VFloat x)
          = if PrimFloat.eqb x 0 then "N/A" else format_unix_milli (int_of_float x)).
Proof.
  split; [|split; [reflexivity | intros x; reflexivity]].
  unfold SpanFormat, SpanLabel, span_as_coded, timestamp_span, rate_suffix.
  destruct (count =? 1); [reflexivity|].
  destruct (PrimFloat.eqb (toFloat64 durMs) 0); [reflexivity|].
  simpl. rewrite div_thousand_ge_one.
  destruct (PrimFloat.leb 1000 (toFloat64 durMs) && PrimFloat.ltb 0 (toFloat64 rate)).
  - reflexivity.
  - by rewrite append_nil_r.
Qed.

End SpanFacts.

(** C4, as the specification words it, fails for a count that is not
    above one: an item that carries neither a count nor a duration counts
    0 failures over 0 ms, which the words send to the time-stamp span
    and the code prints as a tight burst. *)
Lemma SpanFormat_tight_burst_without_count :
  ¬ (∀ (pr : GoPrinter) (count : Z) (durMs rate firstTs lastTs : value),
       SpanFormat count durMs rate firstTs lastTs fmtTsMs
       = span_as_specified count durMs rate firstTs lastTs).
Proof.
  intros Hclaim.
  specialize (Hclaim string_printer (toInt VNil) VNil VNil VNil VNil).
  vm_compute in Hclaim. discriminate.
Qed.

(** The same on a rendered line: a new probe whose item holds the probe
    name alone. *)
Example new_probe_without_count (rt : GoRuntime) (pr : GoPrinter) :
  formatProbeEntryNew "x" (Some {[ "probe" := VString "x" ]})
  = "  + x failed 0× (tight burst), exit_codes: {}".
Proof. reflexivity. Qed.

(** ** Output and sequencing *)

(** A computation that only adds to what is already printed. *)
Definition appends {A} (m : IO A) : Prop :=
  ∀ out, m out = ((m "").1, out +:+ (m "").2).

Section OutputFacts.

Import GoNum GoLib.
Context `{GoRuntime} `{GoPrinter}.

Lemma appends_ret {A} (x : A) : appends (mret x : IO A).
Proof. intros out. unfold mret, IO_ret. simpl. by rewrite append_nil_r. Qed.

Lemma appends_Print (s : string) : appends (Print s).
Proof. intros out. reflexivity. Qed.

Lemma appends_Println (s : string) : appends (Println s).
Proof. intros out. reflexivity. Qed.

Lemma appends_bind {A B} (m : IO A) (f : A → IO B) :
  appends m → (∀ x, appends (f x)) → appends (m ≫= f).
Proof.
  intros Hm Hf out. unfold mbind, IO_bind.
  rewrite (Hm out). destruct (m "") as [x w] eqn:Hx. simpl.
  rewrite (Hf x (out +:+ w)), (Hf x w).
  destruct (f x "") as [y w']. simpl.
  by rewrite append_assoc.
Qed.

Lemma appends_for_each {A} (l : list A) (body : A → IO unit) :
  (∀ x, appends (body x)) → appends (for_each l body).
Proof.
  intros Hbody. induction l as [|x l IH]; simpl.
  - apply appends_ret.
  - apply appends_bind; [apply Hbody | intros _; apply IH].
Qed.

(** What a sequence prints is what its first part prints, then what the
    rest prints. *)
Lemma run_bind {A B} (m : IO A) (f : A → IO B) :
  (∀ x, appends (f x)) →
  run_IO (m ≫= f)
  = ((run_IO (f (run_IO m).1)).1, (run_IO m).2 +:+ (run_IO (f (run_IO m).1)).2).
Proof.
  intros Hf. unfold run_IO, mbind, IO_bind.
  destruct (m "") as [x w]. simpl.
  rewrite (Hf x w). reflexivity.
Qed.

Ltac solve_appends :=
  repeat first
    [ apply appends_ret
    | apply appends_Println
    | apply appends_Print
    | apply appends_for_each; intros ?
    | apply appends_bind; [|intros ?]
    | match goal with
      | |- appends (if ?b then _ else _) => destruct b
      | |- appends (match ?x with _ => _ end) => destruct x
      end ].

Lemma appends_emitStorageDelta b c : appends (emitStorageDelta b c).
Proof. unfold emitStorageDelta. solve_appends. Qed.

Lemma appends_emitCountDelta b c : appends (emitCountDelta b c).
Proof. unfold emitCountDelta. solve_appends. Qed.

Lemma appends_emitSecurityConfigDelta b c : appends (emitSecurityConfigDelta b c).
Proof. unfold emitSecurityConfigDelta. solve_appends. Qed.

Lemma appends_emitHomebrewDelta b c : appends (emitHomebrewDelta b c).
Proof. unfold emitHomebrewDelta. solve_appends. Qed.

Lemma appends_emitNewWarnings codes : appends (emitNewWarnings codes).
Proof. unfold emitNewWarnings. solve_appends. Qed.

Lemma appends_emitProbeFailuresDelta b c : appends (emitProbeFailuresDelta b c).
Proof. unfold emitProbeFailuresDelta. solve_appends. Qed.

(** The section of the probe failures: without an entry it is the header,
    the line "No changes detected" and an empty line, and reports no
    delta; with an entry it reports one. *)
Lemma emitProbeFailuresDelta_result (basePF currPF : option Row) :
  (run_IO (emitProbeFailuresDelta basePF currPF)).1
  = negb (length (buildProbeFailureEntries basePF currPF) =? 0)%nat.
Proof.
  unfold emitProbeFailuresDelta.
  rewrite run_bind by (intros ?; solve_appends). cbn [fst].
  destruct (length (buildProbeFailureEntries basePF currPF) =? 0)%nat.
  - reflexivity.
  - rewrite run_bind by (intros ?; solve_appends). reflexivity.
Qed.

Lemma emitProbeFailuresDelta_empty (basePF currPF : option Row) :
  buildProbeFailureEntries basePF currPF = [] →
  run_IO (emitProbeFailuresDelta basePF currPF)
  = (false, "## Probe failures delta" +:+ nl +:+ "  No changes detected" +:+ nl +:+ nl).
Proof. intros Hnone. unfold emitProbeFailuresDelta. rewrite Hnone. reflexivity. Qed.

(** C8: [Run] calls the emitters in the order storage, counts, security
    configuration, Homebrew, new warnings, probe failures, so that its
    output is theirs in that order; it returns the disjunction of their
    results, and prints "No changes detected between baseline and
    current." last exactly when that disjunction is false.  When the
    probe failures have no entry, their section is its header followed by
    the line "No changes detected", and it reports no delta. *)
Theorem Run_sequence (baselineRows currentRows : list Row) :
  let baseByType := GroupByType baselineRows in
  let currByType := GroupByType currentRows in
  let storage :=
    run_IO (emitStorageDelta (baseByType !! "summary") (currByType !! "summary")) in
  let counts :=
    run_IO (emitCountDelta (baseByType !! "counts") (currByType !! "counts")) in
  let security :=
    run_IO (emitSecurityConfigDelta (baseByType !! "security_config")
              (currByType !! "security_config")) in
  let homebrew :=
    run_IO (emitHomebrewDelta (baseByType !! "homebrew_summary")
              (currByType !! "homebrew_summary")) in
  let warnings :=
    run_IO (emitNewWarnings
              (filter (λ c, c ∉ CollectWarningCodes baselineRows)
                 (range_set (CollectWarningCodes currentRows)))) in
  let entries :=
    buildProbeFailureEntries (baseByType !! "probe_failures_summary")
      (currByType !! "probe_failures_summary") in
  let probes :=
    run_IO (emitProbeFailuresDelta (baseByType !! "probe_failures_summary")
              (currByType !! "probe_failures_summary")) in
  let hasDeltas :=
    storage.1 || counts.1 || security.1 || homebrew.1 || warnings.1 || probes.1 in
  run_IO (Run baselineRows currentRows)
  = (hasDeltas,
     storage.2 +:+ counts.2 +:+ security.2 +:+ homebrew.2 +:+ warnings.2 +:+ probes.2
       +:+ (if hasDeltas then ""
            else "No changes detected between baseline and current." +:+ nl))
  ∧ (entries = [] →
     probes = (false, "## Probe failures delta" +:+ nl +:+ "  No changes detected"
                        +:+ nl +:+ nl)).
Proof.
  intros baseByType currByType storage counts security homebrew warnings entries
    probes hasDeltas.
  split; [|apply emitProbeFailuresDelta_empty].
  unfold Run.
  pose proof appends_emitCountDelta. pose proof appends_emitSecurityConfigDelta.
  pose proof appends_emitHomebrewDelta. pose proof appends_emitNewWarnings.
  pose proof appends_emitProbeFailuresDelta.
  do 7 (rewrite run_bind by (intros ?; solve_appends; auto)).
  fold baseByType currByType. fold storage counts security homebrew warnings probes.
  subst hasDeltas.
  destruct (storage.1), (counts.1), (security.1), (homebrew.1), (warnings.1),
    (probes.1); reflexivity.
Qed.

End OutputFacts.

(** ** Malformed records *)

Section CoercionFacts.

Import GoNum GoLib.
Context `{GoRuntime} `{GoPrinter}.

Lemma index_items_skip (before : list value) (it : value) (after : list value) :
  is_probe_item it = false →
  index_items (before ++ it :: after) = index_items (before ++ after).
Proof.
  intros Hit. unfold index_items. rewrite !foldl_app. simpl.
  destruct it as [| | | | | |l|row]; try reflexivity.
  simpl in Hit. destruct (get row "probe"); try reflexivity. discriminate.
Qed.

Lemma GroupByType_skip (before : list Row) (row : Row) (after : list Row) :
  has_type row = false →
  GroupByType (before ++ row :: after) = GroupByType (before ++ after).
Proof.
  intros Hrow. unfold GroupByType. rewrite !foldl_app. simpl.
  unfold has_type in Hrow.
  destruct (get row "type") as [| | | | |t| |]; try reflexivity.
  destruct (String.eqb t ""); [reflexivity | discriminate].
Qed.

End CoercionFacts.

(** ** The reader *)

Section ReaderFacts.

Import GoNum GoLib.
Variable Open : string → source.
Variable Unmarshal : string → Row + string.

(** One turn of the loop on a line that can be read. *)
Lemma read_loop_step path readErr l lines lineNo rows :
  readable Unmarshal l = true →
  read_loop Unmarshal path readErr (l :: lines) lineNo rows
  = read_loop Unmarshal path readErr lines (lineNo + 1)
      (rows ++ records Unmarshal [l]).
Proof.
  unfold readable, fits, records, record_of, blank, decode.
  cbn [read_loop omap list_omap].
  destruct (too_long maxLineSize l); [done|].
  destruct (String.eqb (TrimSpace (token l)) "").
  - intros _. by rewrite app_nil_r.
  - destruct (Unmarshal (TrimSpace (token l))); [done|discriminate].
Qed.

Lemma records_cons l lines :
  records Unmarshal (l :: lines) = records Unmarshal [l] ++ records Unmarshal lines.
Proof. unfold records. cbn [omap list_omap]. by destruct (record_of Unmarshal l). Qed.

(** The loop over readable lines followed by more lines. *)
Lemma read_loop_app path readErr before rest lineNo rows :
  Forall (λ l, readable Unmarshal l = true) before →
  read_loop Unmarshal path readErr (before ++ rest) lineNo rows
  = read_loop Unmarshal path readErr rest (lineNo + Z.of_nat (length before))
      (rows ++ records Unmarshal before).
Proof.
  intros Hall. revert lineNo rows.
  induction Hall as [|l before Hl _ IH]; intros lineNo rows.
  - cbn [app length]. by rewrite Z.add_0_r, app_nil_r.
  - cbn [app length]. rewrite read_loop_step, IH by done.
    rewrite (records_cons l before), app_assoc. f_equal. lia.
Qed.

(** Lines that can all be read are all read: the rows grow by their
    records, and the loop ends on the error of the reads, if any. *)
Lemma read_loop_readable path readErr lines lineNo rows :
  Forall (λ l, readable Unmarshal l = true) lines →
  read_loop Unmarshal path readErr lines lineNo rows
  = match readErr with
    | Some err => ([], Some ("read " +:+ path +:+ ": " +:+ err))
    | None => (rows ++ records Unmarshal lines, None)
    end.
Proof.
  intros Hall. rewrite <- (app_nil_r lines) at 1.
  by rewrite read_loop_app.
Qed.

(** The loop never returns rows next to an error. *)
Lemma read_loop_all_or_nothing path readErr lines lineNo rows :
  (read_loop Unmarshal path readErr lines lineNo rows).2 ≠ None →
  (read_loop Unmarshal path readErr lines lineNo rows).1 = [].
Proof.
  revert lineNo rows.
  induction lines as [|l lines IH]; intros lineNo rows; cbn [read_loop].
  - by destruct readErr.
  - destruct (too_long maxLineSize l); [done|].
    destruct (String.eqb (TrimSpace (token l)) ""); [apply IH|].
    destruct (Unmarshal (TrimSpace (token l))); [apply IH | done].
Qed.

(** A reading without error has read every line. *)
Lemma read_loop_success path readErr lines lineNo rows :
  (read_loop Unmarshal path readErr lines lineNo rows).2 = None →
  readErr = None ∧ Forall (λ l, readable Unmarshal l = true) lines.
Proof.
  revert lineNo rows.
  induction lines as [|l lines IH]; intros lineNo rows; cbn [read_loop].
  - destruct readErr; [done|]. by split.
  - destruct (too_long maxLineSize l) eqn:Hlong; [done|].
    destruct (String.eqb (TrimSpace (token l)) "") eqn:Hblank.
    + intros Hok. apply IH in Hok as [-> Hall]. split; [done|].
      constructor; [|done].
      unfold readable, fits, blank. by rewrite Hlong, Hblank.
    + destruct (Unmarshal (TrimSpace (token l))) eqn:Hdec; [|done].
      intros Hok. apply IH in Hok as [-> Hall]. split; [done|].
      constructor; [|done].
      unfold readable, fits, blank, decode. by rewrite Hlong, Hblank, Hdec.
Qed.

(** Readable lines have one record for each line that is not blank. *)
Lemma records_length lines :
  Forall (λ l, readable Unmarshal l = true) lines →
  length (records Unmarshal lines) = length (filter (λ l, blank l = false) lines).
Proof.
  induction 1 as [|l lines Hl _ IH]; [done|].
  rewrite records_cons, length_app, IH, filter_cons.
  unfold records, record_of, readable in *. cbn [omap list_omap].
  apply andb_true_iff in Hl as [_ Hl].
  destruct (blank l); cbn [orb] in Hl.
  - by rewrite decide_False.
  - rewrite decide_True by done.
    by destruct (decode Unmarshal l).
Qed.

(** C7: [ReadNDJSON] returns the rows or an error, never both.  Without
    an error every line of the stream was read, and the rows are the
    records of the lines that are not blank, one for each, in the order
    of the file.  A line that fits, is not blank and does not decode,
    after lines that could all be read, ends the reading with an error
    that cites its number, counted from 1 over all lines, blank ones
    included.  A line at or beyond the maximum size, after lines that
    could all be read, ends the reading with the scanner's error, as does
    an error of the reads; a failing open is an error too. *)
Theorem ReadNDJSON_all_or_nothing (path : string) :
  ((ReadNDJSON Open Unmarshal path).2 ≠ None → (ReadNDJSON Open Unmarshal path).1 = [])
  ∧ match Open path with
    | OpenFails err =>
        ReadNDJSON Open Unmarshal path = ([], Some ("open " +:+ path +:+ ": " +:+ err))
    | Opened data readErr =>
        let lines := physical_lines data in
        ((ReadNDJSON Open Unmarshal path).2 = None →
           readErr = None
           ∧ Forall (λ l, readable Unmarshal l = true) lines
           ∧ (ReadNDJSON Open Unmarshal path).1 = records Unmarshal lines
           ∧ length (records Unmarshal lines)
             = length (filter (λ l, blank l = false) lines))
        ∧ (readErr = None → Forall (λ l, readable Unmarshal l = true) lines →
           ReadNDJSON Open Unmarshal path = (records Unmarshal lines, None))
        ∧ (∀ before l after msg,
             lines = before ++ l :: after →
             Forall (λ l, readable Unmarshal l = true) before →
             fits l = true → blank l = false → decode Unmarshal l = inr msg →
             ReadNDJSON Open Unmarshal path
             = ([], Some ("invalid JSON at line "
                            +:+ Itoa (1 + Z.of_nat (length before)) +:+ ": "
                            +:+ first_line msg)))
        ∧ (∀ before l after,
             lines = before ++ l :: after →
             Forall (λ l, readable Unmarshal l = true) before →
             fits l = false →
             ReadNDJSON Open Unmarshal path
             = ([], Some ("read " +:+ path +:+ ": " +:+ ErrTooLong)))
        ∧ (∀ err, readErr = Some err → (ReadNDJSON Open Unmarshal path).2 ≠ None)
    end.
Proof.
  unfold ReadNDJSON. split.
  - destruct (Open path) as [err|data readErr]; [done|].
    apply read_loop_all_or_nothing.
  - destruct (Open path) as [err|data readErr]; [done|].
    split; [|split; [|split; [|split]]].
    + intros Hok. pose proof (read_loop_success _ _ _ _ _ Hok) as [-> Hall].
      split; [done|]. split; [done|].
      rewrite read_loop_readable by done. split; [done|].
      by apply records_length.
    + intros -> Hall. by rewrite read_loop_readable.
    + intros before l after msg Hlines Hbefore Hfit Hblank Hdec.
      rewrite Hlines, read_loop_app by done.
      cbn [read_loop]. unfold fits in Hfit. apply negb_true_iff in Hfit.
      rewrite Hfit. unfold blank in Hblank. rewrite Hblank.
      unfold decode in Hdec. by rewrite Hdec.
    + intros before l after Hlines Hbefore Hfit.
      rewrite Hlines, read_loop_app by done.
      cbn [read_loop]. unfold fits in Hfit. apply negb_false_iff in Hfit.
      by rewrite Hfit.
    + intros err -> Hok. by apply read_loop_success in Hok as [? _].
Qed.

End ReaderFacts.

(** ** Sorting is independent of the order it starts from *)

Section OrderFacts.

Import GoNum GoLib.

Lemma ltb_false_leb (a b : string) : String.ltb b a = false ↔ String.le a b.
Proof.
  unfold String.le, String.ltb, String.leb.
  rewrite (String.compare_antisym b a).
  destruct (String.compare a b); simpl; split; done.
Qed.

Lemma lex_not_after (rank : string → Z) (a b : string) :
  not_after (lex_less rank) a b
  ↔ rank a < rank b ∨ (rank a = rank b ∧ String.le a b).
Proof.
  unfold not_after, lex_less.
  destruct (rank b =? rank a) eqn:Hr; simpl.
  - apply Z.eqb_eq in Hr. rewrite ltb_false_leb. split.
    + intros Hle. right. by split.
    + intros [Hlt|[_ Hle]]; [lia | done].
  - apply Z.eqb_neq in Hr. rewrite Z.ltb_ge. split.
    + intros Hle. left. lia.
    + intros [Hlt|[Heq _]]; lia.
Qed.

#[local] Instance lex_not_after_trans rank : Transitive (not_after (lex_less rank)).
Proof.
  intros a b c. rewrite !lex_not_after.
  intros [Hab|[Hab Hab']] [Hbc|[Hbc Hbc']]; try (left; lia).
  right. split; [lia|]. by etrans.
Qed.

#[local] Instance lex_not_after_total rank : Total (not_after (lex_less rank)).
Proof.
  intros a b. rewrite !lex_not_after.
  destruct (Z.lt_trichotomy (rank a) (rank b)) as [?|[?|?]]; [by left; left| |by right; left].
  destruct (total String.le a b); [left|right]; right; by split.
Qed.

#[local] Instance lex_not_after_antisymm rank : AntiSymm (=) (not_after (lex_less rank)).
Proof.
  intros a b. rewrite !lex_not_after.
  intros [?|[? Hab]] [?|[? Hba]]; try lia.
  by apply (anti_symm String.le).
Qed.

(** A sort by a total order gives one result for every arrangement of
    its input. *)
Lemma merge_sort_perm {A} (R : relation A) `{∀ x y, Decision (R x y)}
    `{!Transitive R, !Total R, !AntiSymm (=) R} (l1 l2 : list A) :
  l1 ≡ₚ l2 → merge_sort R l1 = merge_sort R l2.
Proof.
  intros Hperm. apply (StronglySorted_unique R).
  - by apply StronglySorted_merge_sort.
  - by apply StronglySorted_merge_sort.
  - by rewrite !merge_sort_Permutation.
Qed.

Lemma sort_Slice_lex_perm (less : string → string → bool) (rank : string → Z)
    (l1 l2 : list string) :
  (∀ a b, less a b = lex_less rank a b) →
  l1 ≡ₚ l2 → sort_Slice less l1 = sort_Slice less l2.
Proof.
  intros Hless Hperm. unfold sort_Slice.
  assert (Transitive (not_after less)).
  { intros a b c. unfold not_after. rewrite !Hless. apply lex_not_after_trans. }
  assert (Total (not_after less)).
  { intros a b. unfold not_after. rewrite !Hless. apply lex_not_after_total. }
  assert (AntiSymm (=) (not_after less)).
  { intros a b. unfold not_after. rewrite !Hless. apply lex_not_after_antisymm. }
  by apply merge_sort_perm.
Qed.

Lemma sort_Ints_perm (l1 l2 : list Z) : l1 ≡ₚ l2 → sort_Ints l1 = sort_Ints l2.
Proof. apply (merge_sort_perm Z.le). Qed.

Lemma sort_Strings_perm (l1 l2 : list string) :
  l1 ≡ₚ l2 → sort_Strings l1 = sort_Strings l2.
Proof. apply (merge_sort_perm String.le). Qed.

Lemma probe_less_lex (status : string) (p q : string) :
  probe_less status p q
  = lex_less (λ p, default 2 (SeverityOrder !! ProbeSeverity p)) p q.
Proof.
  unfold probe_less, probeSortKey, lex_less.
  rewrite Z.eqb_refl. simpl. reflexivity.
Qed.

Lemma topic_less_lex (a b : string) : topic_less a b = lex_less topicSortKey a b.
Proof. reflexivity. Qed.

End OrderFacts.

(** ** What does not depend on the iteration order *)

Section TopicFacts.

Import GoNum GoLib.

Lemma first_prefix_Some table probe x :
  first_prefix table probe = Some x →
  ∃ pre, (pre, x) ∈ table ∧ HasPrefix probe pre = true.
Proof.
  induction table as [|[pre y] table IH]; simpl; [done|].
  destruct (HasPrefix probe pre) eqn:Hpre.
  - intros [= ->]. exists pre. split; [left | done].
  - intros Hx. destruct (IH Hx) as (pre' & Hin & Hpre').
    exists pre'. split; [by right | done].
Qed.

Lemma first_prefix_None table probe pre x :
  first_prefix table probe = None → (pre, x) ∈ table → HasPrefix probe pre = false.
Proof.
  induction table as [|[pre' y] table IH]; simpl.
  - intros _ Hin. by apply elem_of_nil in Hin.
  - destruct (HasPrefix probe pre') eqn:Hpre; [done|].
    intros Hnone [[= -> ->]|Hin]%elem_of_cons; [done | by apply IH].
Qed.

(** A table in which the prefixes that start a probe all name one value
    can be searched in any order. *)
Lemma first_prefix_perm table1 table2 probe :
  table1 ≡ₚ table2 →
  (∀ pre1 x1 pre2 x2,
      (pre1, x1) ∈ table1 → (pre2, x2) ∈ table1 →
      HasPrefix probe pre1 = true → HasPrefix probe pre2 = true → x1 = x2) →
  first_prefix table1 probe = first_prefix table2 probe.
Proof.
  intros Hperm Hone.
  destruct (first_prefix table1 probe) as [x|] eqn:H1,
           (first_prefix table2 probe) as [y|] eqn:H2; [| | |done].
  - apply first_prefix_Some in H1 as (pre1 & Hin1 & Hpre1).
    apply first_prefix_Some in H2 as (pre2 & Hin2 & Hpre2).
    rewrite <- Hperm in Hin2. f_equal. by eapply Hone.
  - apply first_prefix_Some in H1 as (pre1 & Hin1 & Hpre1).
    rewrite Hperm in Hin1.
    by rewrite (first_prefix_None _ _ _ _ H2 Hin1) in Hpre1.
  - apply first_prefix_Some in H2 as (pre2 & Hin2 & Hpre2).
    rewrite <- Hperm in Hin2.
    by rewrite (first_prefix_None _ _ _ _ H1 Hin2) in Hpre2.
Qed.

Lemma HasPrefix_head c pre ch probe :
  HasPrefix (String ch probe) (String c pre) = true → c = ch.
Proof. unfold HasPrefix. simpl. by destruct (ascii_dec c ch). Qed.

Lemma HasPrefix_nonempty c pre : HasPrefix "" (String c pre) = false.
Proof. reflexivity. Qed.

(** The prefixes of the topic table start with six different letters: no
    probe has two of them. *)
Lemma probeTopic_one_match probe pre1 x1 pre2 x2 :
  (pre1, x1) ∈ map_to_list probeTopic → (pre2, x2) ∈ map_to_list probeTopic →
  HasPrefix probe pre1 = true → HasPrefix probe pre2 = true → x1 = x2.
Proof.
  assert (map_to_list probeTopic
          = [ ("storage.", "Storage"); ("config.", "Security");
              ("execution.", "Execution"); ("identity.", "Identity");
              ("network.", "Network"); ("persistence.", "Persistence") ]) as ->
    by (vm_compute; reflexivity).
  intros H1 H2 Hp1 Hp2.
  destruct probe as [|ch probe].
  { repeat (apply elem_of_cons in H1 as [[= -> ->]|H1]; [discriminate|]).
    by apply elem_of_nil in H1. }
  repeat (apply elem_of_cons in H1 as [[= -> ->]|H1];
          [apply HasPrefix_head in Hp1 as <-|]);
    [..|by apply elem_of_nil in H1];
    (repeat (apply elem_of_cons in H2 as [[= -> ->]|H2];
             [first [reflexivity | by apply HasPrefix_head in Hp2]|]);
     by apply elem_of_nil in H2).
Qed.

(** [ProbeTopic] ranges over a map, and gives the same topic in whatever
    order the prefixes come. *)
Lemma ProbeTopic_any_order (rt1 rt2 : GoRuntime) (probe : string) :
  @ProbeTopic rt1 probe = @ProbeTopic rt2 probe.
Proof.
  unfold ProbeTopic.
  rewrite (first_prefix_perm (@range_map rt1 _ _ _ _ probeTopic)
             (@range_map rt2 _ _ _ _ probeTopic) probe); [done| |].
  - by rewrite !range_map_perm.
  - intros pre1 x1 pre2 x2 Hin1 Hin2.
    rewrite range_map_perm in Hin1, Hin2. by apply probeTopic_one_match.
Qed.

(** The topic of a probe is that of the first prefix that starts it in
    the order in which the table is declared, and "Other" without one, in
    whatever order the map is visited. *)
Theorem ProbeTopic_declared_order (rt : GoRuntime) (probe : string) :
  ProbeTopic probe
  = default "Other"
      (first_prefix
         [ ("config.", "Security"); ("network.", "Network");
           ("identity.", "Identity"); ("storage.", "Storage");
           ("execution.", "Execution"); ("persistence.", "Persistence") ] probe).
Proof.
  unfold ProbeTopic.
  rewrite (first_prefix_perm (range_map probeTopic)
             [ ("config.", "Security"); ("network.", "Network");
               ("identity.", "Identity"); ("storage.", "Storage");
               ("execution.", "Execution"); ("persistence.", "Persistence") ] probe).
  - by destruct (first_prefix _ probe).
  - rewrite range_map_perm.
    assert (map_to_list probeTopic
            = [ ("storage.", "Storage"); ("config.", "Security");
                ("execution.", "Execution"); ("identity.", "Identity");
                ("network.", "Network"); ("persistence.", "Persistence") ]) as ->
      by (vm_compute; reflexivity).
    apply NoDup_Permutation.
    + apply (bool_decide_unpack _). vm_compute. exact I.
    + apply (bool_decide_unpack _). vm_compute. exact I.
    + intros e. rewrite !elem_of_cons, !elem_of_nil. tauto.
  - intros pre1 x1 pre2 x2 Hin1 Hin2.
    rewrite range_map_perm in Hin1, Hin2. by apply probeTopic_one_match.
Qed.

End TopicFacts.

Section ExitCodeFacts.

Import GoNum GoLib.

Lemma ExpectedState_order_free (rt1 rt2 : GoRuntime) probe (ec : Row) :
  @ExpectedState rt1 probe ec = @ExpectedState rt2 probe ec.
Proof. by rewrite !ExpectedState_three_way. Qed.

Lemma ExpectedSuffix_order_free (rt1 rt2 : GoRuntime) probe (ec : Row) :
  @ExpectedSuffix rt1 probe ec = @ExpectedSuffix rt2 probe ec.
Proof. unfold ExpectedSuffix. by rewrite (ExpectedState_order_free rt1 rt2). Qed.

Lemma forallb_perm {A} (f : A → bool) (l1 l2 : list A) :
  l1 ≡ₚ l2 → forallb f l1 = forallb f l2.
Proof.
  intros Hperm. apply eq_true_iff_eq. rewrite !forallb_forall.
  by setoid_rewrite <- list_elem_of_In; setoid_rewrite Hperm.
Qed.

Lemma mapsEqual_order_free (rt1 rt2 : GoRuntime) (a b : gmap Z Z) :
  @mapsEqual rt1 a b = @mapsEqual rt2 a b.
Proof.
  unfold mapsEqual. destruct (negb (size a =? size b)%nat); [done|].
  apply forallb_perm. by rewrite !range_map_perm.
Qed.

(** *** The delta of two exit-code maps *)

Context `{GoRuntime}.

Lemma foldl_union_singletons (keys : list string) (acc : gset string) :
  foldl (λ acc k, {[ k ]} ∪ acc) acc keys = list_to_set keys ∪ acc.
Proof.
  revert acc. induction keys as [|k keys IH]; intros acc; simpl.
  - set_solver.
  - rewrite IH. set_solver.
Qed.

Lemma foldl_insert_lookup {V} (g : string → V) (l : list string)
    (acc : gmap string V) (c : string) :
  foldl (λ d c, <[ c := g c ]> d) acc l !! c
  = if decide (c ∈ l) then Some (g c) else acc !! c.
Proof.
  revert acc. induction l as [|x l IH]; intros acc; cbn [foldl].
  - destruct (decide (c ∈ [])) as [Hin|_]; [by apply elem_of_nil in Hin | done].
  - rewrite IH.
    destruct (decide (c ∈ l)) as [Hin|Hin], (decide (c ∈ x :: l)) as [Hin'|Hin'];
      try done.
    + destruct Hin'. by right.
    + apply elem_of_cons in Hin' as [->|?]; [|done]. by rewrite lookup_insert_eq.
    + rewrite lookup_insert_ne; [done|]. intros ->. apply Hin'. by left.
Qed.

(** The delta has an entry for every key of either map: the count of the
    current map less that of the baseline, a key that is absent counting
    0; and it has no other entry. *)
Lemma exitCodesDelta_lookup (baseEC currEC : Row) (c : string) :
  exitCodesDelta baseEC currEC !! c
  = if decide (is_Some (baseEC !! c) ∨ is_Some (currEC !! c))
    then Some (wrap_int (toInt (get currEC c) - toInt (get baseEC c)))
    else None.
Proof.
  unfold exitCodesDelta.
  rewrite (foldl_insert_lookup
             (λ c, wrap_int (toInt (get currEC c) - toInt (get baseEC c)))).
  rewrite !foldl_union_singletons.
  assert (c ∈ range_set (list_to_set (range_keys currEC)
                           ∪ (list_to_set (range_keys baseEC) ∪ (∅ : gset string)))
          ↔ is_Some (baseEC !! c) ∨ is_Some (currEC !! c)) as Hin.
  { rewrite elem_of_range_set, !elem_of_union, !elem_of_list_to_set,
      !elem_of_range_keys. set_solver. }
  destruct (decide (is_Some (baseEC !! c) ∨ is_Some (currEC !! c))) as [Hc|Hc].
  - rewrite decide_True; [done | by apply Hin].
  - rewrite decide_False; [done | by rewrite Hin].
Qed.

End ExitCodeFacts.

Lemma exitCodesDelta_order_free (rt1 rt2 : GoRuntime) (baseEC currEC : Row) :
  @exitCodesDelta rt1 baseEC currEC = @exitCodesDelta rt2 baseEC currEC.
Proof. apply map_eq. intros c. by rewrite !exitCodesDelta_lookup. Qed.

Section NormFacts.

Import GoNum GoLib.

Lemma normExitCodes_fold `{GoRuntime} (ec : Row) :
  normExitCodes ec = foldl norm_step ∅ (range_map ec).
Proof.
  unfold normExitCodes. generalize (∅ : gmap Z Z).
  induction (range_map ec) as [|[k v] l IH]; intros acc; cbn [foldl]; [done|].
  by rewrite IH.
Qed.

(** An entry of the normalized map comes from a key that scans as its
    code. *)
Lemma norm_fold_sound (l : list (string * value)) (acc : gmap Z Z) kk z :
  foldl norm_step acc l !! kk = Some z →
  (∃ k v, (k, v) ∈ l ∧ Sscanf_d k = Some kk ∧ toInt v = z) ∨ acc !! kk = Some z.
Proof.
  revert acc. induction l as [|[k v] l IH]; intros acc; cbn [foldl]; [by right|].
  intros Hz. apply IH in Hz as [(k' & v' & Hin & Hk & Hv)|Hz].
  - left. exists k', v'. split; [by right | done].
  - unfold norm_step in Hz. cbn [fst snd] in Hz.
    destruct (Sscanf_d k) as [c|] eqn:Hk; [|by right].
    destruct (decide (c = kk)) as [->|Hne].
    + rewrite lookup_insert_eq in Hz. injection Hz as <-.
      left. exists k, v. split; [by left | done].
    + rewrite lookup_insert_ne in Hz by done. by right.
Qed.

(** When the keys that scan alike carry the same count, every key that
    scans gives its code that count. *)
Lemma norm_fold_complete (l : list (string * value)) (acc : gmap Z Z) k v kk :
  (∀ k1 v1 k2 v2, (k1, v1) ∈ l → (k2, v2) ∈ l →
     Sscanf_d k1 = Some kk → Sscanf_d k2 = Some kk → toInt v1 = toInt v2) →
  (k, v) ∈ l → Sscanf_d k = Some kk →
  foldl norm_step acc l !! kk = Some (toInt v).
Proof.
  revert acc k v. induction l as [|[k0 v0] l IH] using rev_ind;
    intros acc k v Hagree Hin Hk.
  - by apply elem_of_nil in Hin.
  - rewrite foldl_app. cbn [foldl]. unfold norm_step at 1. cbn [fst snd].
    destruct (Sscanf_d k0) as [c|] eqn:Hk0.
    + destruct (decide (c = kk)) as [->|Hne].
      * rewrite lookup_insert_eq. f_equal.
        apply (Hagree k0 v0 k v); try done.
        apply elem_of_app. right. by left.
      * rewrite lookup_insert_ne by done.
        apply elem_of_app in Hin as [Hin|Hin].
        -- apply (IH _ k v); try done. intros k1 v1 k2 v2 H1 H2.
           apply Hagree; apply elem_of_app; by left.
        -- apply list_elem_of_singleton in Hin as [= -> ->]. congruence.
    + apply elem_of_app in Hin as [Hin|Hin].
      * apply (IH _ k v); try done. intros k1 v1 k2 v2 H1 H2.
        apply Hagree; apply elem_of_app; by left.
      * apply list_elem_of_singleton in Hin as [= -> ->]. congruence.
Qed.

Lemma codes_agree_spec (ec : Row) k1 v1 k2 v2 kk :
  codes_agree ec = true →
  (k1, v1) ∈ map_to_list ec → (k2, v2) ∈ map_to_list ec →
  Sscanf_d k1 = Some kk → Sscanf_d k2 = Some kk → toInt v1 = toInt v2.
Proof.
  unfold codes_agree. rewrite forallb_forall.
  intros Hall H1 H2 Hk1 Hk2.
  apply list_elem_of_In, Hall in H1. cbn beta iota in H1.
  rewrite forallb_forall in H1.
  apply list_elem_of_In, H1 in H2. cbn beta iota in H2.
  rewrite Hk1, Hk2, Z.eqb_refl in H2. simpl in H2. by apply Z.eqb_eq.
Qed.

Lemma normExitCodes_order_free (rt1 rt2 : GoRuntime) (ec : Row) :
  codes_agree ec = true →
  @normExitCodes rt1 ec = @normExitCodes rt2 ec.
Proof.
  intros Hagree. rewrite !normExitCodes_fold.
  assert (∀ (ra rb : GoRuntime) kk z,
            foldl norm_step ∅ (@range_map ra _ _ _ _ ec) !! kk = Some z →
            foldl norm_step ∅ (@range_map rb _ _ _ _ ec) !! kk = Some z) as Hstep.
  { intros ra rb kk z Hz.
    apply norm_fold_sound in Hz as [(k & v & Hin & Hk & <-)|Hz]; [|done].
    rewrite (@range_map_perm ra) in Hin.
    apply norm_fold_complete with (k := k); [|by rewrite (@range_map_perm rb)|done].
    intros k1 v1 k2 v2 H1 H2. rewrite (@range_map_perm rb) in H1, H2.
    by apply (codes_agree_spec ec). }
  apply map_eq. intros kk. apply option_eq. intros z. split; apply Hstep.
Qed.

(** The normalized map of an agreeing exit-code map: the count of every
    code that some key scans as. *)
Lemma normExitCodes_lookup `{GoRuntime} (ec : Row) kk z :
  codes_agree ec = true →
  normExitCodes ec !! kk = Some z
  ↔ ∃ k v, ec !! k = Some v ∧ Sscanf_d k = Some kk ∧ toInt v = z.
Proof.
  intros Hagree. rewrite normExitCodes_fold. split.
  - intros Hz. apply norm_fold_sound in Hz as [(k & v & Hin & Hk & Hv)|Hz]; [|done].
    exists k, v. rewrite range_map_perm in Hin.
    by apply elem_of_map_to_list in Hin.
  - intros (k & v & Hin & Hk & <-).
    apply norm_fold_complete with (k := k); [| |done].
    + intros k1 v1 k2 v2 H1 H2. rewrite range_map_perm in H1, H2.
      by apply (codes_agree_spec ec).
    + rewrite range_map_perm. by apply elem_of_map_to_list.
Qed.

Lemma probeFailureIsChanged_order_free (rt1 rt2 : GoRuntime) probe
    (baseIt currIt : option Row) :
  codes_agree (getMap baseIt "exit_codes") = true →
  codes_agree (getMap currIt "exit_codes") = true →
  @probeFailureIsChanged rt1 probe baseIt currIt
  = @probeFailureIsChanged rt2 probe baseIt currIt.
Proof.
  intros Hb Hc. unfold probeFailureIsChanged.
  destruct baseIt as [b|], currIt as [c|]; try done.
  rewrite (normExitCodes_order_free rt1 rt2 _ Hb),
    (normExitCodes_order_free rt1 rt2 _ Hc),
    (mapsEqual_order_free rt1 rt2),
    !(ExpectedState_order_free rt1 rt2).
  done.
Qed.

End NormFacts.

Section EntryFacts.

Import GoNum GoLib.

Lemma index_items_elem_acc (items : list value) (acc : gmap string Row) p row :
  foldl (λ probes it,
           match it with
           | VMap row =>
               match get row "probe" with
               | VString p => <[ p := row ]> probes
               | _ => probes
               end
           | _ => probes
           end) acc items !! p = Some row →
  VMap row ∈ items ∨ acc !! p = Some row.
Proof.
  revert acc. induction items as [|it items IH]; intros acc; cbn [foldl]; [by right|].
  intros Hp. apply IH in Hp as [Hin|Hp]; [left; by right|].
  destruct it as [| | | | | | |r]; try by right.
  destruct (get r "probe") as [| | | | |q| |]; try by right.
  destruct (decide (q = p)) as [->|Hne].
  - rewrite lookup_insert_eq in Hp. injection Hp as ->. left. by left.
  - rewrite lookup_insert_ne in Hp by done. by right.
Qed.

(** A row of the index is one of the items. *)
Lemma index_items_elem (items : list value) p row :
  index_items items !! p = Some row → VMap row ∈ items.
Proof.
  intros Hp. apply index_items_elem_acc in Hp as [?|Hp]; [done|].
  by rewrite lookup_empty in Hp.
Qed.

Lemma items_agree_elem (items : list value) (row : Row) :
  items_agree items = true → VMap row ∈ items →
  codes_agree (getMap (Some row) "exit_codes") = true.
Proof.
  unfold items_agree. rewrite forallb_forall. intros Hall Hin.
  by apply list_elem_of_In, Hall in Hin.
Qed.

Lemma filter_ext_elem {A} (P1 P2 : A → Prop)
    `{∀ x, Decision (P1 x)} `{∀ x, Decision (P2 x)} (l : list A) :
  (∀ x, x ∈ l → P1 x ↔ P2 x) → filter P1 l = filter P2 l.
Proof.
  induction l as [|x l IH]; intros Hiff; [done|].
  rewrite !filter_cons, IH by (intros y Hy; apply Hiff; by right).
  destruct (decide (P1 x)) as [H1|H1], (decide (P2 x)) as [H2|H2]; try done.
  - destruct H2. apply Hiff; [by left | done].
  - destruct H1. apply Hiff; [by left | done].
Qed.

(** The entries of the diff do not depend on the iteration order when the
    exit codes of the items agree. *)
Lemma buildProbeFailureEntries_order_free (rt1 rt2 : GoRuntime)
    (basePF currPF : option Row) :
  items_agree (getSlice basePF "items") = true →
  items_agree (getSlice currPF "items") = true →
  @buildProbeFailureEntries rt1 basePF currPF
  = @buildProbeFailureEntries rt2 basePF currPF.
Proof.
  intros Hbase Hcurr. unfold buildProbeFailureEntries.
  set (baseProbes := index_items (getSlice basePF "items")).
  set (currProbes := index_items (getSlice currPF "items")).
  unfold sortProbes.
  assert (sort_Slice (probe_less "new")
            (filter (λ p, baseProbes !! p = None) (@range_keys rt1 _ _ _ _ currProbes))
          = sort_Slice (probe_less "new")
              (filter (λ p, baseProbes !! p = None) (@range_keys rt2 _ _ _ _ currProbes)))
    as ->.
  { apply (sort_Slice_lex_perm _ _ _ _ (probe_less_lex _)).
    by rewrite (@range_keys_perm rt1), (@range_keys_perm rt2). }
  assert (sort_Slice (probe_less "resolved")
            (filter (λ p, currProbes !! p = None) (@range_keys rt1 _ _ _ _ baseProbes))
          = sort_Slice (probe_less "resolved")
              (filter (λ p, currProbes !! p = None) (@range_keys rt2 _ _ _ _ baseProbes)))
    as ->.
  { apply (sort_Slice_lex_perm _ _ _ _ (probe_less_lex _)).
    by rewrite (@range_keys_perm rt1), (@range_keys_perm rt2). }
  assert (sort_Slice (probe_less "changed")
            (filter (λ p, is_Some (currProbes !! p)
                          ∧ @probeFailureIsChanged rt1 p (baseProbes !! p)
                              (currProbes !! p) = true)
               (@range_keys rt1 _ _ _ _ baseProbes))
          = sort_Slice (probe_less "changed")
              (filter (λ p, is_Some (currProbes !! p)
                            ∧ @probeFailureIsChanged rt2 p (baseProbes !! p)
                                (currProbes !! p) = true)
                 (@range_keys rt2 _ _ _ _ baseProbes)))
    as ->; [|done].
  apply (sort_Slice_lex_perm _ _ _ _ (probe_less_lex _)).
  rewrite (filter_ext_elem _
             (λ p, is_Some (currProbes !! p)
                   ∧ @probeFailureIsChanged rt2 p (baseProbes !! p)
                       (currProbes !! p) = true)).
  - by rewrite (@range_keys_perm rt1), (@range_keys_perm rt2).
  - intros p Hp. apply (@elem_of_range_keys rt1) in Hp as [b Hb].
    assert (∀ c, currProbes !! p = Some c →
                 @probeFailureIsChanged rt1 p (baseProbes !! p) (currProbes !! p)
                 = @probeFailureIsChanged rt2 p (baseProbes !! p) (currProbes !! p))
      as Heq.
    { intros c Hc. rewrite Hb, Hc.
      apply probeFailureIsChanged_order_free.
      - apply (items_agree_elem (getSlice basePF "items")); [done|].
        by apply (index_items_elem _ p).
      - apply (items_agree_elem (getSlice currPF "items")); [done|].
        by apply (index_items_elem _ p). }
    split; intros [[c Hc] Hch]; (split; [by exists c|]).
    + by rewrite <- (Heq c Hc).
    + by rewrite (Heq c Hc).
Qed.

Lemma formatExitCodes_order_free (rt1 rt2 : GoRuntime) (ec : Row) :
  @formatExitCodes rt1 ec = @formatExitCodes rt2 ec.
Proof.
  unfold formatExitCodes. destruct (size ec =? 0)%nat; [done|].
  rewrite (sort_Ints_perm (scanned_keys (@range_keys rt1 _ _ _ _ ec))
             (scanned_keys (@range_keys rt2 _ _ _ _ ec))); [done|].
  unfold scanned_keys.
  by rewrite (@range_keys_perm rt1), (@range_keys_perm rt2).
Qed.

Lemma formatExitCodesDelta_order_free (rt1 rt2 : GoRuntime) (delta : gmap string Z) :
  @formatExitCodesDelta rt1 delta = @formatExitCodesDelta rt2 delta.
Proof.
  unfold formatExitCodesDelta.
  rewrite (sort_Ints_perm (scanned_keys (@range_keys rt1 _ _ _ _ delta))
             (scanned_keys (@range_keys rt2 _ _ _ _ delta))); [done|].
  unfold scanned_keys.
  by rewrite (@range_keys_perm rt1), (@range_keys_perm rt2).
Qed.

Context `{GoPrinter}.

Lemma format_entry_order_free (rt1 rt2 : GoRuntime) (e : probeEntry) :
  @format_entry rt1 _ e = @format_entry rt2 _ e.
Proof.
  unfold format_entry, formatProbeEntryNew, formatProbeEntryResolved,
    formatProbeEntryChanged.
  rewrite !(ExpectedSuffix_order_free rt1 rt2), !(formatExitCodes_order_free rt1 rt2),
    (exitCodesDelta_order_free rt1 rt2), (formatExitCodesDelta_order_free rt1 rt2).
  done.
Qed.

Lemma group_by_topic_order_free (rt1 rt2 : GoRuntime) (entries : list probeEntry) :
  @group_by_topic rt1 entries = @group_by_topic rt2 entries.
Proof.
  unfold group_by_topic. generalize (∅ : gmap string (list probeEntry)).
  induction entries as [|e entries IH]; intros acc; cbn [foldl]; [done|].
  by rewrite IH, (ProbeTopic_any_order rt1 rt2).
Qed.

Lemma io_eq_refl {A} (m : IO A) : io_eq m m.
Proof. by intros out. Qed.

Lemma io_eq_bind {A B} (m1 m2 : IO A) (f1 f2 : A → IO B) :
  io_eq m1 m2 → (∀ x, io_eq (f1 x) (f2 x)) → io_eq (m1 ≫= f1) (m2 ≫= f2).
Proof.
  intros Hm Hf out. unfold mbind, IO_bind. rewrite (Hm out).
  destruct (m2 out) as [x out']. apply Hf.
Qed.

Lemma io_eq_for_each {A} (l : list A) (body1 body2 : A → IO unit) :
  (∀ x, io_eq (body1 x) (body2 x)) → io_eq (for_each l body1) (for_each l body2).
Proof.
  intros Hbody. induction l as [|x l IH]; [apply io_eq_refl|].
  cbn [for_each]. apply io_eq_bind; [apply Hbody | intros _; apply IH].
Qed.

Lemma emitProbeFailuresDelta_order_free (rt1 rt2 : GoRuntime)
    (basePF currPF : option Row) :
  items_agree (getSlice basePF "items") = true →
  items_agree (getSlice currPF "items") = true →
  io_eq (@emitProbeFailuresDelta rt1 _ basePF currPF)
        (@emitProbeFailuresDelta rt2 _ basePF currPF).
Proof.
  intros Hbase Hcurr. unfold emitProbeFailuresDelta.
  rewrite (buildProbeFailureEntries_order_free rt1 rt2) by done.
  rewrite (group_by_topic_order_free rt1 rt2).
  rewrite (sort_Slice_lex_perm topic_less topicSortKey
             (@range_keys rt1 _ _ _ _ _) (@range_keys rt2 _ _ _ _ _) topic_less_lex)
    by (by rewrite (@range_keys_perm rt1), (@range_keys_perm rt2)).
  apply io_eq_bind; [apply io_eq_refl|]. intros _.
  destruct (length _ =? 0)%nat; [apply io_eq_refl|].
  apply io_eq_bind; [|intros _; apply io_eq_refl].
  apply io_eq_for_each. intros topic.
  apply io_eq_bind; [apply io_eq_refl|]. intros _.
  apply io_eq_for_each. intros e.
  rewrite (format_entry_order_free rt1 rt2). apply io_eq_refl.
Qed.

Lemma emitNewWarnings_perm (codes1 codes2 : list string) :
  codes1 ≡ₚ codes2 → emitNewWarnings codes1 = emitNewWarnings codes2.
Proof.
  intros Hperm. unfold emitNewWarnings.
  by rewrite (Permutation_length Hperm), (sort_Strings_perm _ _ Hperm).
Qed.

Lemma GroupByType_elem_acc (rows : list Row) (acc : gmap string Row) t row :
  foldl (λ byType row,
           match get row "type" with
           | VString t => if negb (String.eqb t "") then <[ t := row ]> byType else byType
           | _ => byType
           end) acc rows !! t = Some row →
  row ∈ rows ∨ acc !! t = Some row.
Proof.
  revert acc. induction rows as [|r rows IH]; intros acc; cbn [foldl]; [by right|].
  intros Ht. apply IH in Ht as [Hin|Ht]; [left; by right|].
  destruct (get r "type") as [| | | | |q| |]; try by right.
  destruct (negb (String.eqb q "")); [|by right].
  destruct (decide (q = t)) as [->|Hne].
  - rewrite lookup_insert_eq in Ht. injection Ht as ->. left. by left.
  - rewrite lookup_insert_ne in Ht by done. by right.
Qed.

(** A row of the type index is a row of the stream. *)
Lemma GroupByType_elem (rows : list Row) t row :
  GroupByType rows !! t = Some row → row ∈ rows.
Proof.
  intros Ht. apply GroupByType_elem_acc in Ht as [?|Ht]; [done|].
  by rewrite lookup_empty in Ht.
Qed.

Lemma rows_agree_summary (rows : list Row) t :
  rows_agree rows = true →
  items_agree (getSlice (GroupByType rows !! t) "items") = true.
Proof.
  intros Hall. destruct (GroupByType rows !! t) as [row|] eqn:Ht; [|done].
  apply GroupByType_elem in Ht. unfold rows_agree in Hall.
  rewrite forallb_forall in Hall. by apply list_elem_of_In, Hall in Ht.
Qed.

(** [Run] under two iteration orders, from any state of the output. *)
Lemma Run_any_order (rt1 rt2 : GoRuntime) (baselineRows currentRows : list Row) :
  rows_agree baselineRows = true → rows_agree currentRows = true →
  io_eq (@Run rt1 _ baselineRows currentRows) (@Run rt2 _ baselineRows currentRows).
Proof.
  intros Hbase Hcurr. unfold Run.
  rewrite (emitNewWarnings_perm
             (filter _ (@range_set rt1 _ _ _ (CollectWarningCodes currentRows)))
             (filter (λ c, c ∉ CollectWarningCodes baselineRows)
                (@range_set rt2 _ _ _ (CollectWarningCodes currentRows))))
    by (by rewrite (@range_set_perm rt1), (@range_set_perm rt2)).
  do 5 (apply io_eq_bind; [apply io_eq_refl|]; intros ?).
  apply io_eq_bind; [|intros ?; apply io_eq_refl].
  apply emitProbeFailuresDelta_order_free; by apply rows_agree_summary.
Qed.

(** Two runs that differ in the order their maps are visited print the
    same report and return the same result, provided no exit-code map of
    an item has two keys that scan as one code with different counts. *)
Theorem Run_order_free (rt1 rt2 : GoRuntime) (baselineRows currentRows : list Row) :
  rows_agree baselineRows = true → rows_agree currentRows = true →
  run_IO (@Run rt1 _ baselineRows currentRows)
  = run_IO (@Run rt2 _ baselineRows currentRows).
Proof.
  intros Hbase Hcurr. unfold run_IO. by apply Run_any_order.
Qed.

End EntryFacts.

(** ** Where the code parts from the specification *)

Section Divergences.

Import GoNum GoLib.
Context (rt : GoRuntime) (pr : GoPrinter).

(** C1: the code misses a changed probe.  The baseline saw probe x fail 5
    times, with a key for exit code 1 that counts 0; the current
    snapshot counts 5 failures under exit code 2.  The counts are equal
    and so are the expected states, and the distributions differ (code 2
    occurs 0 and 5 times), so the probe is changed; [mapsEqual] looks up
    the baseline's code 1 in the current map, reads the 0 of a missing
    key, and calls the maps equal: the probe gets no entry, and the
    section prints "No changes detected". *)
Theorem changed_probe_without_entry :
  let baseIt := probe_item "x" 5 {[ "1" := VFloat 0 ]} in
  let currIt := probe_item "x" 5 {[ "2" := VFloat 5 ]} in
  let basePF := Some (probe_summary [ baseIt ]) in
  let currPF := Some (probe_summary [ currIt ]) in
  changed_as_specified "x" baseIt currIt
  ∧ probeFailureIsChanged "x" (Some baseIt) (Some currIt) = false
  ∧ buildProbeFailureEntries basePF currPF = []
  ∧ run_IO (emitProbeFailuresDelta basePF currPF)
    = (false, "## Probe failures delta" +:+ nl +:+ "  No changes detected" +:+ nl +:+ nl).
Proof.
  intros baseIt currIt basePF currPF.
  assert (buildProbeFailureEntries basePF currPF = []) as Hnone.
  { rewrite (buildProbeFailureEntries_order_free rt forward_runtime) by reflexivity.
    vm_compute. reflexivity. }
  split; [|split; [|split]].
  - right. left. exists 2. unfold changed_as_specified.
    rewrite !(normExitCodes_order_free rt forward_runtime) by reflexivity.
    vm_compute. discriminate.
  - rewrite (probeFailureIsChanged_order_free rt forward_runtime) by reflexivity.
    vm_compute. reflexivity.
  - exact Hnone.
  - by apply emitProbeFailuresDelta_empty.
Qed.

(** C1, the other way round: a probe that the specification calls
    unchanged gets an entry.  Both snapshots count 5 failures of probe x
    under exit code 1; the baseline also has a key for exit code 2 that
    counts 0.  A missing code counting 0, no code occurs a different
    number of times; the maps differ in size, and the code prints the
    probe as changed. *)
Lemma unchanged_probe_with_entry :
  let baseIt := probe_item "x" 5 (list_to_map [ ("1", VFloat 5); ("2", VFloat 0) ]) in
  let currIt := probe_item "x" 5 {[ "1" := VFloat 5 ]} in
  let basePF := Some (probe_summary [ baseIt ]) in
  let currPF := Some (probe_summary [ currIt ]) in
  ¬ changed_as_specified "x" baseIt currIt
  ∧ probeFailureIsChanged "x" (Some baseIt) (Some currIt) = true
  ∧ run_IO (emitProbeFailuresDelta basePF currPF)
    = (true, "## Probe failures delta" +:+ nl +:+ nl +:+ "### Other" +:+ nl
               +:+ "  ~ x 5×→5×" +:+ nl +:+ nl).
Proof.
  intros baseIt currIt basePF currPF. split; [|split].
  - unfold changed_as_specified.
    rewrite !(ExpectedState_order_free rt forward_runtime).
    rewrite !(normExitCodes_order_free rt forward_runtime) by reflexivity.
    assert (@normExitCodes forward_runtime (getMap (Some baseIt) "exit_codes")
            = <[ 1 := 5 ]> (<[ 2 := 0 ]> ∅)) as -> by (vm_compute; reflexivity).
    assert (@normExitCodes forward_runtime (getMap (Some currIt) "exit_codes")
            = <[ 1 := 5 ]> ∅) as -> by (vm_compute; reflexivity).
    intros [Hcount|[[code Hcode]|Hstate]].
    + by vm_compute in Hcount.
    + apply Hcode. unfold occurrences.
      destruct (decide (code = 1)) as [->|H1]; [by rewrite !lookup_insert_eq|].
      rewrite !(lookup_insert_ne _ 1) by done.
      destruct (decide (code = 2)) as [->|H2]; [by rewrite lookup_insert_eq|].
      by rewrite lookup_insert_ne.
    + by vm_compute in Hstate.
  - rewrite (probeFailureIsChanged_order_free rt forward_runtime) by reflexivity.
    vm_compute. reflexivity.
  - unfold run_IO.
    rewrite (emitProbeFailuresDelta_order_free rt forward_runtime) by reflexivity.
    vm_compute. reflexivity.
Qed.

(** C3: the entries of a topic are not in the order of the sort key.  A
    probe of high severity that is resolved and one of medium severity
    that is new, both of topic Network: the key puts the high one first,
    and the section prints the new one first, because each status is
    sorted on its own and the three lists are then put one after the
    other. *)
Theorem topic_entries_not_in_key_order :
  let resolved := probe_item "network.defaults_read" 1 {[ "1" := VFloat 1 ]} in
  let new := probe_item "network.ifconfig_list" 1 {[ "1" := VFloat 1 ]} in
  let basePF := Some (probe_summary [ resolved ]) in
  let currPF := Some (probe_summary [ new ]) in
  let entries := buildProbeFailureEntries basePF currPF in
  group_by_topic entries !! "Network" = Some entries
  ∧ entry_key <$> entries
    = [ (1, 0, "network.ifconfig_list"); (0, 1, "network.defaults_read") ]
  ∧ ¬ Sorted key_le (entry_key <$> entries)
  ∧ run_IO (emitProbeFailuresDelta basePF currPF)
    = (true,
       "## Probe failures delta" +:+ nl +:+ nl +:+ "### Network" +:+ nl
         +:+ "  + network.ifconfig_list failed 1× (single-shot), exit_codes: {1:1}" +:+ nl
         +:+ "  - network.defaults_read resolved (was 1×, exit_codes: {1:1})" +:+ nl
         +:+ nl).
Proof.
  intros resolved new basePF currPF entries.
  assert (entry_key <$> entries
          = [ (1, 0, "network.ifconfig_list"); (0, 1, "network.defaults_read") ])
    as Hkeys.
  { subst entries.
    rewrite (buildProbeFailureEntries_order_free rt forward_runtime) by reflexivity.
    vm_compute. reflexivity. }
  split; [|split; [|split]].
  - subst entries.
    rewrite (group_by_topic_order_free rt forward_runtime).
    rewrite (buildProbeFailureEntries_order_free rt forward_runtime) by reflexivity.
    vm_compute. reflexivity.
  - exact Hkeys.
  - rewrite Hkeys. intros Hsorted.
    apply Sorted_inv in Hsorted as [_ Hhd].
    apply HdRel_inv in Hhd. simpl in Hhd. lia.
  - unfold run_IO.
    rewrite (emitProbeFailuresDelta_order_free rt forward_runtime) by reflexivity.
    vm_compute. reflexivity.
Qed.

End Divergences.

(** C6: a storage field that shrank is printed without its sign.  The
    home directory went from 2048 to 1024 bytes: the delta is -1024, its
    humanized text is that of 1024, and [emitStorageDelta] puts a sign
    before it only when the delta is not negative.  The percentage keeps
    its sign, and a count that shrinks is printed with its sign by
    [emitCountDelta], whose format does it. *)
Theorem storage_delta_without_minus_sign :
  run_IO (emitStorageDelta (Some {[ "home_bytes" := VFloat 2048 ]})
            (Some {[ "home_bytes" := VFloat 1024 ]}))
  = (true, "## Storage delta" +:+ nl +:+ "  home: 2.0K → 1.0K (1.0K, -50.0%)" +:+ nl +:+ nl)
  ∧ run_IO (emitStorageDelta (Some {[ "home_bytes" := VFloat 1024 ]})
              (Some {[ "home_bytes" := VFloat 2048 ]}))
    = (true, "## Storage delta" +:+ nl +:+ "  home: 1.0K → 2.0K (+1.0K, +100.0%)" +:+ nl
               +:+ nl)
  ∧ run_IO (emitCountDelta (Some {[ "git_repos" := VFloat 5 ]})
              (Some {[ "git_repos" := VFloat 3 ]}))
    = (true, "## Count changes" +:+ nl +:+ "  git_repos: 5 → 3 (-2)" +:+ nl +:+ nl).
Proof. repeat split; vm_compute; reflexivity. Qed.

(** C9: two runs on the same input print different reports.  The baseline
    counts the 7 failures of probe x under the key "1" and has a second
    key, "01", that counts 0; the current snapshot has the key "1" alone.
    Both keys scan as exit code 1, and [normExitCodes] keeps the count of
    the one it visits last: a run that visits "01" last sees code 1 go
    from 0 to 7 and reports a change, a run that visits "1" last sees no
    change. *)
Theorem Run_depends_on_iteration_order :
  let baseline :=
    [ probe_summary
        [ probe_item "x" 7 (list_to_map [ ("1", VFloat 7); ("01", VFloat 0) ]) ] ] in
  let current := [ probe_summary [ probe_item "x" 7 {[ "1" := VFloat 7 ]} ] ] in
  rows_agree baseline = false
  ∧ run_IO (@Run forward_runtime string_printer baseline current)
    = (true, "## Probe failures delta" +:+ nl +:+ nl +:+ "### Other" +:+ nl
               +:+ "  ~ x 7×→7×" +:+ nl +:+ nl)
  ∧ run_IO (@Run backward_runtime string_printer baseline current)
    = (false, "## Probe failures delta" +:+ nl +:+ "  No changes detected" +:+ nl +:+ nl
                +:+ "No changes detected between baseline and current." +:+ nl).
Proof. repeat split; vm_compute; reflexivity. Qed.

(** ** Changed probes, when every exit code has occurred *)

Section ChangedFacts.

Import GoNum GoLib.
Context `{GoRuntime}.

Lemma mapsEqual_true (a b : gmap Z Z) :
  mapsEqual a b = true
  ↔ size a = size b ∧ ∀ k v, a !! k = Some v → default 0 (b !! k) = v.
Proof.
  unfold mapsEqual. destruct (size a =? size b)%nat eqn:Hsize; simpl.
  - apply Nat.eqb_eq in Hsize. rewrite forallb_forall. split.
    + intros Hall. split; [done|]. intros k v Hk.
      assert (In (k, v) (range_map a)) as Hin.
      { apply list_elem_of_In. rewrite range_map_perm. by apply elem_of_map_to_list. }
      apply Hall in Hin. by apply Z.eqb_eq in Hin.
    + intros [_ Hall] [k v] Hin. apply Z.eqb_eq, Hall.
      apply list_elem_of_In in Hin. rewrite range_map_perm in Hin.
      by apply elem_of_map_to_list in Hin.
  - apply Nat.eqb_neq in Hsize. split; [done | by intros [? _]].
Qed.

(** On maps without a zero count, [mapsEqual] is equality. *)
Lemma mapsEqual_eq (a b : gmap Z Z) :
  (∀ k v, a !! k = Some v → v ≠ 0) →
  mapsEqual a b = true ↔ a = b.
Proof.
  intros Ha. rewrite mapsEqual_true. split.
  - intros [Hsize Hall]. apply map_subseteq_size_eq; [|lia].
    apply map_subseteq_spec. intros k v Hk.
    specialize (Hall k v Hk). specialize (Ha k v Hk).
    destruct (b !! k) as [w|]; simpl in Hall; by subst.
  - intros <-. split; [done|]. intros k v ->. done.
Qed.

Lemma distributions_differ_neq (a b : gmap Z Z) :
  (∀ k v, a !! k = Some v → v ≠ 0) → (∀ k v, b !! k = Some v → v ≠ 0) →
  distributions_differ a b ↔ a ≠ b.
Proof.
  intros Ha Hb. split.
  - intros [code Hcode] <-. done.
  - intros Hne.
    destruct (decide (Exists (λ k, occurrences a k ≠ occurrences b k)
                        (elements (dom a ∪ dom b)))) as [Hex|Hnone].
    + apply Exists_exists in Hex as (code & _ & Hcode). by exists code.
    + destruct Hne. apply map_eq. intros k.
      destruct (decide (k ∈ dom a ∪ dom b)) as [Hk|Hk].
      * assert (occurrences a k = occurrences b k) as Hocc.
        { destruct (decide (occurrences a k = occurrences b k)) as [|Hd]; [done|].
          destruct Hnone. apply Exists_exists. exists k.
          split; [by apply elem_of_elements | done]. }
        unfold occurrences in Hocc.
        destruct (a !! k) as [v|] eqn:Hak, (b !! k) as [w|] eqn:Hbk;
          simpl in Hocc; subst; try done.
        -- by destruct (Ha k 0 Hak).
        -- by destruct (Hb k 0 Hbk).
      * apply not_elem_of_union in Hk as [Hka Hkb].
        apply not_elem_of_dom in Hka, Hkb. by rewrite Hka, Hkb.
Qed.

Lemma normExitCodes_nonzero (ec : Row) k v :
  codes_agree ec = true → counts_nonzero ec = true →
  normExitCodes ec !! k = Some v → v ≠ 0.
Proof.
  intros Hagree Hnz Hk. apply normExitCodes_lookup in Hk as (key & w & Hkey & Hscan & <-);
    [|done].
  unfold counts_nonzero in Hnz. rewrite forallb_forall in Hnz.
  assert (In (key, w) (map_to_list ec)) as Hin
    by (by apply list_elem_of_In, elem_of_map_to_list).
  apply Hnz in Hin. cbn beta iota in Hin. rewrite Hscan in Hin.
  apply negb_true_iff, Z.eqb_neq in Hin. done.
Qed.

(** The code and the specification agree on what a changed probe is, for
    items whose exit codes have all occurred and can be told apart. *)
Lemma probeFailureIsChanged_spec (probe : string) (baseIt currIt : Row) :
  codes_agree (getMap (Some baseIt) "exit_codes") = true →
  codes_agree (getMap (Some currIt) "exit_codes") = true →
  counts_nonzero (getMap (Some baseIt) "exit_codes") = true →
  counts_nonzero (getMap (Some currIt) "exit_codes") = true →
  probeFailureIsChanged probe (Some baseIt) (Some currIt) = true
  ↔ changed_as_specified probe baseIt currIt.
Proof.
  intros Hab Hac Hnb Hnc. unfold probeFailureIsChanged, changed_as_specified.
  set (a := normExitCodes (getMap (Some baseIt) "exit_codes")).
  set (b := normExitCodes (getMap (Some currIt) "exit_codes")).
  assert (∀ k v, a !! k = Some v → v ≠ 0) as Ha
    by (intros k v; by apply normExitCodes_nonzero).
  assert (∀ k v, b !! k = Some v → v ≠ 0) as Hb
    by (intros k v; by apply normExitCodes_nonzero).
  rewrite (distributions_differ_neq a b Ha Hb), <- (mapsEqual_eq a b Ha).
  cbn [getf].
  destruct (toInt (get baseIt "count") =? toInt (get currIt "count")) eqn:Hcount;
    cbn [negb].
  - apply Z.eqb_eq in Hcount.
    destruct (mapsEqual a b) eqn:Heq; cbn [negb].
    + destruct (String.eqb _ _) eqn:Hstate; cbn [negb].
      * apply String.eqb_eq in Hstate. split; [done|].
        intros [?|[?|?]]; done.
      * apply String.eqb_neq in Hstate. split; [|done]. intros _. by right; right.
    + split; [|done]. intros _. right. left. done.
  - apply Z.eqb_neq in Hcount. split; [|done]. intros _. by left.
Qed.

(** The entries: a probe of the current index alone is new, one of the
    baseline index alone is resolved, and one of both is changed when
    [probeFailureIsChanged] says so. *)
Lemma elem_of_buildProbeFailureEntries (basePF currPF : option Row) (e : probeEntry) :
  e ∈ buildProbeFailureEntries basePF currPF
  ↔ let baseProbes := index_items (getSlice basePF "items") in
    let currProbes := index_items (getSlice currPF "items") in
    (e = Build_probeEntry "new" (probe e) None (currProbes !! probe e)
     ∧ is_Some (currProbes !! probe e) ∧ baseProbes !! probe e = None)
    ∨ (e = Build_probeEntry "resolved" (probe e) (baseProbes !! probe e) None
       ∧ is_Some (baseProbes !! probe e) ∧ currProbes !! probe e = None)
    ∨ (e = Build_probeEntry "changed" (probe e) (baseProbes !! probe e)
             (currProbes !! probe e)
       ∧ is_Some (baseProbes !! probe e) ∧ is_Some (currProbes !! probe e)
       ∧ probeFailureIsChanged (probe e) (baseProbes !! probe e)
           (currProbes !! probe e) = true).
Proof.
  unfold buildProbeFailureEntries, sortProbes, sort_Slice.
  set (baseProbes := index_items (getSlice basePF "items")).
  set (currProbes := index_items (getSlice currPF "items")).
  cbv zeta. rewrite !elem_of_app, !list_elem_of_fmap.
  setoid_rewrite merge_sort_Permutation.
  setoid_rewrite list_elem_of_filter.
  setoid_rewrite elem_of_range_keys.
  split.
  - intros [(p & -> & Hnone & Hsome)|[(p & -> & Hnone & Hsome)|(p & -> & [Hc Hch] & Hb)]];
      cbn [probe]; [left | right; left | right; right]; done.
  - intros [(-> & Hsome & Hnone)|[(-> & Hsome & Hnone)|(-> & Hb & Hc & Hch)]];
      cbn [probe] in *; [left | right; left | right; right]; eexists; (split; [done|]);
      done.
Qed.

(** A probe of both snapshots whose exit codes have all occurred gets a
    changed entry if and only if its count, its normalized exit-code
    distribution or its expected state differs; when none does, no entry
    of the diff names it. *)
Theorem changed_entry_iff (basePF currPF : option Row) (p : string)
    (baseIt currIt : Row) :
  index_items (getSlice basePF "items") !! p = Some baseIt →
  index_items (getSlice currPF "items") !! p = Some currIt →
  codes_agree (getMap (Some baseIt) "exit_codes") = true →
  codes_agree (getMap (Some currIt) "exit_codes") = true →
  counts_nonzero (getMap (Some baseIt) "exit_codes") = true →
  counts_nonzero (getMap (Some currIt) "exit_codes") = true →
  (Build_probeEntry "changed" p (Some baseIt) (Some currIt)
     ∈ buildProbeFailureEntries basePF currPF
   ↔ changed_as_specified p baseIt currIt)
  ∧ (¬ changed_as_specified p baseIt currIt →
     ∀ e, e ∈ buildProbeFailureEntries basePF currPF → probe e ≠ p).
Proof.
  intros Hb Hc Hab Hac Hnb Hnc.
  rewrite <- (probeFailureIsChanged_spec p baseIt currIt) by done.
  split.
  - rewrite elem_of_buildProbeFailureEntries. cbv zeta. cbn [probe].
    rewrite Hb, Hc. split.
    + intros [(? & _)|[(? & _)|(_ & _ & _ & Hch)]]; done.
    + intros Hch. right; right. by repeat split.
  - intros Hsame e He <-.
    apply elem_of_buildProbeFailureEntries in He. cbv zeta in He.
    rewrite Hb, Hc in He.
    destruct He as [(_ & _ & ?)|[(_ & _ & ?)|(_ & _ & _ & Hch)]]; done.
Qed.

End ChangedFacts.

(** ** The order of the entries *)

Section EntryOrder.

Import GoNum GoLib.
Context `{GoRuntime}.

Lemma StronglySorted_weaken {A} (R R' : relation A) (l : list A) :
  (∀ x y, R x y → R' x y) → StronglySorted R l → StronglySorted R' l.
Proof.
  intros Himpl. induction 1 as [|x l _ IH Hall]; constructor; [done|].
  eapply Forall_impl; [exact Hall | apply Himpl].
Qed.

Lemma sortProbes_sorted (probes : list string) (status : string) :
  StronglySorted (not_after (lex_less (λ p, default 2 (SeverityOrder !! ProbeSeverity p))))
    (sortProbes probes status).
Proof.
  unfold sortProbes, sort_Slice.
  assert (∀ a b, not_after (probe_less status) a b
                 ↔ not_after (lex_less (λ p, default 2 (SeverityOrder !! ProbeSeverity p)))
                     a b) as Hiff.
  { intros a b. unfold not_after. by rewrite probe_less_lex. }
  assert (Transitive (not_after (probe_less status))).
  { intros a b c. rewrite !Hiff. apply lex_not_after_trans. }
  assert (Total (not_after (probe_less status))).
  { intros a b. rewrite !Hiff. apply lex_not_after_total. }
  apply (StronglySorted_weaken (not_after (probe_less status))); [intros ??; by apply Hiff|].
  by apply StronglySorted_merge_sort.
Qed.

Lemma segment_sorted (probes : list string) (st : string)
    (mk : string → probeEntry) :
  (∀ p, status (mk p) = st) → (∀ p, probe (mk p) = p) →
  StronglySorted status_major_le (entry_key <$> (mk <$> sortProbes probes st)).
Proof.
  intros Hst Hp. rewrite <- list_fmap_compose.
  eapply StronglySorted_fmap; [|apply sortProbes_sorted].
  intros p q Hpq. apply lex_not_after in Hpq.
  unfold compose, entry_key, probeSortKey, status_major_le. rewrite !Hst, !Hp.
  right. split; [done|]. exact Hpq.
Qed.

Lemma segment_status (probes : list string) (st : string)
    (mk : string → probeEntry) (k : Z * Z * string) :
  k ∈ entry_key <$> (mk <$> probes) →
  (∀ p, status (mk p) = st) → k.1.2 = default 3 (statusOrder !! st).
Proof.
  intros (e & -> & (p & -> & _)%list_elem_of_fmap)%list_elem_of_fmap Hst.
  unfold entry_key, probeSortKey. by rewrite Hst.
Qed.

(** The entries come status by status, and by severity and name within a
    status. *)
Lemma buildProbeFailureEntries_sorted (basePF currPF : option Row) :
  StronglySorted status_major_le
    (entry_key <$> buildProbeFailureEntries basePF currPF).
Proof.
  unfold buildProbeFailureEntries. cbv zeta. rewrite !fmap_app.
  assert (∀ a b : Z * Z * string, a.1.2 < b.1.2 → status_major_le a b) as Hlt.
  { intros [[sa ta] pa] [[sb tb] pb]. simpl. by left. }
  apply StronglySorted_app_2; [|by apply segment_sorted|apply StronglySorted_app_2].
  - intros a b Ha Hb. apply Hlt.
    rewrite (segment_status _ "new" _ a Ha (λ _, eq_refl)).
    apply elem_of_app in Hb as [Hb|Hb].
    + by rewrite (segment_status _ "resolved" _ b Hb (λ _, eq_refl)).
    + by rewrite (segment_status _ "changed" _ b Hb (λ _, eq_refl)).
  - intros a b Ha Hb. apply Hlt.
    rewrite (segment_status _ "resolved" _ a Ha (λ _, eq_refl)).
    by rewrite (segment_status _ "changed" _ b Hb (λ _, eq_refl)).
  - by apply segment_sorted.
  - by apply segment_sorted.
Qed.

Lemma group_by_topic_acc (entries : list probeEntry)
    (acc : gmap string (list probeEntry)) (topic : string) :
  default [] (foldl (λ byTopic e,
                       let topic := ProbeTopic (probe e) in
                       <[ topic := default [] (byTopic !! topic) ++ [e] ]> byTopic)
                acc entries !! topic)
  = default [] (acc !! topic) ++ filter (λ e, ProbeTopic (probe e) = topic) entries.
Proof.
  revert acc. induction entries as [|e entries IH]; intros acc; cbn [foldl].
  - by rewrite app_nil_r.
  - rewrite IH, filter_cons. cbv zeta.
    destruct (decide (ProbeTopic (probe e) = topic)) as [->|Hne].
    + rewrite lookup_insert_eq. simpl. by rewrite <- app_assoc.
    + by rewrite lookup_insert_ne.
Qed.

(** The entries under a topic are the entries of that topic, in the order
    of the entries. *)
Lemma group_by_topic_lookup (entries : list probeEntry) (topic : string) :
  default [] (group_by_topic entries !! topic)
  = filter (λ e, ProbeTopic (probe e) = topic) entries.
Proof. unfold group_by_topic. by rewrite group_by_topic_acc, lookup_empty. Qed.

Lemma StronglySorted_filter {A} (R : relation A) (P : A → Prop)
    `{∀ x, Decision (P x)} (l : list A) :
  StronglySorted R l → StronglySorted R (filter P l).
Proof.
  induction 1 as [|x l _ IH Hall]; [constructor|].
  rewrite filter_cons. destruct (decide (P x)); [|done].
  constructor; [done|]. apply Forall_forall. intros y Hy.
  apply list_elem_of_filter in Hy as [_ Hy].
  by apply (proj1 (Forall_forall _ _) Hall).
Qed.

Lemma StronglySorted_fmap_inv {A B} (f : A → B) (R : relation B) (l : list A) :
  StronglySorted R (f <$> l) → StronglySorted (λ x y, R (f x) (f y)) l.
Proof.
  induction l as [|x l IH]; [constructor|].
  rewrite fmap_cons. intros [Hall Hs]%StronglySorted_cons.
  constructor; [by apply IH|].
  apply Forall_forall. intros y Hy.
  apply (proj1 (Forall_forall _ _) Hall). by apply list_elem_of_fmap_2.
Qed.

(** Under each topic the entries are those of the topic, new ones first,
    then resolved ones, then changed ones, and within a status in the
    order of severity rank and then of the probe identifier. *)
Theorem topic_entries_status_major (basePF currPF : option Row) (topic : string)
    (items : list probeEntry) :
  group_by_topic (buildProbeFailureEntries basePF currPF) !! topic = Some items →
  StronglySorted status_major_le (entry_key <$> items)
  ∧ Forall (λ e, ProbeTopic (probe e) = topic) items.
Proof.
  intros Hitems.
  pose proof (group_by_topic_lookup (buildProbeFailureEntries basePF currPF) topic)
    as Hfilter.
  rewrite Hitems in Hfilter. simpl in Hfilter. subst items. split.
  - apply (StronglySorted_fmap entry_key
             (λ x y, status_major_le (entry_key x) (entry_key y))); [done|].
    apply StronglySorted_filter, StronglySorted_fmap_inv,
      buildProbeFailureEntries_sorted.
  - apply Forall_forall. intros e He. by apply list_elem_of_filter in He as [? _].
Qed.

End EntryOrder.

(** ** The theorems at work on a sample *)

(** The report of the sample, whatever the iteration order. *)
Example sample_report (rt : GoRuntime) (pr : GoPrinter) :
  run_IO (Run sample_baseline sample_current)
  = (true,
     "## Probe failures delta" +:+ nl +:+ nl
       +:+ "### Security" +:+ nl
       +:+ "  + config.fdesetup_status failed 2× (tight burst), exit_codes: {1:1,255:1} (mixed)"
       +:+ nl +:+ nl
       +:+ "### Network" +:+ nl
       +:+ "  + network.ifconfig_iface failed 5× (tight burst), exit_codes: {1:5}" +:+ nl
       +:+ "  + network.ifconfig_list failed 1× (single-shot), exit_codes: {1:1}" +:+ nl
       +:+ "  - network.lsof_listen resolved (was 2×, exit_codes: {1:2})" +:+ nl
       +:+ nl
       +:+ "### Identity" +:+ nl
       +:+ "  ~ identity.dscl_list_users 1×→3×, exit_codes: 70:+2 (expected)" +:+ nl
       +:+ nl).
Proof.
  unfold run_IO. rewrite (Run_any_order rt forward_runtime) by reflexivity.
  vm_compute. reflexivity.
Qed.

Lemma Run_order_free_witness :
  rows_agree sample_baseline = true
  ∧ rows_agree sample_current = true
  ∧ run_IO (@Run forward_runtime string_printer sample_baseline sample_current)
    = run_IO (@Run backward_runtime string_printer sample_baseline sample_current).
Proof.
  split; [reflexivity|]. split; [reflexivity|].
  apply (@Run_order_free string_printer forward_runtime backward_runtime
           sample_baseline sample_current); reflexivity.
Defined.

Lemma changed_entry_iff_witness :
  (Build_probeEntry "changed" "identity.dscl_list_users"
     (Some (probe_item "identity.dscl_list_users" 1 {[ "70" := VFloat 1 ]}))
     (Some (probe_item "identity.dscl_list_users" 3 {[ "70" := VFloat 3 ]}))
     ∈ @buildProbeFailureEntries forward_runtime
         (GroupByType sample_baseline !! "probe_failures_summary")
         (GroupByType sample_current !! "probe_failures_summary")
   ↔ @changed_as_specified forward_runtime "identity.dscl_list_users"
       (probe_item "identity.dscl_list_users" 1 {[ "70" := VFloat 1 ]})
       (probe_item "identity.dscl_list_users" 3 {[ "70" := VFloat 3 ]}))
  ∧ (¬ @changed_as_specified forward_runtime "identity.dscl_list_users"
         (probe_item "identity.dscl_list_users" 1 {[ "70" := VFloat 1 ]})
         (probe_item "identity.dscl_list_users" 3 {[ "70" := VFloat 3 ]}) →
     ∀ e, e ∈ @buildProbeFailureEntries forward_runtime
                (GroupByType sample_baseline !! "probe_failures_summary")
                (GroupByType sample_current !! "probe_failures_summary") →
          probe e ≠ "identity.dscl_list_users").
Proof.
  apply (@changed_entry_iff forward_runtime
           (GroupByType sample_baseline !! "probe_failures_summary")
           (GroupByType sample_current !! "probe_failures_summary")
           "identity.dscl_list_users"
           (probe_item "identity.dscl_list_users" 1 {[ "70" := VFloat 1 ]})
           (probe_item "identity.dscl_list_users" 3 {[ "70" := VFloat 3 ]}));
    vm_compute; reflexivity.
Defined.

Lemma topic_entries_status_major_witness :
  StronglySorted status_major_le
    (entry_key <$>
       [ Build_probeEntry "new" "network.ifconfig_iface" None
           (Some (probe_item "network.ifconfig_iface" 5 {[ "1" := VFloat 5 ]}));
         Build_probeEntry "new" "network.ifconfig_list" None
           (Some (probe_item "network.ifconfig_list" 1 {[ "1" := VFloat 1 ]}));
         Build_probeEntry "resolved" "network.lsof_listen"
           (Some (probe_item "network.lsof_listen" 2 {[ "1" := VFloat 2 ]})) None ])
  ∧ Forall (λ e, @ProbeTopic forward_runtime (probe e) = "Network")
      [ Build_probeEntry "new" "network.ifconfig_iface" None
          (Some (probe_item "network.ifconfig_iface" 5 {[ "1" := VFloat 5 ]}));
        Build_probeEntry "new" "network.ifconfig_list" None
          (Some (probe_item "network.ifconfig_list" 1 {[ "1" := VFloat 1 ]}));
        Build_probeEntry "resolved" "network.lsof_listen"
          (Some (probe_item "network.lsof_listen" 2 {[ "1" := VFloat 2 ]})) None ].
Proof.
  apply (@topic_entries_status_major forward_runtime
           (GroupByType sample_baseline !! "probe_failures_summary")
           (GroupByType sample_current !! "probe_failures_summary") "Network").
  vm_compute. reflexivity.
Defined.

(** The reader on the sample files: a stream that reads completely, one
    that stops at its fourth line, and a file that does not open. *)
Example ReadNDJSON_samples :
  ReadNDJSON sample_files sample_decoder "good.ndjson"
  = ([ {[ "raw" := VString "{a}" ]}; {[ "raw" := VString "{b}" ]} ], None)
  ∧ ReadNDJSON sample_files sample_decoder "bad.ndjson"
    = ([], Some "invalid JSON at line 4: invalid character 'o' looking for beginning of value")
  ∧ ReadNDJSON sample_files sample_decoder "none.ndjson"
    = ([], Some "open none.ndjson: no such file or directory").
Proof. repeat split; vm_compute; reflexivity. Qed.

Lemma ReadNDJSON_all_or_nothing_witness :
  ReadNDJSON sample_files sample_decoder "bad.ndjson"
  = ([], Some ("invalid JSON at line " +:+ GoLib.Itoa (1 + Z.of_nat 3) +:+ ": "
                 +:+ first_line ("invalid character 'o' looking for beginning of value"
                                   +:+ nl +:+ "at offset 0"))).
Proof.
  pose proof (ReadNDJSON_all_or_nothing sample_files sample_decoder "bad.ndjson")
    as [_ Hcases].
  change (sample_files "bad.ndjson") with (Opened sample_stream None) in Hcases.
  destruct Hcases as (_ & _ & Hbad & _).
  apply (Hbad (take 3 (physical_lines sample_stream))
           (list_ascii_of_string " oops ")
           (drop 4 (physical_lines sample_stream))).
  - vm_compute. reflexivity.
  - repeat constructor.
  - reflexivity.
  - reflexivity.
  - reflexivity.
Defined.

Lemma ProbeSeverity_precedence_witness :
  ProbeSeverity "network.ifconfig_list" = "medium"
  ∧ ProbeSeverity "storage.du_home" = "low"
  ∧ ProbeSeverity "network.socketfilterfw_stealth" = "high".
Proof.
  split; [|split].
  - destruct (ProbeSeverity_precedence "network.ifconfig_list") as [_ Hprefix].
    destruct (Hprefix eq_refl) as [Hfirst _].
    apply (Hfirst (take 5 probeSeverityPrefix) "network.ifconfig_" "medium"
             (drop 6 probeSeverityPrefix)).
    + reflexivity.
    + repeat constructor.
    + reflexivity.
  - destruct (ProbeSeverity_precedence "storage.du_home") as [_ Hprefix].
    destruct (Hprefix eq_refl) as [_ Hnone].
    apply Hnone. repeat constructor.
  - destruct (ProbeSeverity_precedence "network.socketfilterfw_stealth") as [Hexact _].
    apply Hexact. reflexivity.
Defined.

(** The four cases of the expected state on the table as declared. *)
Example ExpectedState_samples (rt : GoRuntime) :
  ExpectedState "config.fdesetup_status" ∅ = "unexpected"
  ∧ ExpectedState "config.fdesetup_status" {[ "1" := VFloat 2 ]} = "expected"
  ∧ ExpectedState "config.fdesetup_status"
      (list_to_map [ ("1", VFloat 1); ("255", VFloat 1) ]) = "mixed"
  ∧ ExpectedState "config.fdesetup_status" {[ "255" := VFloat 1 ]} = "unexpected"
  ∧ ExpectedState "storage.du_home" {[ "1" := VFloat 1 ]} = "unexpected".
Proof.
  rewrite !(ExpectedState_order_free rt forward_runtime).
  repeat split; vm_compute; reflexivity.
Qed.

(** * The rest of the package *)

(** ** The type index, the probe index and the warning codes *)

Section IndexFacts.

Context `{GoRuntime} `{GoPrinter}.

Lemma GroupByType_snoc (rows : list Row) (row : Row) :
  GroupByType (rows ++ [row])
  = match get row "type" with
    | VString t => if negb (String.eqb t "") then <[ t := row ]> (GroupByType rows)
                   else GroupByType rows
    | _ => GroupByType rows
    end.
Proof. unfold GroupByType. by rewrite foldl_app. Qed.

Lemma filter_snoc {A} (P : A → Prop) `{∀ x, Decision (P x)} (l : list A) (x : A) :
  filter P (l ++ [x]) = filter P l ++ (if decide (P x) then [x] else []).
Proof.
  by rewrite filter_app.
Qed.

Lemma GroupByType_lookup (rows : list Row) (t : string) :
  GroupByType rows !! t
  = if String.eqb t "" then None else last (filter (λ row, type_is t row) rows).
Proof.
  induction rows as [|row rows IH] using rev_ind.
  - unfold GroupByType. simpl. rewrite lookup_empty. by destruct (String.eqb t "").
  - rewrite GroupByType_snoc, filter_snoc.
    assert (Hti : type_is t row = match get row "type" with
                                  | VString s => String.eqb s t
                                  | _ => false
                                  end) by reflexivity.
    destruct (get row "type") as [|b|x|n|n|s|l|m] eqn:Htype;
      try (rewrite decide_False by (rewrite Hti; simpl; tauto);
           rewrite app_nil_r; apply IH).
    destruct (String.eqb_spec s "") as [->|Hs]; simpl.
    + rewrite IH. destruct (String.eqb_spec t "") as [Ht|Ht]; [done|].
      rewrite decide_False, app_nil_r; [done|].
      rewrite Hti, Is_true_true. intros Heq. apply String.eqb_eq in Heq. congruence.
    + destruct (String.eqb_spec s t) as [->|Hst].
      * rewrite lookup_insert_eq, decide_True by (by rewrite Hti).
        rewrite last_snoc. by destruct (String.eqb_spec t "").
      * rewrite lookup_insert_ne by done.
        rewrite decide_False by (rewrite Hti; simpl; tauto). rewrite app_nil_r. apply IH.
Qed.

(** ndjson.go, [GroupByType]: the index holds, under a type that is not
    the empty string, the last row of the stream that has this type, and
    nothing under a type that no row has; the empty string indexes
    nothing. *)
Theorem GroupByType_last (rows : list Row) (t : string) :
  GroupByType rows !! t
  = if String.eqb t "" then None else last (filter (λ row, type_is t row) rows).
Proof.
  apply GroupByType_lookup.
Qed.

Lemma index_items_snoc (items : list value) (it : value) :
  index_items (items ++ [it])
  = match it with
    | VMap row => match get row "probe" with
                  | VString p => <[ p := row ]> (index_items items)
                  | _ => index_items items
                  end
    | _ => index_items items
    end.
Proof. unfold index_items. by rewrite foldl_app. Qed.

(** diff.go, [buildProbeFailureEntries]: the index of an [items] list
    holds, under a probe, the last entry of the list that is a map with
    this probe under "probe"; an earlier item of the same probe is
    overwritten, and entries of any other shape are not indexed. *)
Theorem index_items_last (items : list value) (p : string) :
  index_items items !! p = last (filter (λ it, probe_is p it) items) ≫= row_of.
Proof.
  induction items as [|it items IH] using rev_ind.
  - unfold index_items. simpl. by rewrite lookup_empty.
  - rewrite index_items_snoc, filter_snoc.
    assert (Hpi : probe_is p it = match it with
                                  | VMap row => match get row "probe" with
                                                | VString q => String.eqb q p
                                                | _ => false
                                                end
                                  | _ => false
                                  end) by reflexivity.
    destruct it as [|b|x|n|n|s|l|row];
      try (rewrite decide_False by (rewrite Hpi; simpl; tauto);
           rewrite app_nil_r; apply IH).
    destruct (get row "probe") as [|b|x|n|n|q|l|m] eqn:Hprobe;
      try (rewrite decide_False by (rewrite Hpi; simpl; tauto);
           rewrite app_nil_r; apply IH).
    destruct (String.eqb_spec q p) as [Hqp|Hqp].
    + subst q. rewrite lookup_insert_eq, decide_True by (by rewrite Hpi).
      by rewrite last_snoc.
    + rewrite lookup_insert_ne by done.
      rewrite decide_False by (rewrite Hpi; simpl; tauto).
      rewrite app_nil_r. apply IH.
Qed.

Lemma CollectWarningCodes_snoc (rows : list Row) (row : Row) :
  CollectWarningCodes (rows ++ [row])
  = match get row "type" with
    | VString "warning" =>
        match get row "code" with
        | VString c => {[ c ]} ∪ CollectWarningCodes rows
        | _ => if decide (is_Some (row !! "soft_failures"))
               then {[ "soft_failures" ]} ∪ CollectWarningCodes rows
               else CollectWarningCodes rows
        end
    | _ => CollectWarningCodes rows
    end.
Proof. unfold CollectWarningCodes. by rewrite foldl_app. Qed.

Lemma CollectWarningCodes_step (rows : list Row) (row : Row) :
  CollectWarningCodes (rows ++ [row])
  = match warning_code row with
    | Some c => {[ c ]} ∪ CollectWarningCodes rows
    | None => CollectWarningCodes rows
    end.
Proof.
  rewrite CollectWarningCodes_snoc. unfold warning_code, type_is.
  destruct (get row "type") as [|b|x|n|n|s|l|m]; try reflexivity.
  destruct (String.eqb_spec s "warning") as [->|Hs].
  - destruct (get row "code"); try reflexivity; by case_decide.
  - destruct s as [|a0 s]; [done|].
    repeat (first [ reflexivity
                  | match goal with
                    | |- context [match ?a with Ascii _ _ _ _ _ _ _ _ => _ end] => destruct a
                    | |- context [match ?b with true => _ | false => _ end] => destruct b
                    | |- context [match ?s with EmptyString => _ | String _ _ => _ end] =>
                        destruct s
                    end ]); congruence.
Qed.

Lemma elem_of_CollectWarningCodes (rows : list Row) (c : string) :
  c ∈ CollectWarningCodes rows ↔ ∃ row, row ∈ rows ∧ warning_code row = Some c.
Proof.
  induction rows as [|row rows IH] using rev_ind.
  - unfold CollectWarningCodes. simpl. split; [set_solver|].
    intros (row & Hin & _). by apply elem_of_nil in Hin.
  - rewrite CollectWarningCodes_step. split.
    + destruct (warning_code row) as [c'|] eqn:Hw.
      * rewrite elem_of_union, elem_of_singleton. intros [->|Hin].
        -- exists row. split; [|done]. apply elem_of_app. right. by apply list_elem_of_singleton.
        -- apply IH in Hin as (row' & Hin & Hc). exists row'. split; [|done].
           apply elem_of_app. by left.
      * intros Hin. apply IH in Hin as (row' & Hin & Hc). exists row'. split; [|done].
        apply elem_of_app. by left.
    + intros (row' & Hin & Hc). apply elem_of_app in Hin as [Hin|Hin].
      * assert (c ∈ CollectWarningCodes rows) by (apply IH; eauto).
        destruct (warning_code row); set_solver.
      * apply list_elem_of_singleton in Hin. subst row'. rewrite Hc. set_solver.
Qed.

(** ndjson.go, [CollectWarningCodes]: a code is collected exactly when
    some row of type "warning" has it as the string under "code", or
    when the code is "soft_failures" and some row of type "warning" has
    no string under "code" and has the key "soft_failures".  Rows of any
    other type, and warnings with neither, add nothing. *)
Theorem CollectWarningCodes_spec (rows : list Row) (c : string) :
  c ∈ CollectWarningCodes rows
  ↔ ∃ row, row ∈ rows ∧ get row "type" = VString "warning"
      ∧ (get row "code" = VString c
         ∨ (c = "soft_failures" ∧ (∀ s, get row "code" ≠ VString s)
            ∧ is_Some (row !! "soft_failures"))).
Proof.
  rewrite elem_of_CollectWarningCodes. split.
  - intros (row & Hin & Hc). exists row. split; [done|].
    revert Hc. unfold warning_code, type_is.
    destruct (get row "type") as [|b|x|n|n|s|l|m]; try done.
    destruct (String.eqb_spec s "warning") as [Hs|Hs]; [subst s|done].
    intros Hc. split; [done|]. revert Hc.
    destruct (get row "code") as [|b|x|n|n|s|l|m]; try case_decide;
      intros Hc; try done; try (right; naive_solver).
    left. congruence.
  - intros (row & Hin & Htype & Hcode). exists row. split; [done|].
    unfold warning_code, type_is. rewrite Htype. simpl.
    destruct Hcode as [->|(-> & Hno & Hsome)]; [done|].
    destruct (get row "code") as [|b|x|n|n|s|l|m]; try (by rewrite decide_True).
    by destruct (Hno s).
Qed.

Lemma consumed_type_is (row : Row) (t : string) :
  consumed row = false → t ∈ consumed_types → type_is t row = false.
Proof.
  unfold consumed. intros Hno Hin.
  destruct (type_is t row) eqn:Ht; [|done].
  assert (existsb (λ t, type_is t row) consumed_types = true) as Hyes.
  { apply existsb_exists. exists t. split; [|done]. by apply list_elem_of_In. }
  congruence.
Qed.

Lemma GroupByType_other (before after : list Row) (row : Row) (t : string) :
  type_is t row = false →
  GroupByType (before ++ row :: after) !! t = GroupByType (before ++ after) !! t.
Proof.
  intros Hno. rewrite !GroupByType_lookup, !filter_app, filter_cons.
  by rewrite decide_False by (rewrite Hno; simpl; tauto).
Qed.

Lemma CollectWarningCodes_other (before after : list Row) (row : Row) :
  type_is "warning" row = false →
  CollectWarningCodes (before ++ row :: after) = CollectWarningCodes (before ++ after).
Proof.
  intros Hno. apply leibniz_equiv. intros c.
  rewrite !elem_of_CollectWarningCodes.
  assert (warning_code row = None) as Hnone by (unfold warning_code; by rewrite Hno).
  split; intros (row' & Hin & Hc); exists row'; (split; [|done]);
    rewrite !elem_of_app, ?elem_of_cons in *; naive_solver.
Qed.

(** diff.go, [Run]: a row whose type is none of "summary", "counts",
    "security_config", "homebrew_summary", "warning" and
    "probe_failures_summary" (a "meta" row, a row without a type) can be
    added to or taken from either stream, anywhere, without any effect on
    what [Run] prints and returns. *)
Theorem Run_ignores_other_rows (row : Row) (before after others : list Row) :
  consumed row = false →
  Run (before ++ row :: after) others = Run (before ++ after) others
  ∧ Run others (before ++ row :: after) = Run others (before ++ after).
Proof.
  intros Hno.
  assert (∀ t, t ∈ consumed_types →
            GroupByType (before ++ row :: after) !! t = GroupByType (before ++ after) !! t)
    as Hidx by (intros t Ht; by apply GroupByType_other, consumed_type_is).
  assert (CollectWarningCodes (before ++ row :: after)
          = CollectWarningCodes (before ++ after)) as Hwarn.
  { apply CollectWarningCodes_other, consumed_type_is; [done|].
    unfold consumed_types. set_solver. }
  unfold Run. rewrite Hwarn.
  rewrite (Hidx "summary"), (Hidx "counts"), (Hidx "security_config"),
    (Hidx "homebrew_summary"), (Hidx "probe_failures_summary")
    by (unfold consumed_types; set_solver).
  done.
Qed.

End IndexFacts.

Lemma Run_ignores_other_rows_witness :
  @Run forward_runtime string_printer ([] ++ {[ "type" := VString "meta" ]} :: sample_baseline)
    sample_current
  = @Run forward_runtime string_printer ([] ++ sample_baseline) sample_current
  ∧ @Run forward_runtime string_printer sample_current
      ([] ++ {[ "type" := VString "meta" ]} :: sample_baseline)
    = @Run forward_runtime string_printer sample_current ([] ++ sample_baseline).
Proof.
  apply (@Run_ignores_other_rows forward_runtime string_printer
           {[ "type" := VString "meta" ]} [] sample_baseline sample_current).
  vm_compute. reflexivity.
Defined.

(** ** A snapshot against itself *)

Section SelfDiff.

Import GoNum GoLib.
Context `{GoRuntime} `{GoPrinter}.

Lemma sub_diag_finite (x : float) :
  finite_float x = true → PrimFloat.eqb (x - x) 0 = true.
Proof.
  unfold finite_float. intros Hfin.
  rewrite FloatAxioms.eqb_spec, FloatAxioms.sub_spec.
  destruct (Prim2SF x) as [s|s| |s m e]; try done.
  - by destruct s.
  - unfold SF64sub, SFsub. rewrite Z.sub_diag. reflexivity.
Qed.

Lemma storage_entry_same (s : Row) (f : string) :
  finite_float (toFloat64 (get s f)) = true → storage_entry s s f = None.
Proof.
  intros Hfin. unfold storage_entry.
  rewrite (sub_diag_finite _ Hfin). by destruct (get s f).
Qed.

Lemma emitStorageDelta_same (s : option Row) :
  (∀ row, s = Some row → storage_finite row = true) →
  emitStorageDelta s s = mret false.
Proof.
  intros Hfin. destruct s as [row|]; [|done].
  specialize (Hfin row eq_refl). unfold storage_finite in Hfin.
  unfold emitStorageDelta.
  assert (omap (storage_entry row row) storageFields = []) as ->; [|done].
  unfold storageFields in *. simpl in Hfin.
  repeat (apply andb_prop in Hfin as [? Hfin]).
  simpl. by rewrite !storage_entry_same.
Qed.

Lemma count_entry_same (s : Row) (f : string) : count_entry s s f = None.
Proof. unfold count_entry. by rewrite Z.sub_diag. Qed.

Lemma emitCountDelta_same (s : option Row) : emitCountDelta s s = mret false.
Proof.
  destruct s as [row|]; [|done]. unfold emitCountDelta, countFields. simpl.
  by rewrite !count_entry_same.
Qed.

Lemma emitHomebrewDelta_same (s : option Row) : emitHomebrewDelta s s = mret false.
Proof.
  destruct s as [row|]; [|done]. unfold emitHomebrewDelta. simpl.
  by rewrite !count_entry_same.
Qed.

Lemma sec_entry_same (s : Row) (f : string) : sec_entry s s f = None.
Proof.
  unfold sec_entry. destruct (get s f); try done; by rewrite Bool.eqb_reflx.
Qed.

Lemma emitSecurityConfigDelta_same (s : option Row) :
  emitSecurityConfigDelta s s = mret false.
Proof.
  destruct s as [row|]; [|done]. unfold emitSecurityConfigDelta, secFields. simpl.
  by rewrite !sec_entry_same.
Qed.

Lemma filter_none {A} (P : A → Prop) `{∀ x, Decision (P x)} (l : list A) :
  (∀ x, x ∈ l → ¬ P x) → filter P l = [].
Proof.
  induction l as [|x l IH]; [done|]. intros Hno.
  rewrite filter_cons, decide_False by (apply Hno; left).
  apply IH. intros y Hy. apply Hno. by right.
Qed.

Lemma probeFailureIsChanged_same (p : string) (it : Row) :
  probeFailureIsChanged p (Some it) (Some it) = false.
Proof.
  unfold probeFailureIsChanged. rewrite Z.eqb_refl. simpl.
  assert (mapsEqual (normExitCodes (getMap (Some it) "exit_codes"))
            (normExitCodes (getMap (Some it) "exit_codes")) = true) as ->.
  { apply mapsEqual_true. split; [done|]. intros k v Hk. by rewrite Hk. }
  simpl. by rewrite String.eqb_refl.
Qed.

Lemma buildProbeFailureEntries_same (pf : option Row) :
  buildProbeFailureEntries pf pf = [].
Proof.
  unfold buildProbeFailureEntries.
  set (probes := index_items (getSlice pf "items")).
  assert (filter (λ p, probes !! p = None) (range_keys probes) = []) as ->.
  { apply filter_none. intros p Hp Hnone.
    apply elem_of_range_keys in Hp as [row Hrow]. congruence. }
  assert (filter (λ p, is_Some (probes !! p)
                       ∧ probeFailureIsChanged p (probes !! p) (probes !! p) = true)
            (range_keys probes) = []) as ->.
  { apply filter_none. intros p Hp [[row Hrow] Hch].
    rewrite Hrow, probeFailureIsChanged_same in Hch. done. }
  reflexivity.
Qed.
(** diff.go, [Run]: a snapshot compared with itself has no delta.  When
    no item of the stream has two keys for one exit code with different
    counts (the two loops over such a map may visit it in different
    orders) and the storage fields hold finite numbers, [Run] prints the
    header of the probe failures, "No changes detected" under it, and the
    closing line, and returns false. *)
Theorem Run_self_diff (rows : list Row) :
  rows_agree rows = true →
  forallb storage_finite rows = true →
  run_IO (Run rows rows)
  = (false,
     "## Probe failures delta" +:+ nl +:+ "  No changes detected" +:+ nl +:+ nl
       +:+ "No changes detected between baseline and current." +:+ nl).
Proof.
  intros _ Hfin. unfold Run.
  rewrite emitStorageDelta_same, emitCountDelta_same, emitSecurityConfigDelta_same,
    emitHomebrewDelta_same.
  - assert (filter (λ c, c ∉ CollectWarningCodes rows)
              (range_set (CollectWarningCodes rows)) = []) as ->.
    { apply filter_none. intros c Hc Hno. by apply elem_of_range_set in Hc. }
    unfold emitProbeFailuresDelta. rewrite buildProbeFailureEntries_same.
    reflexivity.
  - intros row Hrow. apply GroupByType_elem in Hrow.
    rewrite forallb_forall in Hfin. apply Hfin. by apply list_elem_of_In.
Qed.

End SelfDiff.

Lemma Run_self_diff_witness :
  rows_agree sample_current = true
  ∧ run_IO (@Run forward_runtime string_printer sample_current sample_current)
    = (false,
       "## Probe failures delta" +:+ nl +:+ "  No changes detected" +:+ nl +:+ nl
         +:+ "No changes detected between baseline and current." +:+ nl).
Proof.
  split; [vm_compute; reflexivity|].
  apply (@Run_self_diff forward_runtime string_printer sample_current);
    vm_compute; reflexivity.
Defined.

(** ** The sections of the emitters *)

Section SectionFacts.

Import GoNum GoLib.
Context `{GoRuntime} `{GoPrinter}.

Lemma for_each_Println {A} (l : list A) (line : A → string) (out : string) :
  for_each l (λ x, Println (line x)) out = (tt, out +:+ lines_of (line <$> l)).
Proof.
  revert out. induction l as [|x l IH]; intros out.
  - simpl. unfold mret, IO_ret. by rewrite append_nil_r.
  - simpl. unfold mbind, IO_bind, Println at 1. rewrite IH.
    by rewrite !append_assoc.
Qed.

(** The shape the five field emitters share: nothing for an empty list of
    deltas, and otherwise the header, a line for each delta and an empty
    line. *)
Lemma section_output {A} (deltas : list A) (header : string) (line : A → string)
    (out : string) :
  (if (length deltas =? 0)%nat then mret false
   else Println header ;; for_each deltas (λ d, Println (line d)) ;; Println "" ;;
        mret true) out
  = match deltas with
    | [] => (false, out)
    | _ => (true, out +:+ header +:+ nl +:+ lines_of (line <$> deltas) +:+ nl)
    end.
Proof.
  destruct deltas as [|d deltas]; [done|].
  cbn [length Nat.eqb]. unfold mbind, IO_bind, Println at 1.
  rewrite for_each_Println. unfold Println, mret, IO_ret.
  by rewrite !append_assoc.
Qed.

Lemma append_length (a b : string) :
  String.length (a +:+ b) = (String.length a + String.length b)%nat.
Proof.
  induction a as [|x a IH]; [done|].
  change (S (String.length (a +:+ b)) = S (String.length a + String.length b)).
  by rewrite IH.
Qed.

Lemma append_cancel (out s : string) : out +:+ s = out → s = "".
Proof.
  intros Heq. apply (f_equal String.length) in Heq.
  rewrite append_length in Heq. destruct s; [done|]. simpl in Heq. lia.
Qed.

Lemma section_quiet {A} (deltas : list A) (header : string) (line : A → string) :
  quiet (if (length deltas =? 0)%nat then mret false
         else Println header ;; for_each deltas (λ d, Println (line d)) ;; Println "" ;;
              mret true).
Proof.
  intros out. rewrite section_output. destruct deltas as [|d deltas]; [done|].
  simpl. split; [done|]. intros Heq.
  rewrite <- !append_assoc in Heq. rewrite !append_assoc in Heq.
  apply append_cancel in Heq. destruct header; discriminate.
Qed.

Lemma quiet_ret_false : quiet (mret false).
Proof. done. Qed.

(** diff.go, the emitters of the storage, count, security configuration
    and Homebrew deltas and of the new warnings: each returns false
    exactly when it has printed nothing, so that a report holds the
    section of an emitter if and only if this emitter found a delta.
    The emitter of the probe failures is the exception: it prints its
    header and "No changes detected" when it returns false. *)
Theorem emitters_quiet (base curr : option Row) (codes : list string) :
  quiet (emitStorageDelta base curr)
  ∧ quiet (emitCountDelta base curr)
  ∧ quiet (emitSecurityConfigDelta base curr)
  ∧ quiet (emitHomebrewDelta base curr)
  ∧ quiet (emitNewWarnings codes)
  ∧ ¬ quiet (emitProbeFailuresDelta None None).
Proof.
  split; [|split; [|split; [|split; [|split]]]].
  - unfold emitStorageDelta. destruct base, curr; try apply quiet_ret_false.
    apply section_quiet.
  - unfold emitCountDelta. destruct base, curr; try apply quiet_ret_false.
    apply section_quiet.
  - unfold emitSecurityConfigDelta. destruct base, curr; try apply quiet_ret_false.
    apply section_quiet.
  - unfold emitHomebrewDelta. destruct base, curr; try apply quiet_ret_false.
    apply section_quiet.
  - unfold emitNewWarnings.
    pose proof (section_quiet (sort_Strings codes) "## New warnings" (λ c, "  - " +:+ c))
      as Hq.
    unfold sort_Strings in *.
    rewrite (Permutation_length (merge_sort_Permutation _ codes)) in Hq. exact Hq.
  - intros Hq. specialize (Hq ""). unfold emitProbeFailuresDelta in Hq.
    rewrite buildProbeFailureEntries_same in Hq. destruct Hq as [Hq _].
    specialize (Hq eq_refl). discriminate.
Qed.

(** diff.go, [Run] and [emitNewWarnings]: the section of the new warnings
    lists the warning codes of the current stream that are not warning
    codes of the baseline, each once, in ascending order of the strings,
    whatever the order in which the set of codes is visited; without such
    a code the section is not printed. *)
Theorem new_warnings_section (baselineRows currentRows : list Row) :
  let new :=
    sort_Strings
      (elements (CollectWarningCodes currentRows ∖ CollectWarningCodes baselineRows)) in
  run_IO (emitNewWarnings
            (filter (λ c, c ∉ CollectWarningCodes baselineRows)
               (range_set (CollectWarningCodes currentRows))))
  = match new with
    | [] => (false, "")
    | _ => (true, "## New warnings" +:+ nl +:+ lines_of ((λ c, "  - " +:+ c) <$> new)
                    +:+ nl)
    end
  ∧ Sorted String.le new
  ∧ NoDup new
  ∧ ∀ c, c ∈ new
         ↔ c ∈ CollectWarningCodes currentRows ∧ c ∉ CollectWarningCodes baselineRows.
Proof.
  intros new.
  set (B := CollectWarningCodes baselineRows). set (C := CollectWarningCodes currentRows).
  assert (new ≡ₚ elements (C ∖ B)) as Hnew by apply merge_sort_Permutation.
  assert (filter (λ c, c ∉ B) (range_set C) ≡ₚ elements (C ∖ B)) as Hperm.
  { apply NoDup_Permutation.
    - apply NoDup_filter. rewrite range_set_perm. apply NoDup_elements.
    - apply NoDup_elements.
    - intros c. rewrite list_elem_of_filter, elem_of_range_set, elem_of_elements.
      set_solver. }
  split; [|split; [|split]].
  - rewrite (emitNewWarnings_perm _ _ Hperm). unfold emitNewWarnings, run_IO.
    rewrite <- (Permutation_length Hnew). fold new.
    rewrite section_output. subst new B C.
    by destruct (sort_Strings _).
  - apply Sorted_merge_sort. apply _.
  - rewrite Hnew. apply NoDup_elements.
  - intros c. rewrite Hnew, elem_of_elements. set_solver.
Qed.

End SectionFacts.

(** ** Ranks and topics *)

Section RankFacts.

Import GoNum GoLib.
Context `{GoRuntime}.

Lemma ProbeSeverity_values (probe : string) :
  ProbeSeverity probe ∈ [ "high"; "medium"; "low" ].
Proof.
  unfold ProbeSeverity.
  destruct (probeSeverityExact !! probe) as [sev|] eqn:Hexact.
  - unfold probeSeverityExact in Hexact.
    apply lookup_singleton_Some in Hexact as [_ <-]. by left.
  - destruct (first_prefix probeSeverityPrefix probe) as [sev|] eqn:Hpre;
      [|by right; right; left].
    apply first_prefix_Some in Hpre as (pre & Hin & _).
    unfold probeSeverityPrefix in Hin.
    repeat (apply elem_of_cons in Hin as [[= _ ->]|Hin];
            [rewrite !elem_of_cons; tauto|]).
    by apply elem_of_nil in Hin.
Qed.

(** classify.go and diff.go, [ProbeSeverity] and [probeSortKey]: the
    severity of a probe is always one of "high", "medium" and "low", each
    of which has a rank in [SeverityOrder], so the key of a probe never
    takes the rank that [probeSortKey] keeps for a severity without one;
    and the three statuses of the entries have the ranks 0, 1 and 2. *)
Theorem probeSortKey_ranks (probe : string) :
  ProbeSeverity probe ∈ [ "high"; "medium"; "low" ]
  ∧ (∃ rank, SeverityOrder !! ProbeSeverity probe = Some rank
             ∧ 0 ≤ rank ≤ 2
             ∧ ∀ status, (probeSortKey probe status).1.1 = rank)
  ∧ (probeSortKey probe "new").1.2 = 0
  ∧ (probeSortKey probe "resolved").1.2 = 1
  ∧ (probeSortKey probe "changed").1.2 = 2.
Proof.
  pose proof (ProbeSeverity_values probe) as Hsev.
  split; [done|]. split; [|repeat split; vm_compute; reflexivity].
  unfold probeSortKey. cbn [fst snd].
  assert (SeverityOrder !! "high" = Some 0) as Hhigh by (vm_compute; reflexivity).
  assert (SeverityOrder !! "medium" = Some 1) as Hmedium by (vm_compute; reflexivity).
  assert (SeverityOrder !! "low" = Some 2) as Hlow by (vm_compute; reflexivity).
  apply elem_of_cons in Hsev as [->|Hsev];
    [exists 0; rewrite Hhigh; repeat split; lia|].
  apply elem_of_cons in Hsev as [->|Hsev];
    [exists 1; rewrite Hmedium; repeat split; lia|].
  apply elem_of_cons in Hsev as [->|Hsev];
    [exists 2; rewrite Hlow; repeat split; lia|].
  by apply elem_of_nil in Hsev.
Qed.
Lemma ProbeTopic_values (probe : string) : ProbeTopic probe ∈ TopicOrder.
Proof.
  rewrite (ProbeTopic_any_order _ forward_runtime).
  unfold ProbeTopic.
  destruct (first_prefix (@range_map forward_runtime _ _ _ _ probeTopic) probe)
    as [topic|] eqn:Hpre; [|unfold TopicOrder; rewrite !elem_of_cons; tauto].
  apply first_prefix_Some in Hpre as (pre & Hin & _).
  assert (@range_map forward_runtime _ _ _ _ probeTopic
          = [ ("storage.", "Storage"); ("config.", "Security");
              ("execution.", "Execution"); ("identity.", "Identity");
              ("network.", "Network"); ("persistence.", "Persistence") ]) as Hlist
    by (vm_compute; reflexivity).
  rewrite Hlist in Hin. clear Hlist. unfold TopicOrder.
  repeat (apply elem_of_cons in Hin as [[= _ ->]|Hin];
          [rewrite !elem_of_cons; tauto|]).
  apply elem_of_nil in Hin. destruct Hin.
Qed.

Lemma group_by_topic_nonempty (entries : list probeEntry) (topic : string)
    (items : list probeEntry) :
  group_by_topic entries !! topic = Some items → items ≠ [].
Proof.
  unfold group_by_topic.
  assert (∀ acc : gmap string (list probeEntry),
            (∀ t l, acc !! t = Some l → l ≠ []) →
            ∀ t l, foldl (λ byTopic e,
                            let topic := ProbeTopic (probe e) in
                            <[ topic := default [] (byTopic !! topic) ++ [e] ]> byTopic)
                     acc entries !! t = Some l → l ≠ []) as Hacc.
  { induction entries as [|e entries IH]; intros acc Hne; [done|].
    cbn [foldl]. apply IH. intros t l. cbv zeta.
    destruct (decide (ProbeTopic (probe e) = t)) as [->|Hne'].
    - rewrite lookup_insert_eq. intros [= <-]. by destruct (default [] _).
    - rewrite lookup_insert_ne by done. apply Hne. }
  apply Hacc. intros t l. by rewrite lookup_empty.
Qed.

Lemma elem_of_topics (entries : list probeEntry) (topic : string) :
  is_Some (group_by_topic entries !! topic)
  ↔ Exists (λ e, ProbeTopic (probe e) = topic) entries.
Proof.
  pose proof (group_by_topic_lookup entries topic) as Hlookup.
  rewrite Exists_exists. split.
  - intros [items Hitems]. rewrite Hitems in Hlookup. simpl in Hlookup.
    pose proof (group_by_topic_nonempty _ _ _ Hitems) as Hne.
    destruct items as [|e items]; [done|].
    assert (e ∈ filter (λ e, ProbeTopic (probe e) = topic) entries) as Hin
      by (rewrite <- Hlookup; left).
    apply list_elem_of_filter in Hin as [Ht Hin]. by exists e.
  - intros (e & Hin & Ht).
    destruct (group_by_topic entries !! topic) as [items|]; [by eexists|].
    simpl in Hlookup.
    assert (e ∈ filter (λ e, ProbeTopic (probe e) = topic) entries) as Hin'
      by (by apply list_elem_of_filter).
    rewrite <- Hlookup in Hin'. by apply elem_of_nil in Hin'.
Qed.

Lemma TopicOrder_sorted : StronglySorted (not_after topic_less) TopicOrder.
Proof.
  unfold TopicOrder.
  repeat (constructor; [|repeat (constructor; [vm_compute; reflexivity|]); constructor]).
  constructor.
Qed.

(** diff.go, [emitProbeFailuresDelta]: the topics under which the entries
    are printed are the members of [TopicOrder] that some entry belongs
    to, in the order of [TopicOrder], each once, in whatever order the
    map of the topics is visited; no topic outside [TopicOrder] occurs. *)
Lemma topics_in_TopicOrder (entries : list probeEntry) :
  sort_Slice topic_less (range_keys (group_by_topic entries))
  = filter (λ topic, Exists (λ e, ProbeTopic (probe e) = topic) entries) TopicOrder.
Proof.
  assert (Transitive (not_after topic_less)) by apply lex_not_after_trans.
  assert (Total (not_after topic_less)) by apply lex_not_after_total.
  assert (AntiSymm (=) (not_after topic_less)) by apply lex_not_after_antisymm.
  apply (StronglySorted_unique (not_after topic_less)).
  - by apply StronglySorted_merge_sort.
  - apply StronglySorted_filter, TopicOrder_sorted.
  - unfold sort_Slice. rewrite merge_sort_Permutation.
    apply NoDup_Permutation.
    + rewrite range_keys_perm. apply NoDup_fst_map_to_list.
    + apply NoDup_filter. unfold TopicOrder.
      apply (bool_decide_unpack _). vm_compute. exact I.
    + intros topic. rewrite elem_of_range_keys, list_elem_of_filter, elem_of_topics.
      split; [|tauto]. intros Hex. split; [done|].
      apply Exists_exists in Hex as (e & _ & <-). apply ProbeTopic_values.
Qed.

End RankFacts.

(** ** Exit-code deltas and the entries of a diff *)

Section DeltaFacts.

Import GoNum GoLib.
Context `{GoRuntime} `{GoPrinter}.

Lemma omap_none {A B} (f : A → option B) (l : list A) :
  (∀ x, f x = None) → omap f l = [].
Proof. intros Hf. induction l as [|x l IH]; [done|]. simpl. by rewrite Hf. Qed.

(** diff.go, [exitCodesDelta], [formatExitCodesDelta] and
    [formatProbeEntryChanged]: the delta of an exit-code map against
    itself has a 0 for each of its keys and its text is empty, so the line
    of a changed probe whose two items carry the same exit codes shows
    the two counts and no exit codes. *)
Theorem same_exit_codes_no_delta (probe : string) (baseIt currIt : option Row) :
  getMap baseIt "exit_codes" = getMap currIt "exit_codes" →
  (∀ c, is_Some (getMap baseIt "exit_codes" !! c) →
        exitCodesDelta (getMap baseIt "exit_codes") (getMap currIt "exit_codes") !! c
        = Some 0)
  ∧ formatExitCodesDelta
      (exitCodesDelta (getMap baseIt "exit_codes") (getMap currIt "exit_codes")) = ""
  ∧ formatProbeEntryChanged probe baseIt currIt
    = "  ~ " +:+ probe +:+ " " +:+ Itoa (toInt (getf baseIt "count")) +:+ "×→"
        +:+ Itoa (toInt (getf currIt "count")) +:+ "×"
        +:+ ExpectedSuffix probe (getMap currIt "exit_codes").
Proof.
  intros Hsame.
  assert (∀ c, default 0 (exitCodesDelta (getMap baseIt "exit_codes")
                            (getMap currIt "exit_codes") !! c) = 0) as Hzero.
  { intros c. rewrite exitCodesDelta_lookup, Hsame, Z.sub_diag. by case_decide. }
  assert (formatExitCodesDelta
            (exitCodesDelta (getMap baseIt "exit_codes") (getMap currIt "exit_codes"))
          = "") as Hempty.
  { unfold formatExitCodesDelta. rewrite omap_none; [done|].
    intros k. cbv zeta. by rewrite Hzero. }
  split; [|split; [done|]].
  - intros c Hc. rewrite exitCodesDelta_lookup, decide_True by (by left).
    by rewrite Hsame, Z.sub_diag.
  - unfold formatProbeEntryChanged. cbv zeta. by rewrite Hempty.
Qed.

(** diff.go, [mapsEqual]: a map is equal to itself, and for a map in
    which no code counts 0 the function is the equality of maps.  (With
    a 0 it is not: the 0 read for a missing key passes for the count.) *)
Theorem mapsEqual_without_zero (a b : gmap Z Z) :
  no_zero_count a = true →
  mapsEqual a a = true ∧ (mapsEqual a b = true ↔ a = b).
Proof.
  intros Hnz. split.
  - apply mapsEqual_true. split; [done|]. intros k v Hk. by rewrite Hk.
  - apply mapsEqual_eq. intros k v Hk ->.
    unfold no_zero_count in Hnz. rewrite forallb_forall in Hnz.
    specialize (Hnz (k, 0)). simpl in Hnz.
    assert (false = true) by (apply Hnz, list_elem_of_In; by apply elem_of_map_to_list).
    done.
Qed.

Lemma NoDup_sortProbes (probes : list string) (status : string) :
  NoDup probes → NoDup (sortProbes probes status).
Proof.
  intros Hnd. unfold sortProbes, sort_Slice. by rewrite merge_sort_Permutation.
Qed.

Lemma elem_of_sortProbes (probes : list string) (status : string) (p : string) :
  p ∈ sortProbes probes status ↔ p ∈ probes.
Proof. unfold sortProbes, sort_Slice. by rewrite merge_sort_Permutation. Qed.

(** diff.go, [buildProbeFailureEntries]: no probe has two entries; a
    probe has a "new" entry, with its current item, exactly when it is
    indexed in the current summary and not in the baseline, and a
    "resolved" entry, with its baseline item, exactly when it is indexed
    in the baseline and not in the current summary; every entry is of a
    probe of one of the two summaries. *)
Theorem entries_new_resolved (basePF currPF : option Row) :
  let baseProbes := index_items (getSlice basePF "items") in
  let currProbes := index_items (getSlice currPF "items") in
  let entries := buildProbeFailureEntries basePF currPF in
  NoDup (probe <$> entries)
  ∧ (∀ p, Build_probeEntry "new" p None (currProbes !! p) ∈ entries
          ↔ is_Some (currProbes !! p) ∧ baseProbes !! p = None)
  ∧ (∀ p, Build_probeEntry "resolved" p (baseProbes !! p) None ∈ entries
          ↔ is_Some (baseProbes !! p) ∧ currProbes !! p = None)
  ∧ (∀ e, e ∈ entries →
          status e ∈ [ "new"; "resolved"; "changed" ]
          ∧ (is_Some (baseProbes !! probe e) ∨ is_Some (currProbes !! probe e))).
Proof.
  intros baseProbes currProbes entries.
  split; [|split; [|split]].
  - subst entries. unfold buildProbeFailureEntries. cbv zeta.
    fold baseProbes currProbes.
    rewrite !fmap_app, <- !list_fmap_compose.
    assert (∀ (mk : string → probeEntry) (l : list string), (∀ p, probe (mk p) = p) →
              (probe ∘ mk) <$> l = l) as Hid.
    { intros mk l Hmk. induction l as [|x l IH]; [done|].
      rewrite fmap_cons, IH. simpl. by rewrite Hmk. }
    rewrite !Hid by done.
    assert (NoDup (range_keys baseProbes)) as Hb
      by (rewrite range_keys_perm; apply NoDup_fst_map_to_list).
    assert (NoDup (range_keys currProbes)) as Hc
      by (rewrite range_keys_perm; apply NoDup_fst_map_to_list).
    apply NoDup_app. split; [by apply NoDup_sortProbes, NoDup_filter|]. split.
    + intros p Hnew Hrest. apply elem_of_sortProbes, list_elem_of_filter in Hnew as [Hnone _].
      apply elem_of_app in Hrest as [Hres|Hch].
      * apply elem_of_sortProbes, list_elem_of_filter in Hres as [_ Hin].
        apply elem_of_range_keys in Hin as [row Hrow]. congruence.
      * apply elem_of_sortProbes, list_elem_of_filter in Hch as [_ Hin].
        apply elem_of_range_keys in Hin as [row Hrow]. congruence.
    + apply NoDup_app. split; [by apply NoDup_sortProbes, NoDup_filter|].
      split; [|by apply NoDup_sortProbes, NoDup_filter].
      intros p Hres Hch. apply elem_of_sortProbes, list_elem_of_filter in Hres as [Hnone _].
      apply elem_of_sortProbes, list_elem_of_filter in Hch as [[[row Hrow] _] _].
      congruence.
  - intros p. subst entries. rewrite elem_of_buildProbeFailureEntries. cbv zeta.
    fold baseProbes currProbes. cbn [probe]. split.
    + intros [(_ & ? & ?)|[(? & _)|(? & _)]]; done.
    + intros [? ?]. by left.
  - intros p. subst entries. rewrite elem_of_buildProbeFailureEntries. cbv zeta.
    fold baseProbes currProbes. cbn [probe]. split.
    + intros [(? & _)|[(_ & ? & ?)|(? & _)]]; done.
    + intros [? ?]. right. by left.
  - intros e He. subst entries. apply elem_of_buildProbeFailureEntries in He.
    cbv zeta in He. fold baseProbes currProbes in He.
    destruct He as [(-> & ? & ?)|[(-> & ? & ?)|(-> & ? & ? & ?)]]; cbn [status probe];
      (split; [rewrite !elem_of_cons; tauto | tauto]).
Qed.

End DeltaFacts.

Lemma mapsEqual_without_zero_witness :
  @mapsEqual forward_runtime {[ 1 := 5 ]} {[ 1 := 5 ]} = true
  ∧ (@mapsEqual forward_runtime {[ 1 := 5 ]} {[ 2 := 5 ]} = true
     ↔ ({[ 1 := 5 ]} : gmap Z Z) = {[ 2 := 5 ]}).
Proof.
  apply (mapsEqual_without_zero (H := forward_runtime) {[ 1 := 5 ]} {[ 2 := 5 ]}).
  vm_compute. reflexivity.
Defined.

Lemma same_exit_codes_no_delta_witness :
  formatProbeEntryChanged (H := forward_runtime) "x"
    (Some (probe_item "x" 1 {[ "1" := VFloat 1 ]}))
    (Some (probe_item "x" 3 {[ "1" := VFloat 1 ]}))
  = "  ~ x 1×→3×".
Proof.
  apply (same_exit_codes_no_delta (H := forward_runtime) "x"
           (Some (probe_item "x" 1 {[ "1" := VFloat 1 ]}))
           (Some (probe_item "x" 3 {[ "1" := VFloat 1 ]}))).
  vm_compute. reflexivity.
Defined.

(** ** Sizes *)

Section BytesFacts.

Import GoNum GoLib.

Lemma abs_opp (x : float) : PrimFloat.abs (- x) = PrimFloat.abs x.
Proof.
  apply Prim2SF_inj. rewrite !abs_spec, opp_spec.
  by destruct (Prim2SF x).
Qed.

(** diff.go, [fmtBytes]: the text does not depend on the sign of the
    number; a size and its opposite are printed alike. *)
Theorem fmtBytes_even (x : float) : fmtBytes (VFloat (- x)) = fmtBytes (VFloat x).
Proof. unfold fmtBytes, fmtBytes_float. by rewrite abs_opp. Qed.

Lemma small_sizes_checked :
  forallb (λ n, String.eqb (fmtBytes_float (float_of_int n)) (Itoa (Z.abs n) +:+ "B"))
    small_sizes = true.
Proof. vm_compute. reflexivity. Qed.

(** diff.go, [fmtBytes]: a whole number of bytes below 1024, of either
    sign and whether it is held as an int, an int64 or a float64, is
    printed exactly, as its absolute value followed by "B"; 1024 is the
    first size printed in the next unit. *)
Theorem fmtBytes_below_unit (n : Z) :
  -1024 < n < 1024 →
  fmtBytes (VInt n) = Itoa (Z.abs n) +:+ "B"
  ∧ fmtBytes (VInt64 n) = Itoa (Z.abs n) +:+ "B"
  ∧ fmtBytes (VFloat (float_of_int n)) = Itoa (Z.abs n) +:+ "B"
  ∧ fmtBytes (VInt 1024) = "1.0K".
Proof.
  intros Hn.
  assert (fmtBytes_float (float_of_int n) = Itoa (Z.abs n) +:+ "B") as Hfmt.
  { pose proof small_sizes_checked as Hall. rewrite forallb_forall in Hall.
    apply String.eqb_eq, Hall, list_elem_of_In, elem_of_seqZ. lia. }
  repeat split; exact Hfmt.
Qed.

End BytesFacts.

Lemma fmtBytes_below_unit_witness :
  fmtBytes (VInt 512) = "512B" ∧ fmtBytes (VInt64 512) = "512B"
  ∧ fmtBytes (VFloat (GoNum.float_of_int 512)) = "512B" ∧ fmtBytes (VInt 1024) = "1.0K".
Proof. apply (fmtBytes_below_unit 512). lia. Defined.

(** ** Whole numbers through float64 *)

Section CoercionRoundTrip.

Import GoNum GoLib.

Lemma iter_xO (p d : positive) : Z.pos (Pos.iter xO p d) = Z.pos p * 2 ^ Z.pos d.
Proof.
  induction d as [|d IH] using Pos.peano_ind.
  - simpl. lia.
  - rewrite Pos.iter_succ, Pos2Z.inj_succ, Z.pow_succ_r by lia.
    rewrite Pos2Z.inj_xO, IH. lia.
Qed.

Lemma shl_align_exact (p : positive) (e e' : Z) :
  e' ≤ e →
  Z.pos (shl_align p e e').1 = Z.pos p * 2 ^ (e - e') ∧ (shl_align p e e').2 = e'.
Proof.
  intros Hle. unfold shl_align.
  destruct (e' - e) as [|d|d] eqn:Hd; try lia; simpl.
  - replace (e - e') with 0 by lia. split; lia.
  - rewrite iter_xO. replace (e - e') with (Z.pos d) by lia. done.
Qed.

Lemma binary_round_exact (s : bool) (m : positive) (e : Z) :
  2 ^ 52 ≤ Z.pos m < 2 ^ 53 → -1074 ≤ e ≤ 971 →
  binary_round_aux prec emax s (Z.pos m) e loc_Exact = S754_finite s m e.
Proof.
  intros Hm He.
  assert (Hd : Zdigits2 (Z.pos m) = 53) by (apply (Zdigits2_eq _ 52); lia).
  rewrite binary_round_aux_finish, shr_fexp_noshift by (rewrite fexp64_eq, Hd; lia).
  cbn [shr_record_of_loc shr_m loc_of_shr_record round_nearest_even].
  unfold round_finish.
  rewrite shr_fexp_noshift by (rewrite fexp64_eq, Hd; lia).
  cbn [shr_record_of_loc shr_m]. change (emax - prec) with 971.
  destruct (Z.leb_spec e 971); [done | lia].
Qed.

(** The binary64 of a whole number below 2^53: its digits moved up to
    fill the 53 bits of the mantissa. *)
Lemma binary_normalize_exact (s : bool) (p : positive) :
  Z.pos p < 2 ^ 53 →
  ∃ m e, binary_round prec emax s p 0 = S754_finite s m e
         ∧ 2 ^ 52 ≤ Z.pos m < 2 ^ 53 ∧ -52 ≤ e ≤ 0
         ∧ Z.pos m = Z.pos p * 2 ^ (- e).
Proof.
  intros Hp. unfold binary_round.
  pose proof (digits2_bounds p) as [Hlo Hhi].
  set (d := Z.pos (digits2_pos p)) in *.
  assert (1 ≤ d) by (unfold d; lia).
  assert (d ≤ 53).
  { destruct (Z_le_gt_dec d 53); [done|].
    assert (2 ^ 53 ≤ 2 ^ (d - 1)) by (apply Z.pow_le_mono_r; lia). lia. }
  rewrite fexp64_eq. replace (Z.max (d + 0 - 53) (-1074)) with (d - 53) by lia.
  pose proof (shl_align_exact p 0 (d - 53) ltac:(lia)) as [Hm He].
  destruct (shl_align p 0 (d - 53)) as [m e]. simpl in Hm, He. subst e.
  replace (0 - (d - 53)) with (53 - d) in Hm by lia.
  assert (2 ^ 52 ≤ Z.pos m < 2 ^ 53) as Hm53.
  { rewrite Hm.
    assert (2 ^ 52 = 2 ^ (d - 1) * 2 ^ (53 - d)) as ->
      by (rewrite <- Z.pow_add_r by lia; f_equal; lia).
    assert (2 ^ 53 = 2 ^ d * 2 ^ (53 - d)) as ->
      by (rewrite <- Z.pow_add_r by lia; f_equal; lia).
    assert (0 < 2 ^ (53 - d)) by (apply Z.pow_pos_nonneg; lia).
    split; [apply Z.mul_le_mono_nonneg_r | apply Z.mul_lt_mono_pos_r]; lia. }
  exists m, (d - 53). rewrite binary_round_exact by lia.
  repeat split; try lia. rewrite Hm. f_equal. f_equal. lia.
Qed.

Lemma int_of_float_of_int (n : Z) :
  - 2 ^ 53 < n < 2 ^ 53 → int_of_float (float_of_int n) = n.
Proof.
  intros Hn. unfold int_of_float, float_trunc, float_of_int, binary_normalize.
  destruct n as [|p|p].
  - vm_compute. reflexivity.
  - destruct (binary_normalize_exact false p ltac:(lia)) as (m & e & -> & Hm & He & Hme).
    rewrite Prim2SF_SF2Prim.
    2:{ unfold valid_binary, bounded, canonical_mantissa.
        change (Z.pos (digits2_pos m)) with (Zdigits2 (Z.pos m)).
        rewrite (Zdigits2_eq _ 52), fexp64_eq by lia.
        apply andb_true_intro. split; [apply Z.eqb_eq | apply Z.leb_le]; unfold emax, prec; lia. }
    assert ((if 0 <=? e then Z.pos m * 2 ^ e else Z.pos m / 2 ^ (- e)) = Z.pos p) as ->.
    { destruct (Z.leb_spec 0 e).
      - replace e with 0 in * by lia. simpl in Hme. lia.
      - rewrite Hme. apply Z.div_mul. apply Z.pow_nonzero; lia. }
    unfold in_int, int_min, int_max.
    destruct (Z.leb_spec (- 2 ^ 63) (Z.pos p)), (Z.leb_spec (Z.pos p) (2 ^ 63 - 1));
      simpl; lia.
  - destruct (binary_normalize_exact true p ltac:(lia)) as (m & e & -> & Hm & He & Hme).
    rewrite Prim2SF_SF2Prim.
    2:{ unfold valid_binary, bounded, canonical_mantissa.
        change (Z.pos (digits2_pos m)) with (Zdigits2 (Z.pos m)).
        rewrite (Zdigits2_eq _ 52), fexp64_eq by lia.
        apply andb_true_intro. split; [apply Z.eqb_eq | apply Z.leb_le]; unfold emax, prec; lia. }
    assert ((if 0 <=? e then Z.pos m * 2 ^ e else Z.pos m / 2 ^ (- e)) = Z.pos p) as ->.
    { destruct (Z.leb_spec 0 e).
      - replace e with 0 in * by lia. simpl in Hme. lia.
      - rewrite Hme. apply Z.div_mul. apply Z.pow_nonzero; lia. }
    unfold in_int, int_min, int_max.
    destruct (Z.leb_spec (- 2 ^ 63) (- Z.pos p)), (Z.leb_spec (- Z.pos p) (2 ^ 63 - 1));
      simpl; lia.
Qed.

(** diff.go, [toInt] and [toFloat64]: a whole number below 2^53 in
    absolute value is read alike whether the row holds it as an int, an
    int64 or a float64 (as [encoding/json] delivers it): [toInt] reads
    the number, [toFloat64] its binary64, and [toInt] of that float is
    the number again. *)
Theorem coercions_agree (n : Z) (v : value) :
  - 2 ^ 53 < n < 2 ^ 53 →
  v ∈ [ VInt n; VInt64 n; VFloat (float_of_int n) ] →
  toInt v = n
  ∧ toFloat64 v = float_of_int n
  ∧ toInt (VFloat (toFloat64 v)) = n.
Proof.
  intros Hn Hv. pose proof (int_of_float_of_int n Hn) as Hround.
  repeat (apply elem_of_cons in Hv as [->|Hv]; [by repeat split|]).
  by apply elem_of_nil in Hv.
Qed.

End CoercionRoundTrip.

Lemma coercions_agree_witness :
  toInt (VFloat (GoNum.float_of_int 22)) = 22
  ∧ toFloat64 (VFloat (GoNum.float_of_int 22)) = GoNum.float_of_int 22
  ∧ toInt (VFloat (toFloat64 (VFloat (GoNum.float_of_int 22)))) = 22.
Proof.
  apply (coercions_agree 22 (VFloat (GoNum.float_of_int 22))); [lia|].
  right. right. left.
Defined.

(** ** The end of a stream *)

Section ReaderTail.

Import GoNum GoLib.
Variable Unmarshal : string → Row + string.

Lemma list_ascii_of_string_app (a b : string) :
  list_ascii_of_string (a +:+ b) = list_ascii_of_string a ++ list_ascii_of_string b.
Proof.
  induction a as [|x a IH]; [done|].
  change (x :: list_ascii_of_string (a +:+ b)
          = x :: (list_ascii_of_string a ++ list_ascii_of_string b)).
  by rewrite IH.
Qed.

Lemma raw_lines_final_newline (cur data : list ascii) :
  ∃ tail, (tail = [] ∨ tail = [[]])
          ∧ raw_lines cur (data ++ [ascii_of_nat 10]) = raw_lines cur data ++ tail.
Proof.
  revert cur. induction data as [|c data IH]; intros cur.
  - cbn [app raw_lines]. rewrite Ascii.eqb_refl.
    destruct cur as [|x cur].
    + exists [[]]. split; [by right | done].
    + exists []. split; [by left | done].
  - cbn [app raw_lines]. destruct (Ascii.eqb c (ascii_of_nat 10)).
    + destruct (IH []) as (tail & Htail & ->). by exists tail.
    + apply IH.
Qed.

Lemma read_loop_blank_tail path readErr lines lineNo rows :
  read_loop Unmarshal path readErr (lines ++ [[]]) lineNo rows
  = read_loop Unmarshal path readErr lines lineNo rows.
Proof.
  revert lineNo rows. induction lines as [|l lines IH]; intros lineNo rows.
  - reflexivity.
  - cbn [app read_loop]. destruct (too_long maxLineSize l); [done|].
    destruct (String.eqb (TrimSpace (token l)) ""); [apply IH|].
    destruct (Unmarshal (TrimSpace (token l))); [apply IH | done].
Qed.

(** ndjson.go, [ReadNDJSON]: the line feed after the last line is
    optional.  A file and the same file with one more line feed at its
    end are read to the same rows, or to the same error. *)
Theorem ReadNDJSON_final_newline (Open Open' : string → source) (path data : string)
    (readErr : option string) :
  Open path = Opened data readErr →
  Open' path = Opened (data +:+ nl) readErr →
  ReadNDJSON Open' Unmarshal path = ReadNDJSON Open Unmarshal path.
Proof.
  intros Hopen Hopen'. unfold ReadNDJSON, physical_lines. rewrite Hopen, Hopen'.
  rewrite list_ascii_of_string_app.
  destruct (raw_lines_final_newline [] (list_ascii_of_string data))
    as (tail & [-> | ->] & Hlines);
    change (list_ascii_of_string nl) with [ascii_of_nat 10]; rewrite Hlines.
  - by rewrite app_nil_r.
  - apply read_loop_blank_tail.
Qed.

End ReaderTail.

Lemma ReadNDJSON_final_newline_witness :
  ReadNDJSON (λ _, Opened ("{a}" +:+ nl) None) sample_decoder "f"
  = ReadNDJSON (λ _, Opened "{a}" None) sample_decoder "f".
Proof.
  by apply (ReadNDJSON_final_newline sample_decoder (λ _, Opened "{a}" None)
              (λ _, Opened ("{a}" +:+ nl) None) "f" "{a}" None).
Defined.

(** ** Carriage returns *)

Section TrimFacts.

Import GoNum GoLib.

Ltac split_vars :=
  repeat match goal with
         | |- context [match ?v with _ => _ end] => is_var v; destruct v
         end.

Ltac split_matches :=
  repeat match goal with
         | |- context [match ?v with _ => _ end] => destruct v
         end.

Lemma space_rune_len_le (b : list Z) : (space_rune_len b ≤ length b)%nat.
Proof.
  destruct b as [|x [|y [|z r]]]; cbn [length]; [done|..];
    unfold space_rune_len; split_matches; lia.
Qed.

Lemma space_rune_len_snoc (b : list Z) :
  b ≠ [] → space_rune_len (b ++ [13]) = space_rune_len b.
Proof.
  intros Hne. destruct b as [|x [|y [|z r]]]; [done|..];
    cbn [app]; unfold space_rune_len; split_vars; reflexivity.
Qed.

Lemma space_rune_len_rev_CR (b : list Z) : space_rune_len_rev (13 :: b) = 1%nat.
Proof.
  destruct b as [|y [|z r]]; [done|..];
    unfold space_rune_len_rev; split_vars; reflexivity.
Qed.

Lemma trim_with_nil (len : list Z → nat) (fuel : nat) :
  len [] = 0%nat → trim_with len fuel [] = [].
Proof. intros Hlen. destruct fuel; [done|]. cbn [trim_with]. by rewrite Hlen. Qed.

Lemma trim_left_snoc (fuel : nat) (b : list Z) :
  (length b ≤ fuel)%nat → b ≠ [] →
  trim_with space_rune_len (S fuel) (b ++ [13])
  = match trim_with space_rune_len fuel b with
    | [] => []
    | t => t ++ [13]
    end.
Proof.
  revert b. induction fuel as [|fuel IH]; intros b Hlen Hne.
  - destruct b; [done | cbn [length] in Hlen; lia].
  - cbn [trim_with]. rewrite space_rune_len_snoc by done.
    pose proof (space_rune_len_le b) as Hle.
    destruct (space_rune_len b) as [|k] eqn:Hk.
    + by destruct b.
    + rewrite drop_app_le by done.
      destruct (drop (S k) b) as [|x b'] eqn:Hdrop.
      * change (trim_with space_rune_len (S fuel) [13]
                = match trim_with space_rune_len fuel [] with
                  | [] => []
                  | t => t ++ [13]
                  end).
        rewrite (trim_with_nil _ fuel) by done.
        cbn [trim_with]. change (space_rune_len [13]) with 1%nat.
        cbn [drop]. by rewrite trim_with_nil.
      * rewrite <- Hdrop. apply IH.
        -- rewrite length_drop. destruct b; [done|]. cbn [length] in *. lia.
        -- by rewrite Hdrop.
Qed.

Lemma bytes_of_list (l : list ascii) :
  bytes_of_string (string_of_list_ascii l) = byte_of <$> l.
Proof. unfold bytes_of_string. by rewrite list_ascii_of_string_of_list_ascii. Qed.

(** [strings.TrimSpace] takes a carriage return at the end for the white
    space it is. *)
Lemma TrimSpace_CR (l : list ascii) :
  TrimSpace (string_of_list_ascii (l ++ [ascii_of_nat 13]))
  = TrimSpace (string_of_list_ascii l).
Proof.
  unfold TrimSpace. rewrite !bytes_of_list, fmap_app.
  change (byte_of <$> [ascii_of_nat 13]) with [13].
  set (b := byte_of <$> l). cbv zeta.
  rewrite length_app. cbn [length]. rewrite Nat.add_1_r.
  destruct (decide (b = [])) as [->|Hne]; [reflexivity|].
  rewrite trim_left_snoc by done.
  destruct (trim_with space_rune_len (length b) b) as [|x t] eqn:Ht; [done|].
  rewrite rev_app_distr, length_app. cbn [length rev app]. rewrite Nat.add_1_r.
  cbn [trim_with]. rewrite space_rune_len_rev_CR. by cbn [drop].
Qed.

Lemma dropCR_snoc (l : list ascii) : dropCR (l ++ [ascii_of_nat 13]) = l.
Proof.
  unfold dropCR. rewrite rev_app_distr. cbn [rev app].
  by rewrite Ascii.eqb_refl, rev_involutive.
Qed.

Lemma token_CR (l : list ascii) :
  TrimSpace (token (l ++ [ascii_of_nat 13])) = TrimSpace (token l).
Proof.
  unfold token. rewrite dropCR_snoc. unfold dropCR.
  destruct (rev l) as [|c r] eqn:Hrev; [done|].
  destruct (Ascii.eqb_spec c (ascii_of_nat 13)) as [->|]; [|done].
  apply (f_equal (@rev ascii)) in Hrev. rewrite rev_involutive in Hrev.
  rewrite Hrev. cbn [rev]. apply TrimSpace_CR.
Qed.

Variable Unmarshal : string → Row + string.

Lemma read_loop_crlf path readErr (data cur : list ascii) lineNo rows :
  forallb (λ l, negb (Z.of_nat (length l) =? maxLineSize - 1)) (raw_lines cur data) = true →
  read_loop Unmarshal path readErr
    (raw_lines cur (list_ascii_of_string (crlf (string_of_list_ascii data)))) lineNo rows
  = read_loop Unmarshal path readErr (raw_lines cur data) lineNo rows.
Proof.
  revert cur lineNo rows. induction data as [|c data IH]; intros cur lineNo rows Hoff.
  - reflexivity.
  - cbn [string_of_list_ascii crlf]. cbn [raw_lines] in Hoff |- *.
    destruct (Ascii.eqb_spec c (ascii_of_nat 10)) as [->|Hc].
    + cbn [list_ascii_of_string raw_lines].
      change (Ascii.eqb (ascii_of_nat 13) (ascii_of_nat 10)) with false.
      cbn match. rewrite Ascii.eqb_refl.
      cbn [forallb] in Hoff. apply andb_true_iff in Hoff as [Hl Hoff].
      cbn [rev read_loop]. rewrite token_CR.
      unfold too_long. rewrite length_app. cbn [length].
      apply negb_true_iff, Z.eqb_neq in Hl.
      destruct (Z.leb_spec maxLineSize (Z.of_nat (length (rev cur))));
        destruct (Z.leb_spec maxLineSize (Z.of_nat (length (rev cur) + 1))); try lia;
        [done|].
      destruct (String.eqb (TrimSpace (token (rev cur))) ""); [by apply IH|].
      destruct (Unmarshal (TrimSpace (token (rev cur)))); [by apply IH | done].
    + cbn [list_ascii_of_string raw_lines].
      destruct (Ascii.eqb_spec c (ascii_of_nat 10)) as [|_]; [done|]. by apply IH.
Qed.

(** ndjson.go, [ReadNDJSON]: line endings.  A file whose lines end in a
    carriage return and a line feed is read to the same rows, or to the
    same error, as the file whose lines end in the line feed alone, when
    no line is one byte short of the scanner's limit. *)
Theorem ReadNDJSON_crlf (Open Open' : string → source) (path data : string)
    (readErr : option string) :
  Open path = Opened data readErr →
  Open' path = Opened (crlf data) readErr →
  off_limit data = true →
  ReadNDJSON Open' Unmarshal path = ReadNDJSON Open Unmarshal path.
Proof.
  intros Hopen Hopen' Hoff. unfold ReadNDJSON, physical_lines. rewrite Hopen, Hopen'.
  rewrite <- (string_of_list_ascii_of_string data) at 1.
  by apply read_loop_crlf.
Qed.

End TrimFacts.

Lemma ReadNDJSON_crlf_witness :
  ReadNDJSON (λ _, Opened (crlf ("{a}" +:+ nl +:+ "{b}" +:+ nl)) None) sample_decoder "f"
  = ReadNDJSON (λ _, Opened ("{a}" +:+ nl +:+ "{b}" +:+ nl) None) sample_decoder "f".
Proof.
  by apply (ReadNDJSON_crlf sample_decoder (λ _, Opened ("{a}" +:+ nl +:+ "{b}" +:+ nl) None)
              (λ _, Opened (crlf ("{a}" +:+ nl +:+ "{b}" +:+ nl)) None) "f"
              ("{a}" +:+ nl +:+ "{b}" +:+ nl) None).
Defined.

(** ** Decimal keys *)

Section DecimalFacts.

Import GoNum GoLib.

Lemma Itoa_inj (n m : Z) : Itoa n = Itoa m → n = m.
Proof.
  unfold Itoa. intros Heq. apply DecimalZ.to_int_inj.
  apply (f_equal NilEmpty.int_of_string) in Heq.
  rewrite !NilEmpty.isi in Heq. congruence.
Qed.

Lemma scan_digits_acc (d : Decimal.uint) (a : positive) :
  scan_digits (NilEmpty.string_of_uint d) (Z.pos a) = Z.pos (Pos.of_uint_acc d a).
Proof.
  revert a. induction d as [|d IH|d IH|d IH|d IH|d IH|d IH|d IH|d IH|d IH|d IH];
    intros a; [done|..];
    cbn [NilEmpty.string_of_uint scan_digits Pos.of_uint_acc];
    match goal with
    | |- context [is_digit ?c] => change (is_digit c) with true
    end; cbv iota;
    match goal with
    | |- scan_digits _ ?x = _ =>
        match type of IH with
        | ∀ a, _ = Z.pos (Pos.of_uint_acc _ a) =>
            match goal with
            | |- _ = Z.pos (Pos.of_uint_acc _ ?b) =>
                replace x with (Z.pos b) by (vm_compute byte_of; lia)
            end
        end
    end; apply IH.
Qed.

Lemma scan_digits_uint (d : Decimal.uint) :
  scan_digits (NilEmpty.string_of_uint d) 0 = Z.of_N (Pos.of_uint d).
Proof.
  induction d as [|d IH|d IH|d IH|d IH|d IH|d IH|d IH|d IH|d IH|d IH]; [done|..];
    cbn [NilEmpty.string_of_uint scan_digits Pos.of_uint];
    match goal with
    | |- context [is_digit ?c] => change (is_digit c) with true
    end; cbv iota; [exact IH|..]; apply scan_digits_acc.
Qed.
Lemma scan_number_uint (p : positive) :
  scan_number (NilEmpty.string_of_uint (Pos.to_uint p)) = Some (Z.pos p).
Proof.
  pose proof (scan_digits_uint (Pos.to_uint p)) as Hscan.
  rewrite DecimalPos.Unsigned.of_to in Hscan.
  pose proof (DecimalPos.Unsigned.to_uint_nonnil p) as Hnil.
  unfold scan_number.
  destruct (Pos.to_uint p) as [|d|d|d|d|d|d|d|d|d|d]; [done|..];
    cbn [NilEmpty.string_of_uint] in *;
    match goal with
    | |- context [is_digit ?c] => change (is_digit c) with true
    end; cbv iota; by rewrite Hscan.
Qed.

Lemma skip_space_digit (fuel : nat) (c : ascii) (s : string) :
  is_digit c = true ∨ c = "-"%char → skip_space fuel (String c s) = Some (String c s).
Proof.
  intros Hc. destruct fuel as [|fuel]; [done|].
  cbn [skip_space]. unfold bytes_of_string.
  cbn [list_ascii_of_string fmap list_fmap].
  assert (45 ≤ byte_of c ≤ 57) as Hb.
  { destruct Hc as [Hc| ->]; [|by vm_compute].
    unfold is_digit in Hc. lia. }
  destruct (Z.eqb_spec (byte_of c) 10); [lia|].
  destruct (byte_of c) as [|b|b]; try lia.
  do 8 (destruct b as [b|b|]; try lia; try reflexivity).
Qed.

(** [fmt.Sscanf] with "%d" reads back what [strconv.Itoa] wrote. *)
Lemma Sscanf_Itoa (n : Z) : in_int n = true → Sscanf_d (Itoa n) = Some n.
Proof.
  intros Hn. unfold Sscanf_d, Itoa, Z.to_int.
  destruct n as [|p|p].
  - by vm_compute.
  - cbn [NilEmpty.string_of_int].
    pose proof (scan_number_uint p) as Hscan.
    pose proof (DecimalPos.Unsigned.to_uint_nonnil p) as Hnil.
    destruct (Pos.to_uint p) as [|d|d|d|d|d|d|d|d|d|d]; [done|..];
      cbn [NilEmpty.string_of_uint] in *;
      (rewrite skip_space_digit by (by left)); cbn [mbind option_bind];
      rewrite Hscan; cbn [mbind option_bind]; by rewrite Hn.
  - cbn [NilEmpty.string_of_int].
    rewrite skip_space_digit by (by right). cbn [mbind option_bind].
    rewrite scan_number_uint. cbn [fmap option_fmap option_map mbind option_bind].
    change (- Z.pos p) with (Z.neg p). by rewrite Hn.
Qed.

Context `{GoRuntime}.

Lemma decimal_keys_spec (ec : Row) (k : string) (v : value) :
  decimal_keys ec = true → ec !! k = Some v →
  ∃ n, Sscanf_d k = Some n ∧ Itoa n = k.
Proof.
  unfold decimal_keys. rewrite forallb_forall. intros Hall Hk.
  specialize (Hall k).
  destruct (Sscanf_d k) as [n|].
  - exists n. split; [done|]. apply String.eqb_eq, Hall, list_elem_of_In.
    apply list_elem_of_fmap. exists (k, v). split; [done|]. by apply elem_of_map_to_list.
  - assert (false = true); [|done]. apply Hall, list_elem_of_In.
    apply list_elem_of_fmap. exists (k, v). split; [done|]. by apply elem_of_map_to_list.
Qed.

Lemma decimal_keys_agree (ec : Row) : decimal_keys ec = true → codes_agree ec = true.
Proof.
  intros Hdec. unfold codes_agree.
  apply forallb_forall. intros [k1 v1] H1%list_elem_of_In%elem_of_map_to_list.
  apply forallb_forall. intros [k2 v2] H2%list_elem_of_In%elem_of_map_to_list.
  destruct (decimal_keys_spec ec k1 v1 Hdec H1) as (n1 & -> & <-).
  destruct (decimal_keys_spec ec k2 v2 Hdec H2) as (n2 & -> & <-).
  destruct (Z.eqb_spec n1 n2) as [->|]; [|done].
  rewrite H1 in H2. injection H2 as ->. simpl. apply Z.eqb_refl.
Qed.

Lemma normExitCodes_decimal (ec : Row) (n : Z) :
  decimal_keys ec = true → normExitCodes ec !! n = toInt <$> ec !! Itoa n.
Proof.
  intros Hdec. pose proof (decimal_keys_agree ec Hdec) as Hagree.
  destruct (ec !! Itoa n) as [v|] eqn:Hv; simpl.
  - apply normExitCodes_lookup; [done|]. exists (Itoa n), v. split; [done|].
    destruct (decimal_keys_spec ec _ v Hdec Hv) as (m & Hm & Heq).
    apply Itoa_inj in Heq. subst m. by split.
  - destruct (normExitCodes ec !! n) as [c|] eqn:Hc; [|done].
    apply normExitCodes_lookup in Hc as (k & v & Hk & Hscan & _); [|done].
    destruct (decimal_keys_spec ec k v Hdec Hk) as (m & Hm & <-).
    congruence.
Qed.

Lemma scanned_keys_decimal (ec : Row) :
  decimal_keys ec = true →
  scanned_keys (range_keys ec) ≡ₚ elements (dom (normExitCodes ec)).
Proof.
  intros Hdec. unfold scanned_keys. apply NoDup_Permutation.
  - assert (NoDup (range_keys ec)) as Hnd
      by (rewrite range_keys_perm; apply NoDup_fst_map_to_list).
    assert (∀ k, k ∈ range_keys ec → ∃ n, Sscanf_d k = Some n ∧ Itoa n = k) as Hkeys.
    { intros k [v Hv]%elem_of_range_keys. by apply (decimal_keys_spec ec k v). }
    induction Hnd as [|k keys Hnotin Hnd IH]; [constructor|].
    cbn [omap list_omap].
    destruct (Hkeys k ltac:(left)) as (n & Hn & Hitoa). rewrite Hn.
    constructor.
    + intros (k' & Hin & Hk')%list_elem_of_omap.
      destruct (Hkeys k' ltac:(by right)) as (n' & Hn' & Hitoa').
      assert (n' = n) by congruence. subst n'. congruence.
    + apply IH. intros k' Hin. apply Hkeys. by right.
  - apply NoDup_elements.
  - intros n. rewrite list_elem_of_omap, elem_of_elements, elem_of_dom.
    rewrite normExitCodes_decimal by done. split.
    + intros (k & [v Hv]%elem_of_range_keys & Hscan).
      destruct (decimal_keys_spec ec k v Hdec Hv) as (m & Hm & <-).
      assert (m = n) by congruence. subst m. rewrite Hv. by eexists.
    + intros [c Hc]. destruct (ec !! Itoa n) as [v|] eqn:Hv; [|done].
      exists (Itoa n). split; [apply elem_of_range_keys; by eexists|].
      destruct (decimal_keys_spec ec _ v Hdec Hv) as (m & Hm & Heq).
      apply Itoa_inj in Heq. by subst m.
Qed.

(** diff.go, [normExitCodes] and [formatExitCodes]: for a map whose keys
    are decimal numbers as [strconv.Itoa] writes them, the normalized
    map holds under each code the count that the map holds under the
    text of the code, and the text of the map lists the normalized map,
    code by code in ascending order, as "code:count" parted by commas. *)
Theorem exit_codes_of_decimal_keys (ec : Row) :
  decimal_keys ec = true →
  (∀ n, normExitCodes ec !! n = toInt <$> ec !! Itoa n)
  ∧ formatExitCodes ec
    = Join ((λ n, Itoa n +:+ ":" +:+ Itoa (default 0 (normExitCodes ec !! n)))
              <$> sort_Ints (elements (dom (normExitCodes ec)))) ",".
Proof.
  intros Hdec. split; [intros n; by apply normExitCodes_decimal|].
  unfold formatExitCodes.
  rewrite (sort_Ints_perm _ _ (scanned_keys_decimal ec Hdec)).
  assert ((λ k, Itoa k +:+ ":" +:+ Itoa (toInt (get ec (Itoa k))))
            <$> sort_Ints (elements (dom (normExitCodes ec)))
          = (λ n, Itoa n +:+ ":" +:+ Itoa (default 0 (normExitCodes ec !! n)))
              <$> sort_Ints (elements (dom (normExitCodes ec)))) as ->.
  { apply list_fmap_ext. intros _ n _.
    rewrite normExitCodes_decimal by done. unfold get.
    by destruct (ec !! Itoa n). }
  destruct (size ec =? 0)%nat eqn:Hsize; [|done].
  apply Nat.eqb_eq, map_size_empty_iff in Hsize. subst ec.
  assert (normExitCodes ∅ = ∅) as ->
    by (unfold normExitCodes, range_map; by rewrite map_to_list_empty, range_nil).
  by rewrite dom_empty_L, elements_empty.
Qed.

End DecimalFacts.

Lemma exit_codes_of_decimal_keys_witness :
  @formatExitCodes forward_runtime (list_to_map [ ("70", VFloat 3); ("1", VFloat 2) ])
  = "1:2,70:3".
Proof.
  destruct (exit_codes_of_decimal_keys (H := forward_runtime)
              (list_to_map [ ("70", VFloat 3); ("1", VFloat 2) ])) as [_ ->];
    vm_compute; reflexivity.
Defined.

(** ** The layout of the probe failures *)

Section LayoutFacts.

Import GoNum GoLib.
Context `{GoRuntime} `{GoPrinter}.

Lemma for_each_topics (byTopic : gmap string (list probeEntry)) (topics : list string)
    (out : string) :
  for_each topics (λ topic,
    let items := default [] (byTopic !! topic) in
    Print (nl +:+ "### " +:+ topic +:+ nl) ;;
    for_each items (λ e, Println (format_entry e))) out
  = (tt, out +:+ foldr (λ topic acc,
                          nl +:+ "### " +:+ topic +:+ nl
                            +:+ lines_of (format_entry <$> default [] (byTopic !! topic))
                            +:+ acc) "" topics).
Proof.
  revert out. induction topics as [|topic topics IH]; intros out.
  - simpl. unfold mret, IO_ret. by rewrite append_nil_r.
  - cbn [for_each foldr]. unfold mbind, IO_bind at 1. cbv zeta.
    unfold mbind, IO_bind at 1, Print. rewrite for_each_Println.
    rewrite IH. by rewrite !append_assoc.
Qed.

(** diff.go, [emitProbeFailuresDelta]: with at least one entry the
    section is its header, then for each topic of [TopicOrder] that has
    an entry, in the order of [TopicOrder]: an empty line, "### " and
    the topic, and the lines of the entries of the topic in the order of
    the entries; an empty line ends the section, and the emitter returns
    true.  No topic is printed twice or without an entry, in whatever
    order the maps are visited. *)
Theorem probe_section_layout (basePF currPF : option Row) :
  let entries := buildProbeFailureEntries basePF currPF in
  entries ≠ [] →
  run_IO (emitProbeFailuresDelta basePF currPF)
  = (true, "## Probe failures delta" +:+ nl +:+ topic_sections entries +:+ nl).
Proof.
  intros entries Hne. unfold emitProbeFailuresDelta, run_IO. fold entries.
  clearbody entries.
  assert ((length entries =? 0)%nat = false) as -> by (destruct entries; [congruence | done]).
  clear Hne.
  unfold mbind, IO_bind at 1, Println at 1.
  unfold mbind, IO_bind at 1. rewrite for_each_topics.
  unfold mbind, IO_bind, Println, mret, IO_ret.
  rewrite topics_in_TopicOrder. unfold topic_sections.
  f_equal.
  assert (∀ topics,
            foldr (λ topic acc,
                     nl +:+ "### " +:+ topic +:+ nl
                       +:+ lines_of (format_entry <$>
                                       default [] (group_by_topic entries !! topic))
                       +:+ acc) "" topics
            = foldr (λ topic acc,
                       nl +:+ "### " +:+ topic +:+ nl
                         +:+ lines_of (format_entry <$>
                                         filter (λ e, ProbeTopic (probe e) = topic) entries)
                         +:+ acc) "" topics) as ->.
  { intros topics. induction topics as [|topic topics IH]; [done|].
    cbn [foldr]. by rewrite IH, group_by_topic_lookup. }
  by rewrite !append_assoc.
Qed.

End LayoutFacts.

Lemma probe_section_layout_witness :
  run_IO (@emitProbeFailuresDelta forward_runtime string_printer None
            (Some (probe_summary [ probe_item "network.lsof_listen" 2 {[ "1" := VFloat 2 ]} ])))
  = (true, "## Probe failures delta" +:+ nl +:+ nl +:+ "### Network" +:+ nl
             +:+ "  + network.lsof_listen failed 2× (tight burst), exit_codes: {1:2}" +:+ nl
             +:+ nl).
Proof.
  rewrite (@probe_section_layout forward_runtime string_printer None
             (Some (probe_summary
                      [ probe_item "network.lsof_listen" 2 {[ "1" := VFloat 2 ]} ]))).
  - vm_compute. reflexivity.
  - vm_compute. discriminate.
Defined.

(** ** Parts of a stream, and keys that are no integer *)

Section StreamFacts.

Import GoNum GoLib.
Context `{GoRuntime} `{GoPrinter}.

(** ndjson.go, [GroupByType] and [CollectWarningCodes]: of two parts of a
    stream read one after the other, the index holds for each type the
    row of the later part when it has one of this type, and that of the
    earlier part otherwise; the warning codes are those of both parts. *)
Theorem streams_compose (earlier later : list Row) :
  GroupByType (earlier ++ later) = GroupByType later ∪ GroupByType earlier
  ∧ CollectWarningCodes (earlier ++ later)
    = CollectWarningCodes earlier ∪ CollectWarningCodes later.
Proof.
  split.
  - apply map_eq. intros t. rewrite lookup_union, !GroupByType_lookup.
    destruct (String.eqb t ""); [done|].
    rewrite filter_app, last_app.
    by destruct (last (filter _ later)), (last (filter _ earlier)).
  - apply leibniz_equiv. intros c.
    rewrite elem_of_union, !elem_of_CollectWarningCodes.
    setoid_rewrite elem_of_app. naive_solver.
Qed.

Lemma Sscanf_d_in_int (s : string) (n : Z) : Sscanf_d s = Some n → in_int n = true.
Proof.
  unfold Sscanf_d. destruct (skip_space _ s) as [s1|]; [|done]. cbn [mbind option_bind].
  match goal with |- context [mbind _ ?x] => destruct x as [r|] end; [|done].
  cbn [mbind option_bind]. destruct (in_int r) eqn:Hr; [|done]. by intros [= <-].
Qed.

Lemma key_codes_insert (ec : Row) (k : string) (v : value) :
  Sscanf_d k = None → ec !! k = None → key_codes (<[ k := v ]> ec) = key_codes ec.
Proof.
  intros Hscan Hfresh. unfold key_codes. apply leibniz_equiv. intros n.
  rewrite !elem_of_list_to_set, !list_elem_of_omap.
  setoid_rewrite list_elem_of_fmap. setoid_rewrite elem_of_map_to_list'.
  split.
  - intros (k' & ([k'' v'] & -> & Hin) & Hn). simpl in *.
    apply lookup_insert_Some in Hin as [[<- _]|[Hne Hin]]; [congruence|].
    exists k''. split; [|done]. by exists (k'', v').
  - intros (k' & ([k'' v'] & -> & Hin) & Hn). simpl in *.
    exists k''. split; [|done]. exists (k'', v'). split; [done|]. simpl.
    rewrite lookup_insert_ne; [done|]. congruence.
Qed.

Lemma codes_agree_insert (ec : Row) (k : string) (v : value) :
  Sscanf_d k = None → codes_agree ec = true → codes_agree (<[ k := v ]> ec) = true.
Proof.
  intros Hscan Hagree. unfold codes_agree in *.
  rewrite forallb_forall in Hagree.
  apply forallb_forall. intros [k1 v1] H1%list_elem_of_In%elem_of_map_to_list.
  apply forallb_forall. intros [k2 v2] H2%list_elem_of_In%elem_of_map_to_list.
  apply lookup_insert_Some in H1 as [[<- _]|[Hne1 H1]]; [by rewrite Hscan|].
  apply lookup_insert_Some in H2 as [[<- _]|[Hne2 H2]];
    [rewrite Hscan; by destruct (Sscanf_d k1)|].
  specialize (Hagree (k1, v1)). rewrite forallb_forall in Hagree.
  apply (Hagree ltac:(by apply list_elem_of_In, elem_of_map_to_list) (k2, v2)).
  by apply list_elem_of_In, elem_of_map_to_list.
Qed.

(** classify.go and diff.go, [ExpectedState], [normExitCodes] and
    [formatExitCodes]: a key of an exit-code map that does not scan as
    an integer counts for nothing.  Adding such a key to a map changes
    neither the expected state of a probe, nor the normalized map that
    [probeFailureIsChanged] compares, nor the text of the exit codes. *)
Theorem non_integer_key_ignored (probe : string) (ec : Row) (k : string) (v : value) :
  Sscanf_d k = None → ec !! k = None → codes_agree ec = true →
  ExpectedState probe (<[ k := v ]> ec) = ExpectedState probe ec
  ∧ normExitCodes (<[ k := v ]> ec) = normExitCodes ec
  ∧ formatExitCodes (<[ k := v ]> ec) = formatExitCodes ec.
Proof.
  intros Hscan Hfresh Hagree. split; [|split].
  - by rewrite !ExpectedState_three_way, key_codes_insert.
  - pose proof (codes_agree_insert ec k v Hscan Hagree) as Hagree'.
    apply map_eq. intros n. apply option_eq. intros z.
    rewrite !normExitCodes_lookup by done. split.
    + intros (k' & v' & Hin & Hn & Hz).
      apply lookup_insert_Some in Hin as [[<- _]|[Hne Hin]]; [congruence|].
      by exists k', v'.
    + intros (k' & v' & Hin & Hn & Hz). exists k', v'. split; [|done].
      rewrite lookup_insert_ne; [done|]. congruence.
  - unfold formatExitCodes.
    assert (scanned_keys (range_keys (<[ k := v ]> ec)) ≡ₚ scanned_keys (range_keys ec))
      as Hperm.
    { unfold scanned_keys. rewrite !range_keys_perm.
      rewrite (map_to_list_insert ec k v Hfresh). cbn [fmap list_fmap fst omap list_omap].
      by rewrite Hscan. }
    rewrite (sort_Ints_perm _ _ Hperm).
    assert ((λ n, Itoa n +:+ ":" +:+ Itoa (toInt (get (<[ k := v ]> ec) (Itoa n))))
              <$> sort_Ints (scanned_keys (range_keys ec))
            = (λ n, Itoa n +:+ ":" +:+ Itoa (toInt (get ec (Itoa n))))
                <$> sort_Ints (scanned_keys (range_keys ec))) as ->.
    { apply list_fmap_ext. intros _ n Hn%list_elem_of_lookup_2.
      unfold sort_Ints in Hn. rewrite merge_sort_Permutation in Hn.
      apply list_elem_of_omap in Hn as (k' & _ & Hk').
      apply Sscanf_d_in_int, Sscanf_Itoa in Hk'.
      unfold get. rewrite lookup_insert_ne; [done|]. congruence. }
    rewrite map_size_insert_None by done.
    destruct (size ec =? 0)%nat eqn:Hsize; [|done].
    apply Nat.eqb_eq, map_size_empty_iff in Hsize. subst ec.
    cbn [Nat.eqb]. unfold scanned_keys, range_keys, range_map.
    by rewrite map_to_list_empty, range_nil.
Qed.

End StreamFacts.

Lemma non_integer_key_ignored_witness :
  @formatExitCodes forward_runtime (<[ "n/a" := VFloat 4 ]> {[ "1" := VFloat 2 ]}) = "1:2".
Proof.
  destruct (non_integer_key_ignored (H := forward_runtime) "x" {[ "1" := VFloat 2 ]}
              "n/a" (VFloat 4)) as (_ & _ & ->); vm_compute; reflexivity.
Defined.

(** ** The text of an exit-code delta *)

Section DeltaText.

Import GoNum GoLib.
Context `{GoRuntime}.

Lemma omap_filter {A B} (P : A → Prop) `{∀ x, Decision (P x)} (g : A → B)
    (f : A → option B) (l : list A) :
  (∀ x, f x = if decide (P x) then Some (g x) else None) →
  omap f l = g <$> filter P l.
Proof.
  intros Hf. induction l as [|x l IH]; [done|].
  cbn [omap list_omap]. rewrite filter_cons, Hf, IH. by case_decide.
Qed.

Lemma scanned_keys_NoDup (keys : list string) :
  NoDup keys → (∀ k, k ∈ keys → ∃ n, Sscanf_d k = Some n ∧ Itoa n = k) →
  NoDup (scanned_keys keys).
Proof.
  unfold scanned_keys. intros Hnd Hkeys.
  induction Hnd as [|k keys Hnotin Hnd IH]; [constructor|].
  cbn [omap list_omap].
  destruct (Hkeys k ltac:(left)) as (n & Hn & Hitoa). rewrite Hn.
  constructor.
  - intros (k' & Hin & Hk')%list_elem_of_omap.
    destruct (Hkeys k' ltac:(by right)) as (n' & Hn' & Hitoa').
    assert (n' = n) by congruence. subst n'. congruence.
  - apply IH. intros k' Hin. apply Hkeys. by right.
Qed.

Lemma occurrences_decimal (ec : Row) (n : Z) :
  decimal_keys ec = true → occurrences (normExitCodes ec) n = toInt (get ec (Itoa n)).
Proof.
  intros Hdec. unfold occurrences, get. rewrite normExitCodes_decimal by done.
  by destruct (ec !! Itoa n).
Qed.

(** diff.go, [exitCodesDelta], [formatExitCodesDelta] and
    [formatProbeEntryChanged]: for two maps with decimal keys, the text
    of the delta lists the codes that occur a different number of times
    in the two normalized maps, and no other, in ascending order, each
    with the difference of its two counts (current less baseline, a
    code that is missing counting 0), a "+" before a difference above
    0; the differences are parted by a comma and a space. *)
Theorem delta_text_of_decimal_keys (baseEC currEC : Row) :
  decimal_keys baseEC = true → decimal_keys currEC = true →
  let nb := normExitCodes baseEC in
  let nc := normExitCodes currEC in
  let d := λ n, wrap_int (occurrences nc n - occurrences nb n) in
  formatExitCodesDelta (exitCodesDelta baseEC currEC)
  = Join ((λ n, Itoa n +:+ ":" +:+ (if 0 <? d n then "+" else "") +:+ Itoa (d n))
            <$> filter (λ n, d n ≠ 0) (sort_Ints (elements (dom nb ∪ dom nc)))) ", ".
Proof.
  intros Hb Hc nb nc d. unfold formatExitCodesDelta.
  set (delta := exitCodesDelta baseEC currEC).
  assert (∀ k, is_Some (delta !! k) ↔ is_Some (baseEC !! k) ∨ is_Some (currEC !! k))
    as Hdom.
  { intros k. unfold delta. rewrite exitCodesDelta_lookup.
    case_decide; split; try done; by eauto. }
  assert (∀ k, k ∈ range_keys delta → ∃ n, Sscanf_d k = Some n ∧ Itoa n = k) as Hkeys.
  { intros k [[v Hv]|[v Hv]]%elem_of_range_keys%Hdom.
    - apply (decimal_keys_spec baseEC k v Hb Hv).
    - apply (decimal_keys_spec currEC k v Hc Hv). }
  assert (scanned_keys (range_keys delta) ≡ₚ elements (dom nb ∪ dom nc)) as Hperm.
  { apply NoDup_Permutation.
    - apply scanned_keys_NoDup; [|done].
      rewrite range_keys_perm. apply NoDup_fst_map_to_list.
    - apply NoDup_elements.
    - intros n. unfold scanned_keys.
      rewrite list_elem_of_omap, elem_of_elements, elem_of_union, !elem_of_dom.
      unfold nb, nc. rewrite !normExitCodes_decimal by done.
      rewrite !fmap_is_Some. split.
      + intros (k & Hin & Hscan).
        destruct (Hkeys k Hin) as (m & Hm & <-).
        assert (m = n) by congruence. subst m.
        by apply elem_of_range_keys, Hdom in Hin.
      + intros Hin. exists (Itoa n).
        assert (Itoa n ∈ range_keys delta) as Hk by (by apply elem_of_range_keys, Hdom).
        split; [done|]. destruct (Hkeys _ Hk) as (m & Hm & Heq).
        apply Itoa_inj in Heq. by subst m. }
  rewrite (sort_Ints_perm _ _ Hperm). f_equal.
  apply omap_filter. intros n. cbv zeta.
  assert (default 0 (delta !! Itoa n) = d n) as ->.
  { unfold delta, d, nb, nc. rewrite exitCodesDelta_lookup, !occurrences_decimal by done.
    case_decide as Hin; [done|].
    unfold get.
    destruct (baseEC !! Itoa n) eqn:?; [destruct Hin; by eauto|].
    destruct (currEC !! Itoa n) eqn:?; [destruct Hin; by eauto|]. done. }
  destruct (Z.eqb_spec (d n) 0) as [Hz|Hz]; simpl.
  - by rewrite decide_False by (by intros ?).
  - by rewrite decide_True.
Qed.

End DeltaText.

Lemma delta_text_of_decimal_keys_witness :
  @formatExitCodesDelta forward_runtime
    (@exitCodesDelta forward_runtime
       (list_to_map [ ("1", VFloat 3); ("70", VFloat 1) ])
       (list_to_map [ ("1", VFloat 1); ("70", VFloat 1); ("255", VFloat 2) ]))
  = "1:-2, 255:+2".
Proof.
  rewrite (@delta_text_of_decimal_keys forward_runtime
             (list_to_map [ ("1", VFloat 3); ("70", VFloat 1) ])
             (list_to_map [ ("1", VFloat 1); ("70", VFloat 1); ("255", VFloat 2) ]));
    vm_compute; reflexivity.
Defined.

(** ** The two tables of classify.go *)

Section TableFacts.

Import GoNum GoLib.
Context `{GoRuntime}.

Lemma prefix_trans (a b s : string) :
  String.prefix a b = true → String.prefix b s = true → String.prefix a s = true.
Proof.
  revert b s. induction a as [|x a IH]; intros b s; [by destruct s|].
  destruct b as [|y b]; [done|]. destruct s as [|z s]; [done|]. simpl.
  destruct (ascii_dec x y) as [->|]; [|done].
  destruct (ascii_dec y z) as [->|]; [|done]. apply IH.
Qed.

Lemma ProbeTopic_Other (probe pre topic : string) :
  ProbeTopic probe = "Other" → (pre, topic) ∈ map_to_list probeTopic →
  HasPrefix probe pre = false.
Proof.
  rewrite (ProbeTopic_any_order _ forward_runtime). unfold ProbeTopic.
  change (@range_map forward_runtime _ _ _ _ probeTopic) with (map_to_list probeTopic).
  destruct (first_prefix (map_to_list probeTopic) probe) as [t|] eqn:Hfirst.
  - intros -> _. apply first_prefix_Some in Hfirst as (pre' & Hin & _).
    assert (map_to_list probeTopic
            = [ ("storage.", "Storage"); ("config.", "Security");
                ("execution.", "Execution"); ("identity.", "Identity");
                ("network.", "Network"); ("persistence.", "Persistence") ]) as Hlist
      by (vm_compute; reflexivity).
    rewrite Hlist in Hin. clear Hlist.
    repeat (apply elem_of_cons in Hin as [Heq|Hin]; [by inversion Heq|]).
    apply elem_of_nil in Hin. destruct Hin.
  - intros _ Hin. by eapply first_prefix_None.
Qed.

(** classify.go, [ProbeSeverity] and [ProbeTopic]: the two tables agree,
    every prefix and every exact name that has a severity starts with a
    prefix that has a topic.  So a probe without a topic, one that is
    filed under "Other", is always of severity "low", and a probe of
    severity "high" or "medium" is always printed under a named topic. *)
Theorem topic_Other_is_low (probe : string) :
  ProbeTopic probe = "Other" → ProbeSeverity probe = "low".
Proof.
  intros Hother.
  assert (∀ pre topic sev, (pre, topic) ∈ map_to_list probeTopic →
            String.prefix pre sev = true → HasPrefix probe sev = false) as Hno.
  { intros pre topic sev Hin Hpre.
    destruct (HasPrefix probe sev) eqn:Hsev; [|done].
    rewrite <- (ProbeTopic_Other probe pre topic Hother Hin).
    unfold HasPrefix in *. symmetry. by eapply prefix_trans. }
  assert (map_to_list probeTopic
          = [ ("storage.", "Storage"); ("config.", "Security");
              ("execution.", "Execution"); ("identity.", "Identity");
              ("network.", "Network"); ("persistence.", "Persistence") ]) as Hlist
    by (vm_compute; reflexivity).
  rewrite Hlist in Hno. clear Hlist.
  unfold ProbeSeverity.
  destruct (probeSeverityExact !! probe) as [sev|] eqn:Hexact.
  - unfold probeSeverityExact in Hexact.
    apply lookup_singleton_Some in Hexact as [<- _].
    specialize (Hno "network." "Network" "network.socketfilterfw_stealth").
    rewrite elem_of_cons in Hno. unfold HasPrefix in Hno.
    assert (String.prefix "network.socketfilterfw_stealth"
              "network.socketfilterfw_stealth" = true) as Hself by reflexivity.
    rewrite Hno in Hself; [done| |reflexivity].
    right. rewrite !elem_of_cons. tauto.
  - destruct (first_prefix probeSeverityPrefix probe) as [sev|] eqn:Hpre; [|done].
    apply first_prefix_Some in Hpre as (pre & Hin & Hhas).
    unfold probeSeverityPrefix in Hin.
    repeat (apply elem_of_cons in Hin as [[= -> ->]|Hin];
            [first
               [ done
               | rewrite (Hno "config." "Security") in Hhas;
                 [done | rewrite !elem_of_cons; tauto | reflexivity]
               | rewrite (Hno "network." "Network") in Hhas;
                 [done | rewrite !elem_of_cons; tauto | reflexivity]
               | rewrite (Hno "identity." "Identity") in Hhas;
                 [done | rewrite !elem_of_cons; tauto | reflexivity]
               | rewrite (Hno "execution." "Execution") in Hhas;
                 [done | rewrite !elem_of_cons; tauto | reflexivity]
               | rewrite (Hno "persistence." "Persistence") in Hhas;
                 [done | rewrite !elem_of_cons; tauto | reflexivity] ]|]).
    apply elem_of_nil in Hin. destruct Hin.
Qed.

End TableFacts.

Lemma topic_Other_is_low_witness :
  @ProbeTopic forward_runtime "kernel.sysctl" = "Other"
  ∧ ProbeSeverity "kernel.sysctl" = "low".
Proof.
  split; [vm_compute; reflexivity|].
  apply (@topic_Other_is_low forward_runtime "kernel.sysctl"). vm_compute. reflexivity.
Defined.

(** ** The direction of a diff *)

Section DirectionFacts.

Import GoNum GoLib.
Context `{GoRuntime}.

Lemma changed_as_specified_sym (probe : string) (a b : Row) :
  changed_as_specified probe a b → changed_as_specified probe b a.
Proof.
  unfold changed_as_specified, distributions_differ.
  intros [Hcount|[[code Hcode]|Hstate]].
  - left. congruence.
  - right. left. exists code. congruence.
  - right. right. congruence.
Qed.

(** diff.go, [probeFailureIsChanged]: when no exit code of the two items
    counts 0 (and no two keys of a map scan as one code with different
    counts), a probe is changed from the baseline to the current
    snapshot exactly when it is changed in the other direction.  In
    general it is not: from {"2": 5} to {"1": 0} the probe is changed,
    and from {"1": 0} to {"2": 5} it is not. *)
Theorem probeFailureIsChanged_symmetric (probe : string) (baseIt currIt : Row) :
  codes_agree (getMap (Some baseIt) "exit_codes") = true →
  codes_agree (getMap (Some currIt) "exit_codes") = true →
  counts_nonzero (getMap (Some baseIt) "exit_codes") = true →
  counts_nonzero (getMap (Some currIt) "exit_codes") = true →
  probeFailureIsChanged probe (Some baseIt) (Some currIt)
  = probeFailureIsChanged probe (Some currIt) (Some baseIt)
  ∧ probeFailureIsChanged "x" (Some (probe_item "x" 5 {[ "2" := VFloat 5 ]}))
      (Some (probe_item "x" 5 {[ "1" := VFloat 0 ]}))
    ≠ probeFailureIsChanged "x" (Some (probe_item "x" 5 {[ "1" := VFloat 0 ]}))
        (Some (probe_item "x" 5 {[ "2" := VFloat 5 ]})).
Proof.
  intros Hab Hac Hnb Hnc. split.
  - pose proof (probeFailureIsChanged_spec probe baseIt currIt Hab Hac Hnb Hnc) as Hfwd.
    pose proof (probeFailureIsChanged_spec probe currIt baseIt Hac Hab Hnc Hnb) as Hbwd.
    destruct (probeFailureIsChanged probe (Some baseIt) (Some currIt)),
      (probeFailureIsChanged probe (Some currIt) (Some baseIt)); try done.
    + assert (true = true) as Hc by done. apply Hfwd, changed_as_specified_sym, Hbwd in Hc.
      done.
    + assert (true = true) as Hc by done. apply Hbwd, changed_as_specified_sym, Hfwd in Hc.
      done.
  - rewrite (probeFailureIsChanged_order_free H forward_runtime "x"
               (Some (probe_item "x" 5 {[ "2" := VFloat 5 ]})))
      by (vm_compute; reflexivity).
    rewrite (probeFailureIsChanged_order_free H forward_runtime "x"
               (Some (probe_item "x" 5 {[ "1" := VFloat 0 ]})))
      by (vm_compute; reflexivity).
    vm_compute. discriminate.
Qed.

End DirectionFacts.

Lemma probeFailureIsChanged_symmetric_witness :
  @probeFailureIsChanged forward_runtime "x"
    (Some (probe_item "x" 1 {[ "1" := VFloat 1 ]}))
    (Some (probe_item "x" 3 {[ "1" := VFloat 3 ]}))
  = @probeFailureIsChanged forward_runtime "x"
      (Some (probe_item "x" 3 {[ "1" := VFloat 3 ]}))
      (Some (probe_item "x" 1 {[ "1" := VFloat 1 ]})).
Proof.
  apply (@probeFailureIsChanged_symmetric forward_runtime "x"
           (probe_item "x" 1 {[ "1" := VFloat 1 ]})
           (probe_item "x" 3 {[ "1" := VFloat 3 ]})); vm_compute; reflexivity.
Defined.

(** ** Differences of floats *)

Section SubFacts.

Lemma shr_m_shr_1_div (r : shr_record) :
  0 <= shr_m r → 0 <= shr_m (shr_1 r) ∧ shr_m (shr_1 r) = shr_m r / 2.
Proof.
  intros Hm. pose proof (shr_m_shr_1 r Hm) as Hb. split; [lia|].
  apply Z.div_unique with (shr_m r - 2 * shr_m (shr_1 r)); lia.
Qed.

Lemma shr_m_iter (p : positive) (r : shr_record) :
  0 <= shr_m r →
  0 <= shr_m (SpecFloat.iter_pos shr_1 p r) ∧ shr_m (SpecFloat.iter_pos shr_1 p r) = shr_m r / 2 ^ Z.pos p.
Proof.
  revert r. induction p as [p IH|p IH|]; intros r Hm; cbn [SpecFloat.iter_pos].
  - destruct (shr_m_shr_1_div r Hm) as [H0 E0].
    destruct (IH _ H0) as [H1 E1]. destruct (IH _ H1) as [H2 E2].
    split; [done|]. rewrite E2, E1, E0.
    assert (0 < 2 ^ Z.pos p) by (apply Z.pow_pos_nonneg; lia).
    rewrite !Z.div_div by lia. f_equal.
    replace (Z.pos p~1) with (Z.pos p + Z.pos p + 1) by lia.
    rewrite !Z.pow_add_r by lia. change (2 ^ 1) with 2. lia.
  - destruct (IH _ Hm) as [H1 E1]. destruct (IH _ H1) as [H2 E2].
    split; [done|]. rewrite E2, E1.
    assert (0 < 2 ^ Z.pos p) by (apply Z.pow_pos_nonneg; lia).
    rewrite !Z.div_div by lia. f_equal.
    replace (Z.pos p~0) with (Z.pos p + Z.pos p) by lia.
    by rewrite Z.pow_add_r by lia.
  - destruct (shr_m_shr_1_div r Hm) as [H0 E0]. split; [done|]. by rewrite E0.
Qed.

Lemma shr_fexp_pos (m e : Z) (l : location) :
  0 < m → -1074 <= e →
  0 < shr_m (shr_fexp prec emax m e l).1 ∧ -1074 <= (shr_fexp prec emax m e l).2.
Proof.
  intros Hm He. unfold shr_fexp, shr.
  destruct (fexp64 (Zdigits2 m + e) - e) as [|p|p] eqn:Hn; cbn [fst snd];
    rewrite ?shr_m_of_loc; [lia| |lia].
  split; [|clear -He; lia].
  destruct (shr_m_iter p (shr_record_of_loc m l)) as [_ ->];
    rewrite shr_m_of_loc; [lia|].
  rewrite fexp64_eq in Hn.
  destruct m as [|q|q]; [lia| |lia]. cbn [Zdigits2] in Hn.
  pose proof (digits2_bounds q) as [Hlo _].
  assert (2 ^ Z.pos p <= 2 ^ (Z.pos (digits2_pos q) - 1))
    by (apply Z.pow_le_mono_r; lia).
  apply Z.div_str_pos. split; [apply Z.pow_pos_nonneg; lia | lia].
Qed.

Lemma round_finish_signed (s : bool) (m e : Z) :
  0 < m → -1074 <= e → signed s (round_finish s m e).
Proof.
  intros Hm He. unfold round_finish.
  pose proof (shr_fexp_pos m e loc_Exact Hm He) as [Hpos _].
  destruct (shr_fexp prec emax m e loc_Exact) as [mrs e']. cbn [fst] in Hpos.
  destruct (shr_m mrs); [lia| |lia]. by destruct (e' <=? emax - prec).
Qed.

Lemma binary_round_signed (s : bool) (m : positive) (e : Z) :
  -1074 <= e → signed s (binary_round prec emax s m e).
Proof.
  intros He. unfold binary_round.
  assert (-1074 <= fexp64 (Z.pos (digits2_pos m) + e)) by (rewrite fexp64_eq; lia).
  destruct (shl_align m e (fexp64 (Z.pos (digits2_pos m) + e))) as [mz ez] eqn:Hal.
  assert (-1074 <= ez) as Hez.
  { unfold shl_align in Hal.
    destruct (fexp64 (Z.pos (digits2_pos m) + e) - e); inversion Hal; lia. }
  rewrite binary_round_aux_finish.
  pose proof (shr_fexp_pos (Z.pos mz) ez loc_Exact ltac:(lia) Hez) as [Hpos He'].
  destruct (shr_fexp prec emax (Z.pos mz) ez loc_Exact) as [mrs e'].
  cbn [fst snd] in Hpos, He'.
  apply round_finish_signed; [|done].
  pose proof (round_nearest_even_bounds (shr_m mrs) (loc_of_shr_record mrs)). lia.
Qed.

Lemma shl_align_fst (m : positive) (e ez : Z) :
  ez <= e → Z.pos (shl_align m e ez).1 = Z.pos m * 2 ^ (e - ez).
Proof.
  intros Hle. unfold shl_align.
  destruct (ez - e) as [|d|d] eqn:Hd; cbn [fst]; [|lia|].
  - replace (e - ez) with 0 by lia. lia.
  - change (Pos.iter xO m d) with (shift_pos d m).
    rewrite shift_pos_correct, Zpower.Zpower_pos_nat, Zpower.Zpower_nat_Z.
    rewrite positive_nat_Z. replace (e - ez) with (Z.pos d) by lia. lia.
Qed.

Lemma canonical_exponent (m : positive) (e : Z) :
  bounded prec emax m e = true →
  -1074 <= e ∧ Z.pos (digits2_pos m) <= 53 ∧ (-1074 < e → Z.pos (digits2_pos m) = 53).
Proof.
  unfold bounded, canonical_mantissa. intros Hb.
  apply andb_true_iff in Hb as [Hc _]. apply Z.eqb_eq in Hc.
  rewrite fexp64_eq in Hc. lia.
Qed.

Lemma canonical_lt (mx my : positive) (ex ey : Z) :
  bounded prec emax mx ex = true → bounded prec emax my ey = true →
  ex < ey → Z.pos mx < Z.pos my * 2 ^ (ey - ex).
Proof.
  intros Hx Hy Hlt.
  destruct (canonical_exponent _ _ Hx) as (Hex & Hdx & _).
  destruct (canonical_exponent _ _ Hy) as (_ & _ & Hdy).
  pose proof (digits2_bounds mx) as [_ Hhi]. pose proof (digits2_bounds my) as [Hlo _].
  rewrite Hdy in Hlo by lia. change (2 ^ (53 - 1)) with 4503599627370496 in Hlo.
  assert (2 ^ Z.pos (digits2_pos mx) <= 2 ^ 53) by (apply Z.pow_le_mono_r; lia).
  change (2 ^ 53) with 9007199254740992 in *.
  assert (2 ^ 1 <= 2 ^ (ey - ex)) by (apply Z.pow_le_mono_r; lia).
  change (2 ^ 1) with 2 in *. nia.
Qed.

Lemma SFcompare_aligned (sx sy : bool) (mx my : positive) (ex ey : Z) :
  bounded prec emax mx ex = true → bounded prec emax my ey = true →
  SFcompare (S754_finite sx mx ex) (S754_finite sy my ey)
  = Some (aligned sx mx ex (Z.min ex ey) ?= aligned sy my ey (Z.min ex ey)).
Proof.
  intros Hx Hy. unfold aligned. cbn [SFcompare]. f_equal.
  change (Pos.compare_cont Eq mx my) with (Z.pos mx ?= Z.pos my).
  assert (0 < Z.pos mx * 2 ^ (ex - Z.min ex ey))
    by (apply Z.mul_pos_pos; [lia | apply Z.pow_pos_nonneg; lia]).
  assert (0 < Z.pos my * 2 ^ (ey - Z.min ex ey))
    by (apply Z.mul_pos_pos; [lia | apply Z.pow_pos_nonneg; lia]).
  destruct (Z.compare_spec ex ey) as [->|Hlt|Hgt].
  - rewrite Z.min_id, Z.sub_diag, !Z.mul_1_r.
    by destruct sx, sy.
  - pose proof (canonical_lt _ _ _ _ Hx Hy Hlt).
    rewrite Z.min_l in * by lia. rewrite Z.sub_diag, Z.mul_1_r in *.
    destruct sx, sy; cbn [cond_Zopp]; symmetry;
      first [apply Z.compare_lt_iff | apply Z.compare_gt_iff]; lia.
  - pose proof (canonical_lt _ _ _ _ Hy Hx ltac:(lia)).
    rewrite Z.min_r in * by lia. rewrite Z.sub_diag, Z.mul_1_r in *.
    destruct sx, sy; cbn [cond_Zopp]; symmetry;
      first [apply Z.compare_lt_iff | apply Z.compare_gt_iff]; lia.
Qed.

Lemma SFsub_finite (sx sy : bool) (mx my : positive) (ex ey : Z) :
  bounded prec emax mx ex = true → bounded prec emax my ey = true →
  let d := SFsub prec emax (S754_finite sx mx ex) (S754_finite sy my ey) in
  match aligned sx mx ex (Z.min ex ey) ?= aligned sy my ey (Z.min ex ey) with
  | Eq => d = S754_zero false
  | Lt => signed true d
  | Gt => signed false d
  end.
Proof.
  intros Hx Hy. cbn [SFsub]. cbv zeta.
  destruct (canonical_exponent _ _ Hx) as (Hex & _ & _).
  destruct (canonical_exponent _ _ Hy) as (Hey & _ & _).
  rewrite !shl_align_fst by lia. fold (aligned sx mx ex (Z.min ex ey)).
  fold (aligned sy my ey (Z.min ex ey)).
  set (vx := aligned sx mx ex (Z.min ex ey)). set (vy := aligned sy my ey (Z.min ex ey)).
  unfold binary_normalize.
  destruct (Z.compare_spec vx vy) as [Heq|Hlt|Hgt].
  - by replace (vx - vy) with 0 by lia.
  - destruct (vx - vy) as [|p|p] eqn:Hd; [lia|lia|]. apply binary_round_signed. lia.
  - destruct (vx - vy) as [|p|p] eqn:Hd; [lia| |lia]. apply binary_round_signed. lia.
Qed.

Lemma signed_tests (s : bool) (r : spec_float) :
  signed s r → SFeqb r (S754_zero false) = false ∧ SFleb (S754_zero false) r = negb s.
Proof. destruct r as [| | |s' m e]; cbn; try done; intros ->; by destruct s. Qed.

(** The difference of two finite floats is zero exactly when the floats
    are equal, and it is at least zero exactly when the first is at least
    the second: a difference does not round to zero. *)
Lemma SFsub_tests (x y : spec_float) :
  valid_binary x = true → valid_binary y = true →
  match x, y with
  | S754_nan, _ | _, S754_nan | S754_infinity _, _ | _, S754_infinity _ => True
  | _, _ =>
      SFeqb (SFsub prec emax x y) (S754_zero false) = SFeqb y x
      ∧ SFleb (S754_zero false) (SFsub prec emax x y) = SFleb y x
  end.
Proof.
  intros Hx Hy.
  destruct x as [sx| | |sx mx ex], y as [sy| | |sy my ey]; try done.
  - by destruct sx, sy.
  - by destruct sy.
  - by destruct sx.
  - cbn [SpecFloat.valid_binary] in Hx, Hy.
    pose proof (SFsub_finite sx sy mx my ex ey Hx Hy) as Hd. cbv zeta in Hd.
    unfold SFeqb at 2. unfold SFleb at 2.
    rewrite (SFcompare_aligned sy sx my mx ey ex Hy Hx), Z.min_comm.
    rewrite (Z.compare_antisym (aligned sx mx ex (Z.min ex ey))).
    destruct (aligned sx mx ex (Z.min ex ey) ?= aligned sy my ey (Z.min ex ey)).
    + by rewrite Hd.
    + by apply signed_tests in Hd as [-> ->].
    + by apply signed_tests in Hd as [-> ->].
Qed.

Lemma sub_tests (a b : float) :
  finite_float a = true → finite_float b = true →
  PrimFloat.eqb (b - a) 0 = PrimFloat.eqb a b
  ∧ PrimFloat.leb 0 (b - a) = PrimFloat.leb a b.
Proof.
  unfold finite_float. intros Ha Hb.
  rewrite !FloatAxioms.eqb_spec, !FloatAxioms.leb_spec, FloatAxioms.sub_spec.
  change (Prim2SF 0) with (S754_zero false).
  pose proof (SFsub_tests (Prim2SF b) (Prim2SF a) (Prim2SF_valid b) (Prim2SF_valid a)) as H.
  destruct (Prim2SF a), (Prim2SF b); try done.
Qed.

End SubFacts.

(** ** The storage section *)

Section StorageFacts.

Import GoNum GoLib.
Context `{GoRuntime} `{GoPrinter}.

Lemma omap_filter_on {A B} (f : A → option B) (p : A → bool) (g : A → B) (l : list A) :
  (∀ x, x ∈ l → f x = if p x then Some (g x) else None) →
  omap f l = g <$> filter (λ x, p x = true) l.
Proof.
  induction l as [|x l IH]; intros Hf; [done|].
  cbn [omap list_omap]. fold (omap f l). rewrite filter_cons.
  rewrite (Hf x) by apply list_elem_of_here.
  rewrite IH by (intros y Hy; apply Hf; by apply list_elem_of_further).
  destruct (p x); by rewrite ?decide_True, ?decide_False by done.
Qed.

Lemma storage_entry_cases (base curr : Row) (f : string) :
  finite_float (toFloat64 (get base f)) = true →
  finite_float (toFloat64 (get curr f)) = true →
  ∃ d, storage_line d = storage_text base curr f
       ∧ storage_entry base curr f
         = if storage_differs base curr f then Some d else None.
Proof.
  intros Hb Hc. destruct (sub_tests _ _ Hb Hc) as [Heq Hle].
  unfold storage_entry, storage_differs, storage_text. cbv zeta.
  set (b := get base f) in *. set (c := get curr f) in *.
  exists (Build_storageDelta (TrimSuffix f "_bytes") b c (toFloat64 c - toFloat64 b)
            (if negb (PrimFloat.eqb (toFloat64 b) 0)
             then (toFloat64 c - toFloat64 b) / toFloat64 b * 100 else 0)%float).
  split.
  - unfold storage_line. cbn [sd_field sd_b sd_c sd_delta sd_pct]. by rewrite Hle.
  - rewrite Heq. clearbody b c. clear.
    destruct b, c; try done; by destruct (PrimFloat.eqb _ _).
Qed.

(** diff.go, [emitStorageDelta]: the storage section lists, in the order
    of the declared fields, exactly the fields that both rows hold with
    two different numbers, and marks with a plus sign exactly the ones
    whose current number is not below the baseline: the difference of two
    finite floats is zero only if they are equal, and has the sign of
    their order.  Without such a field nothing is printed. *)
Theorem storage_section (base curr : Row) :
  storage_finite base = true → storage_finite curr = true →
  run_IO (emitStorageDelta (Some base) (Some curr))
  = match filter (λ f, storage_differs base curr f = true) storageFields with
    | [] => (false, "")
    | changed =>
        (true, "## Storage delta" +:+ nl
                 +:+ lines_of (storage_text base curr <$> changed) +:+ nl)
    end.
Proof.
  intros Hb Hc. unfold storage_finite in Hb, Hc.
  rewrite forallb_forall in Hb, Hc.
  set (g := λ f, default (Build_storageDelta "" VNil VNil 0 0)
                   (storage_entry base curr f)).
  assert (∀ f, f ∈ storageFields →
               storage_entry base curr f
               = (if storage_differs base curr f then Some (g f) else None)
               ∧ (storage_differs base curr f = true →
                  storage_line (g f) = storage_text base curr f)) as Hg.
  { intros f Hf. apply list_elem_of_In in Hf.
    destruct (storage_entry_cases base curr f (Hb f Hf) (Hc f Hf)) as (d & Hline & Hd).
    subst g. cbv beta. rewrite Hd.
    destruct (storage_differs base curr f); [|done]. by split. }
  unfold emitStorageDelta, run_IO.
  rewrite (omap_filter_on _ (storage_differs base curr) g) by (intros f Hf; by apply Hg).
  rewrite section_output, <- list_fmap_compose.
  rewrite (list_fmap_ext (storage_line ∘ g) (storage_text base curr)
             (filter (λ f, storage_differs base curr f = true) storageFields)).
  - by destruct (filter _ storageFields).
  - intros i f Hf. apply list_elem_of_lookup_2, list_elem_of_filter in Hf as [Hp Hf].
    by apply Hg.
Qed.

End StorageFacts.

Lemma storage_section_witness :
  run_IO (emitStorageDelta
            (Some {[ "home_bytes" := VFloat 1024; "trash_bytes" := VFloat 5 ]})
            (Some {[ "home_bytes" := VFloat 2048; "trash_bytes" := VFloat 5 ]}))
  = match filter (λ f, storage_differs
                         {[ "home_bytes" := VFloat 1024; "trash_bytes" := VFloat 5 ]}
                         {[ "home_bytes" := VFloat 2048; "trash_bytes" := VFloat 5 ]} f
                       = true) storageFields with
    | [] => (false, "")
    | changed =>
        (true, "## Storage delta" +:+ nl
                 +:+ lines_of (storage_text
                                 {[ "home_bytes" := VFloat 1024; "trash_bytes" := VFloat 5 ]}
                                 {[ "home_bytes" := VFloat 2048; "trash_bytes" := VFloat 5 ]}
                                 <$> changed) +:+ nl)
    end.
Proof.
  apply (storage_section
           {[ "home_bytes" := VFloat 1024; "trash_bytes" := VFloat 5 ]}
           {[ "home_bytes" := VFloat 2048; "trash_bytes" := VFloat 5 ]});
    vm_compute; reflexivity.
Defined.

(** ** The count sections *)

Section CountFacts.

Import GoNum GoLib.
Context `{GoRuntime} `{GoPrinter}.

Lemma wrap_int_small (z : Z) : - 2 ^ 63 <= z < 2 ^ 63 → wrap_int z = z.
Proof.
  intros Hz. unfold wrap_int. rewrite Z.mod_small; [lia|].
  change (2 ^ 64) with (2 ^ 63 + 2 ^ 63). lia.
Qed.

Lemma count_entry_cases (base curr : Row) (f : string) :
  (Z.abs (toInt (get base f)) <? 2 ^ 62) = true →
  (Z.abs (toInt (get curr f)) <? 2 ^ 62) = true →
  ∃ d, count_line d = count_text base curr f
       ∧ count_entry base curr f = if count_differs base curr f then Some d else None.
Proof.
  intros Hb Hc. apply Z.ltb_lt in Hb, Hc.
  unfold count_entry, count_differs, count_text. cbv zeta.
  set (b := toInt (get base f)) in *. set (c := toInt (get curr f)) in *.
  assert (2 ^ 63 = 2 * 2 ^ 62) as E63 by reflexivity.
  rewrite wrap_int_small by lia.
  exists (Build_countDelta f b c (c - b)). split.
  - unfold count_line. cbn [cd_field cd_b cd_c cd_delta].
    by destruct (Z.leb_spec 0 (c - b)), (Z.leb_spec b c); try lia.
  - by destruct (Z.eqb_spec (c - b) 0), (Z.eqb_spec b c); try lia.
Qed.

Lemma count_loop (header : string) (fields : list string) (base curr : Row) :
  small_counts fields base = true → small_counts fields curr = true →
  run_IO (let deltas := omap (count_entry base curr) fields in
          if (length deltas =? 0)%nat then mret false
          else
            Println header ;;
            for_each deltas (λ d, Println (count_line d)) ;;
            Println "" ;;
            mret true)
  = count_report header fields base curr.
Proof.
  intros Hb Hc. unfold small_counts in Hb, Hc. rewrite forallb_forall in Hb, Hc.
  set (g := λ f, default (Build_countDelta "" 0 0 0) (count_entry base curr f)).
  assert (∀ f, f ∈ fields →
               count_entry base curr f
               = (if count_differs base curr f then Some (g f) else None)
               ∧ (count_differs base curr f = true →
                  count_line (g f) = count_text base curr f)) as Hg.
  { intros f Hf. apply list_elem_of_In in Hf.
    destruct (count_entry_cases base curr f (Hb f Hf) (Hc f Hf)) as (d & Hline & Hd).
    subst g. cbv beta. rewrite Hd.
    destruct (count_differs base curr f); [|done]. by split. }
  unfold run_IO, count_report. cbv zeta.
  rewrite (omap_filter_on _ (count_differs base curr) g) by (intros f Hf; by apply Hg).
  rewrite section_output, <- list_fmap_compose.
  rewrite (list_fmap_ext (count_line ∘ g) (count_text base curr)
             (filter (λ f, count_differs base curr f = true) fields)).
  - by destruct (filter _ fields).
  - intros i f Hf. apply list_elem_of_lookup_2, list_elem_of_filter in Hf as [Hp Hf].
    by apply Hg.
Qed.

(** diff.go, [emitCountDelta] and [emitHomebrewDelta]: each section
    lists, in the order of its declared fields, exactly the fields whose
    counts differ, a count that is missing or not a number being 0, with
    the two counts and their difference, and a plus sign when the count
    has grown.  Without such a field nothing is printed. *)
Theorem count_sections (base curr : Row) :
  small_counts (countFields ++ [ "formulae"; "casks" ]) base = true →
  small_counts (countFields ++ [ "formulae"; "casks" ]) curr = true →
  run_IO (emitCountDelta (Some base) (Some curr))
  = count_report "## Count changes" countFields base curr
  ∧ run_IO (emitHomebrewDelta (Some base) (Some curr))
    = count_report "## Homebrew delta" [ "formulae"; "casks" ] base curr.
Proof.
  unfold small_counts. rewrite !forallb_app. intros Hb Hc.
  apply andb_true_iff in Hb as [Hb1 Hb2]. apply andb_true_iff in Hc as [Hc1 Hc2].
  split; by apply count_loop.
Qed.

End CountFacts.

Lemma count_sections_witness :
  run_IO (emitCountDelta (Some {[ "git_repos" := VFloat 3; "casks" := VFloat 7 ]})
            (Some {[ "git_repos" := VFloat 5; "node_modules" := VFloat 1 ]}))
  = count_report "## Count changes" countFields
      {[ "git_repos" := VFloat 3; "casks" := VFloat 7 ]}
      {[ "git_repos" := VFloat 5; "node_modules" := VFloat 1 ]}
  ∧ run_IO (emitHomebrewDelta (Some {[ "git_repos" := VFloat 3; "casks" := VFloat 7 ]})
              (Some {[ "git_repos" := VFloat 5; "node_modules" := VFloat 1 ]}))
    = count_report "## Homebrew delta" [ "formulae"; "casks" ]
        {[ "git_repos" := VFloat 3; "casks" := VFloat 7 ]}
        {[ "git_repos" := VFloat 5; "node_modules" := VFloat 1 ]}.
Proof.
  apply (count_sections {[ "git_repos" := VFloat 3; "casks" := VFloat 7 ]}
           {[ "git_repos" := VFloat 5; "node_modules" := VFloat 1 ]});
    vm_compute; reflexivity.
Defined.

(** * Panics and malformed records *)

(** ** The sort through indices *)

Section SortFacts.

Import GoNum GoLib.
Context {A : Type} (lt : A → A → bool) (less : list A → Z → Z → outcome bool).
Hypothesis less_at : ∀ x i j a b,
  x !! i = Some a → x !! j = Some b → less x (Z.of_nat i) (Z.of_nat j) = Done (lt a b).
Context `{!Transitive (not_after lt), !Total (not_after lt), !AntiSymm (=) (not_after lt)}.

Lemma swap_adjacent (pre post : list A) (a b : A) :
  Checked.swap (pre ++ b :: a :: post) (S (length pre)) (length pre)
  = pre ++ a :: b :: post.
Proof.
  unfold Checked.swap.
  rewrite (lookup_app_r pre) by lia.
  replace (S (length pre) - length pre)%nat with 1%nat by lia. cbn [lookup list_lookup].
  rewrite list_lookup_middle by done.
  replace (length pre) with (length pre + 0)%nat at 2 by lia.
  rewrite insert_app_r. cbn [insert list_insert].
  replace (S (length pre)) with (length pre + 1)%nat by lia.
  by rewrite insert_app_r.
Qed.

Lemma sink_spec (r post : list A) (a : A) :
  Checked.sink less (rev r ++ a :: post) (length r)
  = Done (rev (ins lt a r) ++ post).
Proof.
  revert post. induction r as [|b r IH]; intros post; [done|].
  cbn [length Checked.sink rev ins].
  rewrite (less_at _ (S (length r)) (length r) a b).
  - cbn. destruct (lt a b).
    + rewrite <- app_assoc. cbn [app].
      rewrite <- (length_rev r), swap_adjacent, length_rev, IH.
      cbn [rev]. by rewrite <- app_assoc.
    + cbn [rev]. by rewrite <- !app_assoc.
  - rewrite <- app_assoc. cbn [app].
    rewrite lookup_app_r by (rewrite length_rev; lia).
    rewrite length_rev. by replace (S (length r) - length r)%nat with 1%nat by lia.
  - rewrite <- app_assoc. rewrite <- (length_rev r). by apply list_lookup_middle.
Qed.

Lemma insertions_spec (r post : list A) :
  Checked.for_range (seq (length r) (length post)) (rev r ++ post) (Checked.sink less)
  = Done (insertions lt r post).
Proof.
  revert r. induction post as [|a post IH]; intros r.
  - cbn. by rewrite app_nil_r.
  - cbn [length seq Checked.for_range]. rewrite sink_spec. cbn.
    assert (length (ins lt a r) = S (length r)) as Hlen.
    { clear. induction r as [|b r IHr]; [done|]. cbn. destruct (lt a b); cbn; lia. }
    rewrite <- Hlen. apply IH.
Qed.

Lemma ins_perm (a : A) (r : list A) : ins lt a r ≡ₚ a :: r.
Proof.
  induction r as [|b r IH]; [done|]. cbn. destruct (lt a b); [|done].
  rewrite IH. apply Permutation_swap.
Qed.

Lemma ins_sorted (a : A) (r : list A) :
  StronglySorted (flip (not_after lt)) r → StronglySorted (flip (not_after lt)) (ins lt a r).
Proof.
  induction 1 as [|b r Hr IH Hb]; cbn.
  - repeat constructor.
  - destruct (lt a b) eqn:Hab.
    + constructor; [done|]. rewrite ins_perm. constructor; [|done].
      unfold flip. destruct (total (not_after lt) a b) as [|Hba]; [done|].
      unfold not_after in Hba. congruence.
    + constructor; [by constructor|]. constructor; [done|].
      eapply Forall_impl; [exact Hb|]. intros c Hc. unfold flip in *.
      by trans b.
Qed.

Lemma insertions_sorted (r post : list A) :
  StronglySorted (flip (not_after lt)) r →
  StronglySorted (not_after lt) (insertions lt r post) ∧ insertions lt r post ≡ₚ r ++ post.
Proof.
  revert r. induction post as [|a post IH]; intros r Hr; cbn [insertions].
  - split; [|rewrite app_nil_r; symmetry; apply Permutation_rev].
    clear -Hr. induction Hr as [|b r Hr IH Hb]; [constructor|].
    cbn [rev]. apply StronglySorted_app_2; [|done|repeat constructor].
    intros x y Hx Hy. apply list_elem_of_singleton in Hy as ->.
    apply list_elem_of_In, in_rev in Hx.
    rewrite List.Forall_forall in Hb. by apply Hb.
  - destruct (IH (ins lt a r) (ins_sorted a r Hr)) as [Hs Hp].
    split; [done|]. rewrite Hp, ins_perm. cbn [app]. apply Permutation_middle.
Qed.

(** [sort.Slice] does not panic with a closure that indexes the slice it
    sorts, and sorts by the closure's order. *)
Lemma sort_Slice_safe (x : list A) :
  Checked.sort_Slice x less = Done (sort_Slice lt x).
Proof.
  unfold Checked.sort_Slice, sort_Slice.
  assert (Checked.for_range (seq 1 (length x - 1)) x (Checked.sink less)
          = Done (insertions lt [] x)) as ->.
  { destruct x as [|a x]; [done|].
    cbn [length]. replace (S (length x) - 1)%nat with (length x) by lia.
    apply (insertions_spec [a] x). }
  f_equal. destruct (insertions_sorted [] x) as [Hs Hp]; [constructor|].
  apply (StronglySorted_unique (not_after lt)); [done| |].
  - by apply StronglySorted_merge_sort.
  - by rewrite Hp, merge_sort_Permutation.
Qed.

End SortFacts.

(** ** The run *)

Section PanicFacts.

Import GoNum GoLib.
Context `{GoRuntime} `{GoPrinter}.

Lemma for_range_Done {A S T} (inj : T → S) (g : T → A → T)
    (body : S → A → outcome S) (l : list A) (t : T) :
  (∀ t x, body (inj t) x = Done (inj (g t x))) →
  Checked.for_range l (inj t) body = Done (inj (foldl g t l)).
Proof.
  intros Hbody. revert t. induction l as [|x l IH]; intros t; [done|].
  cbn [Checked.for_range foldl]. rewrite Hbody. apply IH.
Qed.

Lemma GroupByType_safe (rows : list Row) :
  Checked.GroupByType rows = Done (Some (GroupByType rows)).
Proof.
  unfold Checked.GroupByType, GroupByType. apply (for_range_Done Some).
  intros byType row. destruct (get row "type"); try done.
  by destruct (negb _).
Qed.

Lemma CollectWarningCodes_safe (rows : list Row) :
  Checked.CollectWarningCodes rows = Done (Some (CollectWarningCodes rows)).
Proof.
  unfold Checked.CollectWarningCodes, CollectWarningCodes. apply (for_range_Done Some).
  intros codes row. repeat case_match; done.
Qed.

Lemma ExpectedState_safe (probe : string) (ec : option Row) :
  Checked.ExpectedState probe ec = Done (ExpectedState probe (Checked.entries ec)).
Proof.
  unfold Checked.ExpectedState, ExpectedState. cbv zeta.
  destruct (decide (size (default ∅ (probeExpectedExitCodes !! probe)) = 0%nat)); [done|].
  unfold Checked.make_set.
  rewrite (for_range_Done Some (λ codes k, match Sscanf_d k with
                                           | Some c => {[ c ]} ∪ codes
                                           | None => codes
                                           end))
    by (intros codes k; by destruct (Sscanf_d k)).
  fold (scanned_codes (range_keys (Checked.entries ec))).
  cbn [mbind Checked.outcome_bind Checked.members default from_option id].
  destruct (decide (size (scanned_codes (range_keys (Checked.entries ec))) = 0%nat));
    [done|].
  by destruct (overlap _ _).
Qed.

Lemma ExpectedSuffix_safe (probe : string) (ec : option Row) :
  Checked.ExpectedSuffix probe ec = Done (ExpectedSuffix probe (Checked.entries ec)).
Proof. unfold Checked.ExpectedSuffix. by rewrite ExpectedState_safe. Qed.

Lemma entries_getMap (row : option Row) (key : string) :
  Checked.entries (Checked.getMap row key) = getMap row key.
Proof. unfold Checked.getMap, getMap. by destruct (getf row key). Qed.

Lemma normExitCodes_safe (ec : option Row) :
  ∃ out, Checked.normExitCodes ec = Done out
         ∧ Checked.entries out = normExitCodes (Checked.entries ec).
Proof.
  destruct ec as [ec|].
  - exists (Some (normExitCodes ec)). split; [|done].
    unfold Checked.normExitCodes, normExitCodes. apply (for_range_Done Some).
    intros out [k v]. by destruct (Sscanf_d k).
  - exists None. split; [done|].
    unfold normExitCodes, range_map. cbn. by rewrite map_to_list_empty, range_nil.
Qed.

Lemma exitCodesDelta_safe (baseEC currEC : option Row) :
  Checked.exitCodesDelta baseEC currEC
  = Done (Some (exitCodesDelta (Checked.entries baseEC) (Checked.entries currEC))).
Proof.
  unfold Checked.exitCodesDelta, exitCodesDelta, Checked.make_set, Checked.make_map.
  rewrite (for_range_Done Some (λ acc k, {[ k ]} ∪ acc)) by done.
  cbn [mbind Checked.outcome_bind].
  rewrite (for_range_Done Some (λ acc k, {[ k ]} ∪ acc)) by done.
  cbn [mbind Checked.outcome_bind Checked.members default from_option id].
  by apply (for_range_Done Some).
Qed.

Lemma probeFailureIsChanged_safe (probe : string) (baseIt currIt : option Row) :
  Checked.probeFailureIsChanged probe baseIt currIt
  = Done (probeFailureIsChanged probe baseIt currIt).
Proof.
  unfold Checked.probeFailureIsChanged, probeFailureIsChanged.
  destruct baseIt as [b|], currIt as [c|]; try done.
  destruct (negb (toInt _ =? toInt _)); [done|]. cbv zeta.
  destruct (normExitCodes_safe (Checked.getMap (Some b) "exit_codes")) as (x & Ex & Hx).
  destruct (normExitCodes_safe (Checked.getMap (Some c) "exit_codes")) as (y & Ey & Hy).
  rewrite Ex. cbn [mbind Checked.outcome_bind]. rewrite Ey.
  cbn [mbind Checked.outcome_bind]. rewrite Hx, Hy, !entries_getMap.
  destruct (negb (mapsEqual _ _)); [done|].
  rewrite !ExpectedState_safe. cbn [mbind Checked.outcome_bind].
  by rewrite !entries_getMap.
Qed.

Lemma slice_at_lookup {A} (x : list A) (i : nat) (a : A) :
  x !! i = Some a → Checked.slice_at x (Z.of_nat i) = Done a.
Proof.
  intros Hx. unfold Checked.slice_at.
  destruct (Z.leb_spec 0 (Z.of_nat i)); [|lia]. by rewrite Nat2Z.id, Hx.
Qed.

Lemma sort_Slice_lex_safe (lt : string → string → bool) (rank : string → Z)
    (less : list string → Z → Z → outcome bool) (x : list string) :
  (∀ a b, lt a b = lex_less rank a b) →
  (∀ x i j a b, x !! i = Some a → x !! j = Some b →
                less x (Z.of_nat i) (Z.of_nat j) = Done (lt a b)) →
  Checked.sort_Slice x less = Done (sort_Slice lt x).
Proof.
  intros Hlt Hless.
  assert (Transitive (not_after lt)).
  { intros a b c. unfold not_after. rewrite !Hlt. apply lex_not_after_trans. }
  assert (Total (not_after lt)).
  { intros a b. unfold not_after. rewrite !Hlt. apply lex_not_after_total. }
  assert (AntiSymm (=) (not_after lt)).
  { intros a b. unfold not_after. rewrite !Hlt. apply lex_not_after_antisymm. }
  by apply sort_Slice_safe.
Qed.

Lemma sortProbes_safe (probes : list string) (status : string) :
  Checked.sortProbes probes status = Done (sortProbes probes status).
Proof.
  unfold Checked.sortProbes, sortProbes.
  apply (sort_Slice_lex_safe _ _ _ _ (probe_less_lex status)).
  intros x i j a b Ha Hb. unfold Checked.probes_less.
  by rewrite (slice_at_lookup _ _ _ Ha), (slice_at_lookup _ _ _ Hb).
Qed.

Lemma sort_topics_safe (topics : list string) :
  Checked.sort_Slice topics Checked.topics_less = Done (sort_Slice topic_less topics).
Proof.
  apply (sort_Slice_lex_safe _ _ _ _ topic_less_lex).
  intros x i j a b Ha Hb. unfold Checked.topics_less, topic_less.
  rewrite (slice_at_lookup _ _ _ Ha), (slice_at_lookup _ _ _ Hb).
  cbn [mbind Checked.outcome_bind].
  by destruct (negb (topicSortKey a =? topicSortKey b)).
Qed.

Lemma index_items_safe (items : list value) :
  Checked.index_items items = Done (Some (index_items items)).
Proof.
  unfold Checked.index_items, index_items. apply (for_range_Done Some).
  intros probes it. destruct it; try done. by destruct (get _ "probe").
Qed.

(** A loop that appends the elements that pass a test. *)
Lemma for_range_filter {A} (P : A → Prop) `{∀ x, Decision (P x)}
    (test : A → outcome bool) (f : A → bool) (l acc : list A) :
  (∀ x, test x = Done (f x)) →
  Checked.for_range l acc
    (λ acc x, if decide (P x) then
                b ← test x; Done (if (b : bool) then acc ++ [x] else acc)
              else Done acc)
  = Done (acc ++ filter (λ x, P x ∧ f x = true) l).
Proof.
  intros Htest. revert acc. induction l as [|x l IH]; intros acc.
  - cbn. by rewrite app_nil_r.
  - cbn [Checked.for_range]. rewrite filter_cons. destruct (decide (P x)) as [HP|HP].
    + rewrite Htest. cbn [mbind Checked.outcome_bind]. destruct (f x) eqn:Hf.
      * rewrite IH, decide_True by done. by rewrite <- app_assoc.
      * rewrite IH, decide_False; [done|]. intros [_ ?]. congruence.
    + cbn [mbind Checked.outcome_bind]. rewrite IH, decide_False; [done|]. tauto.
Qed.

Lemma buildProbeFailureEntries_safe (basePF currPF : option Row) :
  Checked.buildProbeFailureEntries basePF currPF
  = Done (buildProbeFailureEntries basePF currPF).
Proof.
  unfold Checked.buildProbeFailureEntries, buildProbeFailureEntries. cbv zeta.
  rewrite !index_items_safe. cbn [mbind Checked.outcome_bind Checked.entries default
                                   from_option id].
  rewrite (for_range_filter _ _ (λ p, probeFailureIsChanged p
                                         (index_items (getSlice basePF "items") !! p)
                                         (index_items (getSlice currPF "items") !! p)))
    by (intros p; apply probeFailureIsChanged_safe).
  cbn [mbind Checked.outcome_bind app]. rewrite !sortProbes_safe. done.
Qed.

Lemma format_entry_safe (e : probeEntry) :
  Checked.format_entry e = Done (format_entry e).
Proof.
  unfold Checked.format_entry, format_entry.
  destruct (String.eqb (status e) "new"); [|destruct (String.eqb (status e) "resolved")].
  - unfold Checked.formatProbeEntryNew, formatProbeEntryNew. cbv zeta.
    rewrite ExpectedSuffix_safe. cbn [mbind Checked.outcome_bind].
    by rewrite !entries_getMap.
  - unfold Checked.formatProbeEntryResolved, formatProbeEntryResolved. cbv zeta.
    rewrite ExpectedSuffix_safe. cbn [mbind Checked.outcome_bind].
    by rewrite !entries_getMap.
  - unfold Checked.formatProbeEntryChanged, formatProbeEntryChanged. cbv zeta.
    rewrite exitCodesDelta_safe. cbn [mbind Checked.outcome_bind].
    rewrite ExpectedSuffix_safe. cbn [mbind Checked.outcome_bind Checked.entries default
                                        from_option id].
    by rewrite !entries_getMap.
Qed.

Lemma runs_as_ret {A} (a : A) : runs_as (mret a) (mret a).
Proof. done. Qed.

Lemma runs_as_bind {A B} (m : Checked.Exec A) (p : IO A)
    (f : A → Checked.Exec B) (g : A → IO B) :
  runs_as m p → (∀ a, runs_as (f a) (g a)) → runs_as (m ≫= f) (p ≫= g).
Proof.
  intros Hm Hf out. unfold mbind, Checked.Exec_bind, IO_bind.
  rewrite (Hm out). destruct (p out) as [a out']. apply Hf.
Qed.

Lemma runs_as_of_IO {A} (p : IO A) : runs_as (Checked.of_IO p) p.
Proof. intros out. unfold Checked.of_IO. by destruct (p out). Qed.

Lemma runs_as_of_outcome {A B} (o : outcome A) (a : A) (f : A → Checked.Exec B)
    (p : IO B) :
  o = Done a → runs_as (f a) p → runs_as (Checked.of_outcome o ≫= f) p.
Proof. intros -> Hf out. apply Hf. Qed.

Lemma runs_as_for_each {A} (l : list A) (body : A → Checked.Exec unit)
    (body' : A → IO unit) :
  (∀ x, runs_as (body x) (body' x)) →
  runs_as (Checked.for_each l body) (for_each l body').
Proof.
  intros Hbody. induction l as [|x l IH]; [done|].
  cbn [Checked.for_each for_each]. apply runs_as_bind; [apply Hbody | done].
Qed.

Lemma emitProbeFailuresDelta_safe (basePF currPF : option Row) :
  runs_as (Checked.emitProbeFailuresDelta basePF currPF)
    (emitProbeFailuresDelta basePF currPF).
Proof.
  unfold Checked.emitProbeFailuresDelta, emitProbeFailuresDelta.
  eapply runs_as_of_outcome; [apply buildProbeFailureEntries_safe|].
  apply runs_as_bind; [apply runs_as_of_IO | intros _].
  destruct (length (buildProbeFailureEntries basePF currPF) =? 0)%nat.
  - apply runs_as_bind; [apply runs_as_of_IO | intros _].
    apply runs_as_bind; [apply runs_as_of_IO | intros _]. apply runs_as_ret.
  - eapply runs_as_of_outcome.
    { unfold Checked.make_map.
      apply (for_range_Done Some
               (λ byTopic e, <[ ProbeTopic (probe e)
                                := default [] (byTopic !! ProbeTopic (probe e)) ++ [e] ]>
                               byTopic)).
      done. }
    cbv zeta. fold (group_by_topic (buildProbeFailureEntries basePF currPF)).
    eapply runs_as_of_outcome; [apply sort_topics_safe|].
    apply runs_as_bind.
    + apply runs_as_for_each. intros topic.
      apply runs_as_bind; [apply runs_as_of_IO | intros _].
      apply runs_as_for_each. intros e.
      eapply runs_as_of_outcome; [apply format_entry_safe | apply runs_as_of_IO].
    + intros _. apply runs_as_bind; [apply runs_as_of_IO | intros _]. apply runs_as_ret.
Qed.

(** What the reading guards against: the assignment to an entry of a nil
    map panics, alone and in a loop, and so does an index outside its
    slice, alone and in the closure of a sort. *)
Example checked_operations_panic :
  Checked.map_store (None : option (gmap string Z)) "1" 0
  = Panic "assignment to entry in nil map"
  ∧ Checked.for_range [ ("1", 7); ("2", 0) ] None
      (λ (m : option (gmap string Z)) '(k, v), Checked.map_store m k v)
    = Panic "assignment to entry in nil map"
  ∧ Checked.slice_at [ "a" ] 1 = Panic "index out of range"
  ∧ Checked.sort_Slice [ "b"; "a" ]
      (λ x i j, p ← Checked.slice_at x (i + 1); Done (String.ltb p "c"))
    = Panic "index out of range".
Proof. repeat split. Qed.

(** [Run] does not panic. *)
Lemma Run_safe (baselineRows currentRows : list Row) :
  runs_as (Checked.Run baselineRows currentRows) (Run baselineRows currentRows).
Proof.
  unfold Checked.Run, Run. cbv zeta.
  eapply runs_as_of_outcome; [apply GroupByType_safe|].
  eapply runs_as_of_outcome; [apply GroupByType_safe|].
  apply runs_as_bind; [apply runs_as_of_IO | intros d1].
  apply runs_as_bind; [apply runs_as_of_IO | intros d2].
  apply runs_as_bind; [apply runs_as_of_IO | intros d3].
  apply runs_as_bind; [apply runs_as_of_IO | intros d4].
  eapply runs_as_of_outcome; [apply CollectWarningCodes_safe|].
  eapply runs_as_of_outcome; [apply CollectWarningCodes_safe|].
  apply runs_as_bind; [apply runs_as_of_IO | intros d5].
  apply runs_as_bind; [apply emitProbeFailuresDelta_safe | intros d6].
  apply runs_as_bind; [|intros _; apply runs_as_ret].
  destruct (negb _); [apply runs_as_of_IO | apply runs_as_ret].
Qed.

End PanicFacts.

(** ** Malformed records in a run *)

Section DegradeFacts.

Import GoNum GoLib.
Context `{GoRuntime} `{GoPrinter}.

Lemma CollectWarningCodes_skip (before : list Row) (row : Row) (after : list Row) :
  has_type row = false →
  CollectWarningCodes (before ++ row :: after) = CollectWarningCodes (before ++ after).
Proof.
  intros Hrow. unfold CollectWarningCodes. rewrite !foldl_app. cbn [foldl].
  unfold has_type in Hrow.
  destruct (get row "type") as [| | | | |t| |]; try reflexivity.
  apply negb_false_iff, String.eqb_eq in Hrow as ->. reflexivity.
Qed.

(** What [Run] reads of its two streams. *)
Lemma Run_congruence (b b' c c' : list Row) :
  (∀ t, t ∈ [ "summary"; "counts"; "security_config"; "homebrew_summary" ] →
        GroupByType b !! t = GroupByType b' !! t
        ∧ GroupByType c !! t = GroupByType c' !! t) →
  CollectWarningCodes b = CollectWarningCodes b' →
  CollectWarningCodes c = CollectWarningCodes c' →
  emitProbeFailuresDelta (GroupByType b !! "probe_failures_summary")
    (GroupByType c !! "probe_failures_summary")
  = emitProbeFailuresDelta (GroupByType b' !! "probe_failures_summary")
      (GroupByType c' !! "probe_failures_summary") →
  Run b c = Run b' c'.
Proof.
  intros Hidx Hb Hc Hpf. unfold Run. cbv zeta. rewrite Hb, Hc, Hpf.
  destruct (Hidx "summary") as [-> ->]; [rewrite !elem_of_cons; tauto|].
  destruct (Hidx "counts") as [-> ->]; [rewrite !elem_of_cons; tauto|].
  destruct (Hidx "security_config") as [-> ->]; [rewrite !elem_of_cons; tauto|].
  destruct (Hidx "homebrew_summary") as [-> ->]; [rewrite !elem_of_cons; tauto|].
  reflexivity.
Qed.

Lemma emitProbeFailuresDelta_index (b b' c c' : option Row) :
  index_items (getSlice b "items") = index_items (getSlice b' "items") →
  index_items (getSlice c "items") = index_items (getSlice c' "items") →
  emitProbeFailuresDelta b c = emitProbeFailuresDelta b' c'.
Proof.
  intros Hb Hc. unfold emitProbeFailuresDelta, buildProbeFailureEntries.
  cbv zeta. by rewrite Hb, Hc.
Qed.

(** Two rows of the probe failures that index the same probes stand for
    one another in a stream. *)
Lemma Run_summary_rows (s s' : Row) (before after others : list Row) :
  type_is "probe_failures_summary" s = true →
  get s' "type" = get s "type" →
  index_items (getSlice (Some s) "items") = index_items (getSlice (Some s') "items") →
  Run (before ++ s :: after) others = Run (before ++ s' :: after) others
  ∧ Run others (before ++ s :: after) = Run others (before ++ s' :: after).
Proof.
  intros Hs Htype Hidx.
  assert (∀ t, type_is t s' = type_is t s) as Hty by (intros t; unfold type_is; by rewrite Htype).
  assert (∀ t, t ≠ "probe_failures_summary" → type_is t s = false) as Hother.
  { intros t Ht. unfold type_is in *. destruct (get s "type"); try done.
    apply String.eqb_eq in Hs as ->. by apply String.eqb_neq. }
  assert (∀ t, t ≠ "probe_failures_summary" →
               GroupByType (before ++ s :: after) !! t
               = GroupByType (before ++ s' :: after) !! t) as Hidx_other.
  { intros t Ht. rewrite !GroupByType_other; [done| |]; rewrite ?Hty; by apply Hother. }
  assert (CollectWarningCodes (before ++ s :: after)
          = CollectWarningCodes (before ++ s' :: after)) as Hcodes.
  { rewrite !CollectWarningCodes_other; [done| |]; rewrite ?Hty; by apply Hother. }
  assert (∀ other,
            emitProbeFailuresDelta
              (GroupByType (before ++ s :: after) !! "probe_failures_summary") other
            = emitProbeFailuresDelta
                (GroupByType (before ++ s' :: after) !! "probe_failures_summary") other
            ∧ emitProbeFailuresDelta other
                (GroupByType (before ++ s :: after) !! "probe_failures_summary")
              = emitProbeFailuresDelta other
                  (GroupByType (before ++ s' :: after) !! "probe_failures_summary"))
    as Hpf.
  { intros other. rewrite !GroupByType_lookup.
    change (String.eqb "probe_failures_summary" "") with false. cbv iota.
    rewrite !filter_app, !filter_cons, !decide_True by (rewrite ?Hty, Hs; done).
    destruct (filter (λ row, type_is "probe_failures_summary" row) after) as [|x l] eqn:Hl
      using rev_ind.
    - rewrite !last_snoc.
      split; by apply emitProbeFailuresDelta_index.
    - clear IHl. rewrite !app_comm_cons, !app_assoc, !last_snoc. done. }
  split; apply Run_congruence; try done.
  - intros t Ht. split; [|done]. apply Hidx_other.
    intros ->. revert Ht. rewrite !elem_of_cons, elem_of_nil.
    intros [?|[?|[?|[?|[]]]]]; discriminate.
  - apply Hpf.
  - intros t Ht. split; [done|]. apply Hidx_other.
    intros ->. revert Ht. rewrite !elem_of_cons, elem_of_nil.
    intros [?|[?|[?|[?|[]]]]]; discriminate.
  - apply Hpf.
Qed.

End DegradeFacts.

Section Malformed.

Import GoNum GoLib.
Context `{GoRuntime} `{GoPrinter}.

Lemma get_insert_ne (row : Row) (k k' : string) (v : value) :
  k ≠ k' → get (<[ k := v ]> row) k' = get row k'.
Proof. intros Hne. unfold get. by rewrite lookup_insert_ne. Qed.

Lemma getSlice_insert (row : Row) (l : list value) :
  getSlice (Some (<[ "items" := VList l ]> row)) "items" = l.
Proof. unfold getSlice, getf, get. by rewrite lookup_insert_eq. Qed.

(** C10: [Run] does not panic, whatever the shape of its rows.  In the
    reading of the package in which the assignment to an entry of a nil
    map and an index outside a slice panic, [Run] ends without a panic on
    every pair of row lists, and returns and prints what it does in the
    reading without panics.  Malformed records fall back to defaults in
    a run: a row whose "type" is missing, no string, or the empty string
    changes nothing; in the summary of the probe failures, an "items"
    that is no list stands for the empty list, and an entry of "items"
    that is no map, or has no string under "probe", changes nothing.  In
    the functions the run reads its fields with, a field that is missing
    or holds no number counts as 0, an "exit_codes" that is no map and
    an "items" that is no list are empty, such an entry of "items" is
    not indexed, and such a row is left out of the type index. *)
Theorem Run_total_on_malformed_rows :
  (∀ (baselineRows currentRows : list Row) (out : string),
      Checked.Run baselineRows currentRows out
      = (Done (Run baselineRows currentRows out).1,
         (Run baselineRows currentRows out).2))
  ∧ (∀ (row : Row) (before after others : list Row), has_type row = false →
       Run (before ++ row :: after) others = Run (before ++ after) others
       ∧ Run others (before ++ row :: after) = Run others (before ++ after))
  ∧ (∀ (summary : Row) (before after others : list Row),
       type_is "probe_failures_summary" summary = true →
       (∀ l, get summary "items" ≠ VList l) →
       Run (before ++ summary :: after) others
       = Run (before ++ <[ "items" := VList [] ]> summary :: after) others
       ∧ Run others (before ++ summary :: after)
         = Run others (before ++ <[ "items" := VList [] ]> summary :: after))
  ∧ (∀ (summary : Row) (items_before : list value) (it : value)
       (items_after : list value) (before after others : list Row),
       type_is "probe_failures_summary" summary = true →
       is_probe_item it = false →
       Run (before ++ <[ "items" := VList (items_before ++ it :: items_after) ]> summary
              :: after) others
       = Run (before ++ <[ "items" := VList (items_before ++ items_after) ]> summary
                :: after) others
       ∧ Run others
           (before ++ <[ "items" := VList (items_before ++ it :: items_after) ]> summary
              :: after)
         = Run others
             (before ++ <[ "items" := VList (items_before ++ items_after) ]> summary
                :: after))
  ∧ (∀ (row : Row) key, row !! key = None →
       toInt (get row key) = 0 ∧ toFloat64 (get row key) = 0%float)
  ∧ (∀ v, is_number v = false → toInt v = 0 ∧ toFloat64 v = 0%float)
  ∧ (∀ (item : Row), (∀ m, get item "exit_codes" ≠ VMap m) →
       getMap (Some item) "exit_codes" = ∅)
  ∧ (∀ (summary : Row), (∀ l, get summary "items" ≠ VList l) →
       getSlice (Some summary) "items" = [])
  ∧ (∀ before it after, is_probe_item it = false →
       index_items (before ++ it :: after) = index_items (before ++ after))
  ∧ (∀ before row after, has_type row = false →
       GroupByType (before ++ row :: after) = GroupByType (before ++ after)).
Proof.
  split; [|split; [|split; [|split; [|split; [|split; [|split; [|split; [|split]]]]]]]].
  - intros b c out. apply Run_safe.
  - intros row before after others Hrow. unfold Run.
    by rewrite !GroupByType_skip, !CollectWarningCodes_skip.
  - intros s before after others Hs Hno. apply Run_summary_rows; [done| |].
    + by rewrite get_insert_ne.
    + rewrite getSlice_insert. unfold getSlice, getf.
      destruct (get s "items") eqn:Hv; try reflexivity. by destruct (Hno l).
  - intros s ib it ia before after others Hs Hit. apply Run_summary_rows.
    + unfold type_is in *. by rewrite get_insert_ne.
    + by rewrite !get_insert_ne.
    + rewrite !getSlice_insert. by apply index_items_skip.
  - intros row key Hmiss. unfold get. by rewrite Hmiss.
  - intros v Hv. by destruct v.
  - intros item Hno. unfold getMap, getf.
    destruct (get item "exit_codes") eqn:Hv; try reflexivity.
    by destruct (Hno m).
  - intros summary Hno. unfold getSlice, getf.
    destruct (get summary "items") eqn:Hv; try reflexivity.
    by destruct (Hno l).
  - apply index_items_skip.
  - apply GroupByType_skip.
Qed.

End Malformed.
